(** * Rose Rocket GAS library: token cache, paginated order search,
      retrying container search and the webhook receiver.

    A shallow embedding of
      - [getAccessTokenForInstance]  (manifest_putpayment.js, second script),
      - [InstanceManager.getConfig]  (orders_create_multi_stop.js),
      - [searchOrders]               (orders_search.js),
      - [findOrdersByContainerId]    (manifest_equipment.gs.js),
      - [doPost]                     (webhook script),
    as state-and-exception passing functions over an explicit [World],
    and of the functions around them,
      - [InstanceManager.getInstanceBaseURL], [isValidInstance]
                                     (orders_create_multi_stop.js),
      - [createOrderMultiStopTaylor] (orders_create_multi_stop.js),
      - [putPaymentForManifest], [getManifestIdForInTransitOrder]
                                     (manifest_putpayment.js),
      - [getPaymentForManifest], [postRoserocketInternalNote]
                                     (webhook script file),
      - [getEquipmentForManifest], [getTruckNumberForManifest],
        [getTrailerNumberForManifest] (manifest_getequipment.js),
      - [getOrderLegsByOrderId]      (orders_getlegsbyorderby.js),
      - [obtenerDatosAddressBook], [extractOrganizationNames]
                                     (obtenerDatosAddressBook.js),
    over a world that also records the calls to their endpoints.

    Conventions of the embedding.
      - JavaScript values are the JSON-shaped trees of [value]; numbers are
        the integer-valued doubles, written as integers ([Z]): the counts,
        totals, offsets, status codes and epoch milliseconds that the
        scripts compute with.  Sums and products are rounded as IEEE
        binary64 rounds them ([round_to_double]); NaN and the infinities
        live in [num].
      - Converting a value to a string or to a number raises a TypeError
        for an object that has an own property [toString] (parsed from
        JSON, it is not a function), and for an array that holds such an
        object: [has_text], [template], [to_number].
      - The Apps Script services are the environment [Env]: the script
        properties, the answers of [UrlFetchApp.fetch], the successive
        readings of [Date.now()], and the built-ins [JSON.parse],
        [JSON.stringify] and string-to-number conversion.
      - [Logger.log] has no effect of its own that the functions can
        observe and is left out, except for the template literals in its
        argument that convert a value received from outside (a parsed
        body, a stored configuration): those are kept as [template],
        since they can raise.  Every other statement is kept, in source
        order.
      - An object lists each of its own properties once; of the property
        names the scripts read, only [length] is one that arrays and
        strings have. *)

From stdpp Require Import gmap strings list.

Local Open Scope Z_scope.
Set Warnings "-register-all".

(** ** JavaScript values *)

Inductive value : Type :=
| VUndef
| VNull
| VBool (b : bool)
| VNum (n : Z)
| VStr (s : string)
| VArr (items : list value)
| VObj (fields : list (string * value)).

(** A JavaScript number: an integer-valued double, NaN (the result of
    arithmetic on something that is not a number), or an infinity (the
    result of an overflow). *)
Inductive num : Type :=
| Fin (z : Z)
| NaN
| Inf (negative : bool).

(** [!v] is [negb (truthy v)]. Arrays and objects are always truthy. *)
Definition truthy (v : value) : bool :=
  match v with
  | VUndef | VNull => false
  | VBool b => b
  | VNum n => negb (n =? 0)
  | VStr s => negb (String.eqb s "")
  | VArr _ | VObj _ => true
  end.

(** [typeof v === 'number'] *)
Definition is_number (v : value) : bool :=
  match v with VNum _ => true | _ => false end.

(** [v === 'literal'] *)
Definition strict_eq_str (v : value) (lit : string) : bool :=
  match v with VStr s => String.eqb s lit | _ => false end.

(** [v === n] for a number literal [n] *)
Definition strict_eq_num (v : value) (n : Z) : bool :=
  match v with VNum m => m =? n | _ => false end.

(** Own property of an object literal / parsed JSON object. *)
Fixpoint own_prop (k : string) (fields : list (string * value)) : value :=
  match fields with
  | [] => VUndef
  | (k', v) :: rest => if String.eqb k k' then v else own_prop k rest
  end.

(** [v.k] for the property names the scripts read. Reading a property of
    [undefined] or [null] raises a TypeError ([None]). Of the names used,
    only [length] exists on arrays and strings. *)
Definition member (v : value) (k : string) : option value :=
  match v with
  | VUndef | VNull => None
  | VObj fields => Some (own_prop k fields)
  | VArr items =>
      Some (if String.eqb k "length" then VNum (Z.of_nat (length items)) else VUndef)
  | VStr s =>
      Some (if String.eqb k "length" then VNum (Z.of_nat (String.length s)) else VUndef)
  | VBool _ | VNum _ => Some VUndef
  end.

(** Own property names: [Object.prototype.hasOwnProperty.call(obj, k)]. *)
Definition has_own (k : string) (fields : list (string * value)) : bool :=
  existsb (λ kv, String.eqb k kv.1) fields.

(** Whether a value has a string form. ToString and ToNumber of an object
    go through its [toString] and [valueOf]: inherited, they give
    "[object Object]"; an own [toString], which in a parsed value is not a
    function, leaves no way to a primitive and the conversion raises a
    TypeError. An array is joined, each element other than [null] and
    [undefined] being converted in turn. *)
Fixpoint has_text (v : value) : bool :=
  match v with
  | VArr items => forallb has_text items
  | VObj fields => negb (has_own "toString" fields)
  | _ => true
  end.

(** The largest magnitude up to which every integer is a double. *)
Definition max_safe : Z := 9007199254740992.

(** The double nearest to an integer, ties to even: exact up to 2^53, a
    multiple of 2^(e-52) for a magnitude in [2^e, 2^(e+1)), an infinity
    from 2^1024 on. *)
Definition round_to_double (z : Z) : num :=
  let a := Z.abs z in
  if a <=? max_safe then Fin z
  else
    let e := Z.log2 a - 52 in
    let q := a / 2 ^ e in
    let r := a mod 2 ^ e in
    let half := 2 ^ (e - 1) in
    let q' := if r <? half then q
              else if half <? r then q + 1
              else if Z.even q then q else q + 1 in
    let m := q' * 2 ^ e in
    if 2 ^ 1024 <=? m then Inf (z <? 0) else Fin (Z.sgn z * m).

(** [a * b] *)
Definition num_mul (a b : num) : num :=
  match a, b with
  | Fin x, Fin y => round_to_double (x * y)
  | Fin x, Inf s | Inf s, Fin x => if x =? 0 then NaN else Inf (xorb s (x <? 0))
  | Inf s, Inf t => Inf (xorb s t)
  | _, _ => NaN
  end.

(** [a + b] *)
Definition num_add (a b : num) : num :=
  match a, b with
  | Fin x, Fin y => round_to_double (x + y)
  | Fin _, Inf s | Inf s, Fin _ => Inf s
  | Inf s, Inf t => if Bool.eqb s t then Inf s else NaN
  | _, _ => NaN
  end.

(** [a > b]; every comparison with NaN is false. *)
Definition num_gtb (a b : num) : bool :=
  match a, b with
  | Fin x, Fin y => y <? x
  | Inf false, Fin _ | Fin _, Inf true | Inf false, Inf true => true
  | _, _ => false
  end.

(** ** The environment: Apps Script services and built-ins *)

Inductive Request : Type :=
| TokenRequest (payload : value)
  (** POST RR_TOKEN_ENDPOINT, body [JSON.stringify(payload)] *)
| OrdersPage (queryParams : string) (limit offset : Z) (bearer : value)
  (** GET apiUrlBase?queryParams&limit=..&offset=.. *)
| TwoStageSearch (subdomain : value) (containerId : string) (bearer : value).
  (** GET https://subdomain.roserocket.com/api/v1/orders/two_stage?search_term=.. *)

Inductive Event : Type :=
| EvFetch (req : Request)
| EvSleep (base_ms : Z).
  (** [Utilities.sleep(base_ms + Math.random() * 1000)] *)

Record Response : Type := {
  getResponseCode : Z;
  getContentText : string;
}.

(** What [UrlFetchApp.fetch] does with [muteHttpExceptions: true]: an HTTP
    answer of any status is returned; a failure to reach the server is an
    exception. *)
Inductive FetchResult : Type :=
| Answer (r : Response)
| Unreachable.

Record Env : Type := {
  JSON_parse : value → option value;
    (** [JSON.parse(x)]; [None] when it throws a SyntaxError *)
  JSON_stringify : value → string;
  StringToNumber : string → num;
  script_properties : gmap string string;
    (** [PropertiesService.getScriptProperties().getProperties()] *)
  INSTANCES : value;
    (** the global table [INSTANCES] that orders_search.js reads; its
        declaration is not part of the published scripts ([VUndef] when
        nothing declares it) *)
  net : list Event → Request → FetchResult;
    (** the answer to a request, given everything the script did before *)
  clock : nat → Z;
    (** the n-th reading of [Date.now()] *)
}.

(** What ToNumber gives for a value that has a string form. *)
Fixpoint number_of (E : Env) (v : value) : num :=
  match v with
  | VUndef => NaN
  | VNull => Fin 0
  | VBool b => Fin (if b then 1 else 0)
  | VNum n => Fin n
  | VStr s => StringToNumber E s
  | VArr [] => Fin 0
  | VArr [x] =>
      match x with
      | VUndef | VNull => Fin 0
      | VBool _ | VObj _ => NaN
      | _ => number_of E x
      end
  | VArr _ => NaN
  | VObj _ => NaN
  end.

(** ** The world the scripts mutate *)

Record CachedToken : Type := {
  token : value;
  expires_at : num;
}.

Record World : Type := {
  ACCESS_TOKEN : gmap string CachedToken;
    (** [let ACCESS_TOKEN = {}], keyed by instance name *)
  ticks : nat;
    (** how many times [Date.now()] has been read *)
  trace : list Event;
    (** fetches and sleeps so far, oldest first *)
}.

Definition initial_world : World :=
  {| ACCESS_TOKEN := ∅; ticks := 0; trace := [] |}.

(** ** State-and-exception passing *)

Inductive exn : Type :=
| TypeError
| SyntaxError
| FetchError.

Inductive outcome (A : Type) : Type :=
| Ret (a : A)
| Throw (e : exn)
| Timeout.
Arguments Ret {A} a.
Arguments Throw {A} e.
Arguments Timeout {A}.

Definition M (A : Type) : Type := World → outcome A * World.

Definition ret {A} (a : A) : M A := λ w, (Ret a, w).

Definition throw {A} (e : exn) : M A := λ w, (Throw e, w).

Definition bind {A B} (m : M A) (k : A → M B) : M B :=
  λ w, match m w with
       | (Ret a, w') => k a w'
       | (Throw e, w') => (Throw e, w')
       | (Timeout, w') => (Timeout, w')
       end.

Notation "'let*' x ':=' m 'in' k" := (bind m (λ x, k))
  (at level 10, x name, m at level 100, k at level 200).

(** [try { m } catch (error) { h }] *)
Definition try_catch {A} (m : M A) (h : exn → M A) : M A :=
  λ w, match m w with
       | (Throw e, w') => h e w'
       | r => r
       end.

(** [v.k] *)
Definition get (v : value) (k : string) : M value :=
  match member v k with
  | Some x => ret x
  | None => throw TypeError
  end.

(** The world after one more reading of the clock. *)
Definition tick (w : World) : World :=
  {| ACCESS_TOKEN := ACCESS_TOKEN w; ticks := S (ticks w); trace := trace w |}.

(** The world after one more fetch or sleep. *)
Definition after_event (w : World) (ev : Event) : World :=
  {| ACCESS_TOKEN := ACCESS_TOKEN w; ticks := ticks w; trace := trace w ++ [ev] |}.

(** [Date.now()] *)
Definition Date_now (E : Env) : M Z :=
  λ w, (Ret (clock E (ticks w)), tick w).

Definition emit (ev : Event) : M () :=
  λ w, (Ret (), after_event w ev).

(** [UrlFetchApp.fetch(url, {..., muteHttpExceptions: true})] *)
Definition UrlFetchApp_fetch (E : Env) (req : Request) : M Response :=
  λ w, match net E (trace w) req with
       | Answer r => (Ret r, after_event w (EvFetch req))
       | Unreachable => (Throw FetchError, after_event w (EvFetch req))
       end.

(** [Utilities.sleep(Math.pow(2, attempt) * 1000 + Math.random() * 1000)] *)
Definition Utilities_sleep_backoff (attempt : Z) : M () :=
  emit (EvSleep (2 ^ attempt * 1000)).

(** [JSON.parse(text)] *)
Definition parse (E : Env) (text : value) : M value :=
  match JSON_parse E text with
  | Some v => ret v
  | None => throw SyntaxError
  end.

(** [`... ${v} ...`]: a template literal converts [v] to a string. *)
Definition template (v : value) : M () :=
  if has_text v then ret () else throw TypeError.

(** ToNumber, as used by [*] and [>]. *)
Definition to_number (E : Env) (v : value) : M num :=
  if has_text v then ret (number_of E v) else throw TypeError.

(** [ACCESS_TOKEN[instanceName]] *)
Definition read_cache (instanceName : string) : M (option CachedToken) :=
  λ w, (Ret (ACCESS_TOKEN w !! instanceName), w).

(** [ACCESS_TOKEN[instanceName] = { token, expires_at }] *)
Definition write_cache (instanceName : string) (c : CachedToken) : M () :=
  λ w, (Ret (),
        {| ACCESS_TOKEN := <[instanceName := c]> (ACCESS_TOKEN w);
           ticks := ticks w; trace := trace w |}).

(** ** InstanceManager (orders_create_multi_stop.js) *)

(** [getAllConfigs()]: every script property whose text parses; a property
    that does not parse is skipped. *)
Definition getAllConfigs (E : Env) : gmap string value :=
  omap (λ text, JSON_parse E (VStr text)) (script_properties E).

(** [getConfig(instanceName)]: the stored configuration, or [null]. *)
Definition getConfig (E : Env) (instanceName : string) : value :=
  match getAllConfigs E !! instanceName with
  | Some cfg => cfg
  | None => VNull
  end.

(** ** getAccessTokenForInstance (manifest_putpayment.js) *)

Definition token_payload (USERNAME PASSWORD CLIENT_ID CLIENT_SECRET : value) : value :=
  VObj [("grant_type", VStr "password");
        ("username", USERNAME);
        ("password", PASSWORD);
        ("client_id", CLIENT_ID);
        ("client_secret", CLIENT_SECRET)]%string.

(** Lines 150-185: the [try] block that exchanges the credentials. *)
Definition exchange_credentials (E : Env) (instanceName : string) (payload : value)
  : M value :=
  try_catch
    (let* response := UrlFetchApp_fetch E (TokenRequest payload) in
     let responseCode := getResponseCode response in
     if (200 <=? responseCode) && (responseCode <? 300) then
       let* jsonResponse := parse E (VStr (getContentText response)) in
       let* data := get jsonResponse "data" in
       let* accessToken := get data "access_token" in
       let* expiresIn := get data "expires_in" in
       if negb (truthy accessToken) || negb (truthy expiresIn) then
         ret VNull
       else
         let* now := Date_now E in
         let* seconds := to_number E expiresIn in
         let expiresAt := num_add (Fin now) (num_mul seconds (Fin 1000)) in
         let* _ := write_cache instanceName {| token := accessToken; expires_at := expiresAt |} in
         ret accessToken
     else
       ret VNull)
    (λ _, ret VNull).

Definition getAccessTokenForInstance (E : Env) (instanceName : string) : M value :=
  let cfg := getConfig E instanceName in
  (* const { USERNAME, PASSWORD, CLIENT_ID, CLIENT_SECRET } = cfg *)
  let* USERNAME := get cfg "USERNAME" in
  let* PASSWORD := get cfg "PASSWORD" in
  let* CLIENT_ID := get cfg "CLIENT_ID" in
  let* CLIENT_SECRET := get cfg "CLIENT_SECRET" in
  let payload := token_payload USERNAME PASSWORD CLIENT_ID CLIENT_SECRET in
  let* cached := read_cache instanceName in
  match cached with
  | Some c =>
      if truthy (token c) then
        let* now := Date_now E in
        if num_gtb (expires_at c) (Fin now) then ret (token c)
        else exchange_credentials E instanceName payload
      else exchange_credentials E instanceName payload
  | None => exchange_credentials E instanceName payload
  end.

(** ** searchOrders (orders_search.js) *)

(** [Object.values(Instance)] *)
Definition Instance_values : list string := ["Amado"; "Sonot"]%string.

Definition limit : Z := 50.

Record LoopState : Type := {
  offset : Z;
  allOrders : list value;
  totalOrders : Z;
  totalCalls : Z;
}.

Definition loop_start : LoopState :=
  {| offset := 0; allOrders := []; totalOrders := 0; totalCalls := 0 |}.

(** How one pass through the [do { ... } while (...)] body ends. *)
Inductive Control : Type :=
| Continue (st : LoopState)   (** the [while] test holds: go round again *)
| Break (st : LoopState)      (** a [break], or the [while] test fails *)
| ReturnNull.                 (** [return null] on a status other than 200 *)

(** Lines 89-93: [totalOrders] after looking at [jsonResponse.total]. *)
Definition read_total (previous : Z) (total : value) : Z :=
  if negb (truthy total) || negb (is_number total) then previous
  else match total with VNum n => n | _ => previous end.

(** [allOrders.concat(x)]: an array is spliced in, anything else is
    appended as one element. *)
Definition js_concat (acc : list value) (x : value) : list value :=
  match x with
  | VArr items => acc ++ items
  | _ => acc ++ [x]
  end.

(** [!orders || orders.length === 0] *)
Definition no_orders (orders : value) : bool :=
  if negb (truthy orders) then true
  else match member orders "length" with
       | Some len => strict_eq_num len 0
       | None => false
       end.

(** Lines 88-119: what the loop does with the [total] and the [orders] of
    a parsed page, up to and including the [while] test. *)
Definition after_page (st : LoopState) (total orders : value) : Control :=
  let totalCalls' := totalCalls st + 1 in
  let totalOrders' := read_total (totalOrders st) total in
  if no_orders orders then
    Break {| offset := offset st; allOrders := allOrders st;
             totalOrders := totalOrders'; totalCalls := totalCalls' |}
  else
    let allOrders' := js_concat (allOrders st) orders in
    if totalOrders' <=? Z.of_nat (length allOrders') then
      Break {| offset := offset st; allOrders := allOrders';
               totalOrders := totalOrders'; totalCalls := totalCalls' |}
    else
      let offset' := offset st + limit in
      let st' := {| offset := offset'; allOrders := allOrders';
                    totalOrders := totalOrders'; totalCalls := totalCalls' |} in
      if totalOrders' <=? offset' then Break st'
      else if Z.of_nat (length allOrders') <? totalOrders' then Continue st'
      else Break st'.

(** Lines 64-119: the body of the loop and its [while] test. *)
Definition searchOrders_iteration (E : Env) (queryParams instance : string)
    (st : LoopState) : M Control :=
  let* accessToken := getAccessTokenForInstance E instance in
  (* headers: { Authorization: `Bearer ${accessToken}` } *)
  let* _ := template accessToken in
  let* response :=
    UrlFetchApp_fetch E (OrdersPage queryParams limit (offset st) accessToken) in
  if negb (getResponseCode response =? 200) then ret ReturnNull
  else
    let* jsonResponse := parse E (VStr (getContentText response)) in
    let* total := get jsonResponse "total" in
    let* orders := get jsonResponse "orders" in
    ret (after_page st total orders).

(** The [do ... while] loop. It need not stop (a server may keep raising
    the total it reports), so it runs on [fuel]; [Timeout] is the outcome
    of a run that needs more passes than that. [None] is [return null]. *)
Fixpoint searchOrders_loop (E : Env) (fuel : nat) (queryParams instance : string)
    (st : LoopState) : M (option LoopState) :=
  match fuel with
  | O => λ w, (Timeout, w)
  | S fuel' =>
      let* c := searchOrders_iteration E queryParams instance st in
      match c with
      | Continue st' => searchOrders_loop E fuel' queryParams instance st'
      | Break st' => ret (Some st')
      | ReturnNull => ret None
      end
  end.

(** Lines 121-124 after the loop, or the [return null] inside it. *)
Definition searchOrders_result (final : option LoopState) : value :=
  match final with
  | Some st => VArr (allOrders st)
  | None => VNull
  end.

Definition searchOrders (E : Env) (fuel : nat) (queryParams instance : string)
  : M value :=
  if negb (bool_decide (instance ∈ Instance_values)) then ret VNull
  else
    let* instanceConfig := get (INSTANCES E) instance in
    let* accessToken := getAccessTokenForInstance E instance in
    let* final := searchOrders_loop E fuel queryParams instance loop_start in
    ret (searchOrders_result final).

(** ** findOrdersByContainerId (manifest_equipment.gs.js) *)

(** [instanceManager2.config] *)
Definition instanceManager2_config : list (string * value) :=
  [("Amado", VObj [("subdomain", VStr "athn")]);
   ("Sonot", VObj [("subdomain", VStr "tdcs")])]%string.

(** [instanceManager2.getConfig(instanceName)] *)
Definition instanceManager2_getConfig (instanceName : string) : value :=
  own_prop instanceName instanceManager2_config.

Definition maxRetries : Z := 3.

(** How one pass through the [for] body ends. *)
Inductive Attempt : Type :=
| Returned (v : value)   (** a [return] inside the loop *)
| NextAttempt.           (** fall through to [attempt++] *)

(** Lines 62-89: the [try]/[catch] inside the retry loop. *)
Definition findOrders_attempt (E : Env) (req : Request) (attempt : Z) : M Attempt :=
  try_catch
    (let* response := UrlFetchApp_fetch E req in
     let responseCode := getResponseCode response in
     if (200 <=? responseCode) && (responseCode <? 300) then
       let* result := parse E (VStr (getContentText response)) in
       let* data := get result "data" in
       let* found :=
         if truthy data then
           let* total := get data "total" in
           let* n := to_number E total in
           ret (num_gtb n (Fin 0))
         else ret false in
       if found then
         let* orders := get data "orders" in
         ret (Returned (if truthy orders then orders else VArr []))
       else ret (Returned (VArr []))
     else if (500 <=? responseCode) && (attempt <? maxRetries) then
       let* _ := Utilities_sleep_backoff attempt in
       ret NextAttempt
     else
       ret (Returned VNull))
    (λ _,
       if attempt <? maxRetries then
         let* _ := Utilities_sleep_backoff attempt in
         ret NextAttempt
       else ret NextAttempt).

(** [for (let attempt = ...; attempt <= maxRetries; attempt++)], followed
    by the [return null] after the loop. *)
Fixpoint findOrders_retry (E : Env) (req : Request) (fuel : nat) (attempt : Z)
  : M value :=
  if attempt <=? maxRetries then
    match fuel with
    | O => λ w, (Timeout, w)
    | S fuel' =>
        let* r := findOrders_attempt E req attempt in
        match r with
        | Returned v => ret v
        | NextAttempt => findOrders_retry E req fuel' (attempt + 1)
        end
    end
  else ret VNull.

Definition findOrdersByContainerId (E : Env) (instanceName containerId : string)
  : M value :=
  let* accessToken := getAccessTokenForInstance E instanceName in
  if negb (truthy accessToken) then ret VNull
  else
    let config := instanceManager2_getConfig instanceName in
    let no_subdomain :=
      if negb (truthy config) then true
      else match member config "subdomain" with
           | Some sub => negb (truthy sub)
           | None => true
           end in
    if no_subdomain then ret VNull
    else
      let subdomain := default VUndef (member config "subdomain") in
      (* headers: { 'Authorization': `Bearer ${accessToken}`, ... } *)
      let* _ := template accessToken in
      findOrders_retry E (TwoStageSearch subdomain containerId accessToken)
        (Z.to_nat maxRetries) 1.

(** ** doPost (webhook script) *)

Inductive MimeType : Type :=
| MimeTEXT
| MimeJSON.

(** What [ContentService.createTextOutput(text).setMimeType(mime)] builds. *)
Record TextOutput : Type := {
  getContent : string;
  getMimeType : MimeType;
}.

(** [ContentService.createTextOutput(JSON.stringify(obj))
      .setMimeType(ContentService.MimeType.JSON)] *)
Definition json_output (E : Env) (obj : value) : TextOutput :=
  {| getContent := JSON_stringify E obj; getMimeType := MimeJSON |}.

Definition failure (error : string) (extra : list (string * value)) : value :=
  VObj ([("success", VBool false); ("error", VStr error)]%string ++ extra).

Definition success_data (currentStatus orderId : value) : value :=
  VObj [("success", VBool true);
        ("data", VObj [("current_status", currentStatus);
                       ("order_id", orderId)])]%string.

(** [!e || !e.postData || !e.postData.contents] *)
Definition missing_body (e : value) : M bool :=
  if negb (truthy e) then ret true
  else
    let* postData := get e "postData" in
    if negb (truthy postData) then ret true
    else
      let* contents := get postData "contents" in
      ret (negb (truthy contents)).

(** [!payload.event || !payload.current_status || !payload.order_id] *)
Definition missing_fields (payload : value) : M bool :=
  let* event := get payload "event" in
  if negb (truthy event) then ret true
  else
    let* current_status := get payload "current_status" in
    if negb (truthy current_status) then ret true
    else
      let* order_id := get payload "order_id" in
      ret (negb (truthy order_id)).

Definition doPost (E : Env) (e : value) : M TextOutput :=
  try_catch
    (let* missing := missing_body e in
     if missing then ret (json_output E (failure "Missing postData" []))
     else
       let* postData := get e "postData" in
       let* contents := get postData "contents" in
       let* parsed :=
         try_catch
           (* JSON.parse converts its argument to a string first *)
           (let* _ := template contents in
            let* payload := parse E contents in ret (Some payload))
           (* the catch logs `Raw payload: ${e.postData.contents}` *)
           (λ _, let* _ := template contents in ret None) in
       match parsed with
       | None => ret (json_output E (failure "Invalid JSON payload" []))
       | Some payload =>
           let* incomplete := missing_fields payload in
           if incomplete then
             ret (json_output E (failure "Missing required fields" []))
           else
             let* event := get payload "event" in
             if negb (strict_eq_str event "order.status_updated") then
               (* logs `... Event: ${payload.event}` *)
               let* _ := template event in
               ret (json_output E (failure "Incorrect event type" [("event", event)]))
             else
               let* current_status := get payload "current_status" in
               if negb (strict_eq_str current_status "in-transit") then
                 (* logs `... Current status: ${payload.current_status}` *)
                 let* _ := template current_status in
                 ret (json_output E
                        (failure "Incorrect status" [("status", current_status)]))
               else
                 let currentStatus := current_status in
                 let* orderId := get payload "order_id" in
                 ret (json_output E (success_data currentStatus orderId))
       end)
    (λ _, ret (json_output E (failure "Internal server error" []))).

(** ** Notions used in the statements *)

(** The request carries a body that parses to a payload announcing that an
    order went in transit: what [doPost] checks before it answers with
    [success: true]. *)
Definition accepted (E : Env) (e payload : value) : Prop :=
  ∃ postData contents order_id,
    truthy e = true ∧
    member e "postData" = Some postData ∧ truthy postData = true ∧
    member postData "contents" = Some contents ∧ truthy contents = true ∧
    has_text contents = true ∧
    JSON_parse E contents = Some payload ∧
    member payload "event" = Some (VStr "order.status_updated") ∧
    member payload "current_status" = Some (VStr "in-transit") ∧
    member payload "order_id" = Some order_id ∧ truthy order_id = true.

(** The requests that went out, in order. *)
Definition network_calls (t : list Event) : list Request :=
  omap (λ ev, match ev with EvFetch req => Some req | EvSleep _ => None end) t.

(** The configuration of [k] can be destructured: [getConfig] found it and
    it is not [null]. *)
Definition resolves (E : Env) (k : string) : Prop :=
  getConfig E k ≠ VNull ∧ getConfig E k ≠ VUndef.

(** The cache holds for [k] a token that expires after the next reading of
    the clock. *)
Definition live (E : Env) (k : string) (w : World) : Prop :=
  ∃ c, ACCESS_TOKEN w !! k = Some c ∧
       num_gtb (expires_at c) (Fin (clock E (ticks w))) = true.

(** [m] keeps [P]: however it ends, a world that satisfies [P] is left
    satisfying it. *)
Definition preserves {A} (P : World → Prop) (m : M A) : Prop :=
  ∀ w o w', m w = (o, w') → P w → P w'.

(** Every cached token is truthy and belongs to an instance whose
    configuration resolves: the cache is only ever written at line 169. *)
Definition cache_sound (E : Env) (w : World) : Prop :=
  ∀ k c, ACCESS_TOKEN w !! k = Some c → truthy (token c) = true ∧ resolves E k.

(** Every token that the cache holds has a string form. *)
Definition text_cache (w : World) : Prop :=
  ∀ k c, ACCESS_TOKEN w !! k = Some c → has_text (token c) = true.

(** The identity endpoint grants only tokens that have a string form: the
    [data.access_token] of every answer that parses. *)
Definition text_tokens (E : Env) : Prop :=
  ∀ h payload code body json data tok,
    net E h (TokenRequest payload)
    = Answer {| getResponseCode := code; getContentText := body |} →
    JSON_parse E (VStr body) = Some json →
    member json "data" = Some data →
    member data "access_token" = Some tok →
    has_text tok = true.

(** The worlds a script run can be in: those that the entry points build
    from the fresh globals of an execution. *)
Inductive reachable (E : Env) : World → Prop :=
| reach_initial : reachable E initial_world
| reach_token k w o w' :
    reachable E w → getAccessTokenForInstance E k w = (o, w') → reachable E w'
| reach_search fuel qp k w o w' :
    reachable E w → searchOrders E fuel qp k w = (o, w') → reachable E w'
| reach_find k cid w o w' :
    reachable E w → findOrdersByContainerId E k cid w = (o, w') → reachable E w'
| reach_post e w o w' :
    reachable E w → doPost E e w = (o, w') → reachable E w'.

(** The page requests that went out, in order: limit and offset. *)
Definition page_requests (t : list Event) : list (Z * Z) :=
  omap (λ ev, match ev with
              | EvFetch (OrdersPage _ l o _) => Some (l, o)
              | _ => None
              end) t.

(** Whatever happened before and whatever the bearer, the server answers
    the page request at offset [o] with status 200 and a body that parses
    to an object whose [orders] and [total] are the given values. *)
Definition serves (E : Env) (qp : string) (o : Z) (orders total : value) : Prop :=
  ∀ h tok, ∃ body json,
    net E h (OrdersPage qp limit o tok)
    = Answer {| getResponseCode := 200; getContentText := body |} ∧
    JSON_parse E (VStr body) = Some json ∧
    member json "orders" = Some orders ∧
    member json "total" = Some total.

(** The records that a page adds to [allOrders]: none when the loop
    breaks on it, otherwise what [concat] appends. *)
Definition page_records (orders : value) : list value :=
  if no_orders orders then [] else js_concat [] orders.

(** A response's [total] that line 89 does not take over. *)
Definition total_ignored (total : value) : Prop :=
  truthy total = false ∨ is_number total = false.

(** A server that reports one total [T] on every page and never sends
    more records than remain past the requested offset, nor more than
    [limit]. *)
Definition consistent (E : Env) (qp : string) (T : Z) : Prop :=
  0 ≤ T ∧
  ∀ h tok o body json,
    net E h (OrdersPage qp limit o tok)
    = Answer {| getResponseCode := 200; getContentText := body |} →
    JSON_parse E (VStr body) = Some json →
    (∀ total, member json "total" = Some total → total = VNum T) ∧
    (∀ orders, member json "orders" = Some orders →
       Z.of_nat (length (page_records orders)) ≤ Z.min limit (Z.max 0 (T - o))).

(** [loop_run st w st' w']: started in state [st] and world [w], the loop
    comes round to its top in state [st'] and world [w']. *)
Inductive loop_run (E : Env) (qp k : string)
  : LoopState → World → LoopState → World → Prop :=
| run_here st w : loop_run E qp k st w st w
| run_on st w st1 w1 st2 w2 :
    searchOrders_iteration E qp k st w = (Ret (Continue st1), w1) →
    loop_run E qp k st1 w1 st2 w2 →
    loop_run E qp k st w st2 w2.

(** The bound: no more records than the total the loop holds, which is
    the server's [T] or still the initial 0. *)
Definition bounded (T : Z) (st : LoopState) : Prop :=
  Z.of_nat (length (allOrders st)) ≤ totalOrders st ∧
  (totalOrders st = T ∨ totalOrders st = 0).

(** What the proof of the bound carries round the loop: the records
    gathered also never outnumber the offset reached. *)
Definition within_total (T : Z) (st : LoopState) : Prop :=
  Z.of_nat (length (allOrders st)) ≤ offset st ∧ bounded T st.

(** ** A scripted environment, for running the functions on examples *)

(** A [JSON.parse] that knows the texts of a table and rejects the rest. *)
Definition table_parse (texts : list (string * value)) (x : value) : option value :=
  match x with
  | VStr s => (list_to_map texts : gmap string value) !! s
  | _ => None
  end.

(** The texts of the token scenario: the stored configuration of the
    instance and two answers of the identity endpoint. *)
Definition demo_texts : list (string * value) :=
  [("amado.cfg", VObj [("USERNAME", VStr "user"); ("PASSWORD", VStr "pass");
                       ("CLIENT_ID", VStr "cid"); ("CLIENT_SECRET", VStr "secret")]);
   ("token.json", VObj [("data", VObj [("access_token", VStr "tok1");
                                       ("expires_in", VNum 10)])]);
   ("late-token.json", VObj [("data", VObj [("access_token", VStr "tok1");
                                            ("expires_in", VNum (-5))])])]%string.

(** One configured instance, a clock that advances a second per reading,
    and a server given by [answers]. *)
Definition scripted_env (texts : list (string * value))
    (answers : list Event → Request → FetchResult) : Env :=
  {| JSON_parse := table_parse texts;
     JSON_stringify := λ _, ""%string;
     StringToNumber := λ _, NaN;
     script_properties := {[ "Amado"%string := "amado.cfg"%string ]};
     INSTANCES := VObj [];
     net := answers;
     clock := λ n, 1000 * Z.of_nat n |}.

Definition ok (body : string) : FetchResult :=
  Answer {| getResponseCode := 200; getContentText := body |}.

Definition status (code : Z) : FetchResult :=
  Answer {| getResponseCode := code; getContentText := "" |}.

(** The identity endpoint of the specification's scenario: it grants
    [tok1] for ten seconds. *)
Definition token_server : list Event → Request → FetchResult :=
  λ _ req, match req with
           | TokenRequest _ => ok "token.json"
           | _ => status 404
           end.

Definition demo_env : Env := scripted_env demo_texts token_server.

(** An identity endpoint that answers with a negative [expires_in]. *)
Definition late_token_server : list Event → Request → FetchResult :=
  λ _ req, match req with
           | TokenRequest _ => ok "late-token.json"
           | _ => status 404
           end.

Definition late_env : Env := scripted_env demo_texts late_token_server.

(** *** Scripted order servers *)

Definition order (n : nat) : value := VObj [("id", VNum (Z.of_nat n))]%string.

(** The 120 orders of the paginated example. *)
Definition records120 : list value := order <$> seq 0 120.

Definition page_of (records : list value) (total : Z) (o : nat) : value :=
  VObj [("orders", VArr (take 50 (drop o records))); ("total", VNum total)]%string.

Definition order_texts : list (string * value) :=
  demo_texts ++
  [("page0.json", page_of records120 120 0);
   ("page50.json", page_of records120 120 50);
   ("page100.json", page_of records120 120 100);
   ("overfull.json", VObj [("orders", VArr [order 1; order 2]); ("total", VNum 1)]);
   ("untotalled-a.json", VObj [("orders", VArr [order 1])]);
   ("untotalled-b.json", VObj [("orders", VArr [order 2])]);
   ("short.json", VObj [("orders", VArr [order 1; order 2]); ("total", VNum 120)]);
   ("no-orders.json", VObj [("total", VNum 120)]);
   ("found.json", VObj [("data", VObj [("total", VNum 1);
                                       ("orders", VArr [order 7])])])]%string.

(** A server that answers the page requests at offsets 0, 50 and 100 with
    the three given bodies, and the search request with [search]. *)
Definition order_server (b0 b50 b100 : string) (search : FetchResult)
  : list Event → Request → FetchResult :=
  λ _ req,
    match req with
    | TokenRequest _ => ok "token.json"
    | OrdersPage _ _ o _ =>
        if o =? 0 then ok b0
        else if o =? 50 then ok b50
        else if o =? 100 then ok b100
        else status 404
    | TwoStageSearch _ _ _ => search
    end.

(** Three pages of 50, 50 and 20 orders, each reporting 120. *)
Definition paged_env : Env :=
  scripted_env order_texts
    (order_server "page0.json" "page50.json" "page100.json" (ok "found.json")).

(** A first page that reports a total of 1 and carries two orders. *)
Definition greedy_env : Env :=
  scripted_env order_texts
    (order_server "overfull.json" "no-orders.json" "no-orders.json" (status 404)).

(** Pages that report no total: one order, another order, then nothing. *)
Definition silent_env : Env :=
  scripted_env order_texts
    (order_server "untotalled-a.json" "untotalled-b.json" "no-orders.json" (status 404)).

(** A total of 120 announced, two orders delivered, then a page without
    [orders]. *)
Definition stale_env : Env :=
  scripted_env order_texts
    (order_server "short.json" "no-orders.json" "no-orders.json" (status 404)).

(** A search endpoint that is down, and one that rejects the request. *)
Definition busy_env : Env :=
  scripted_env order_texts
    (order_server "page0.json" "page50.json" "page100.json" (status 503)).

Definition strict_env : Env :=
  scripted_env order_texts
    (order_server "page0.json" "page50.json" "page100.json" (status 400)).

(** ** The other endpoints of the library

    The functions below call endpoints other than the three of [Request].
    Their requests are recorded beside the world of the token cache, and
    answered by a server that sees both records. [String.prototype.trim]
    and [encodeURIComponent] are built-ins of the runtime. *)

Inductive Method : Type :=
| GET
| POST
| PUT.

(** [UrlFetchApp.fetch(url, { method, headers: { Authorization:
    `Bearer ${bearer}` }, payload: JSON.stringify(payload) })] *)
Record ApiCall : Type := {
  url : string;
  method : Method;
  bearer : value;
  payload : option value;
}.

Record ApiEnv : Type := {
  base : Env;
  String_trim : string → string;
  encodeURIComponent : string → string;
  api : list Event → list ApiCall → ApiCall → FetchResult;
    (** the answer to a call, given everything the script did before *)
}.

Record ApiWorld : Type := {
  core : World;
  api_calls : list ApiCall;
    (** the calls to the other endpoints so far, oldest first *)
}.

Definition initial_api_world : ApiWorld :=
  {| core := initial_world; api_calls := [] |}.

Definition A (T : Type) : Type := ApiWorld → outcome T * ApiWorld.

Definition abind {T U} (m : A T) (k : T → A U) : A U :=
  λ aw, match m aw with
        | (Ret a, aw') => k a aw'
        | (Throw e, aw') => (Throw e, aw')
        | (Timeout, aw') => (Timeout, aw')
        end.

Definition aret {T} (a : T) : A T := λ aw, (Ret a, aw).

Notation "'let+' x ':=' m 'in' k" := (abind m (λ x, k))
  (at level 10, x name, m at level 100, k at level 200).

(** [try { m } catch (error) { h }] *)
Definition atry {T} (m : A T) (h : exn → A T) : A T :=
  λ aw, match m aw with
        | (Throw e, aw') => h e aw'
        | r => r
        end.

(** A computation on the world of the token cache, run inside the larger
    world. *)
Definition lift {T} (m : M T) : A T :=
  λ aw, match m (core aw) with
        | (o, w') => (o, {| core := w'; api_calls := api_calls aw |})
        end.

Definition after_call (aw : ApiWorld) (c : ApiCall) : ApiWorld :=
  {| core := core aw; api_calls := api_calls aw ++ [c] |}.

(** [UrlFetchApp.fetch] for the other endpoints, with
    [muteHttpExceptions: true]. *)
Definition api_fetch (AE : ApiEnv) (c : ApiCall) : A Response :=
  λ aw, match api AE (trace (core aw)) (api_calls aw) c with
        | Answer r => (Ret r, after_call aw c)
        | Unreachable => (Throw FetchError, after_call aw c)
        end.

(** [Array.isArray(v)] *)
Definition is_array (v : value) : bool :=
  match v with VArr _ => true | _ => false end.

(** [typeof v === 'object'] *)
Definition typeof_object (v : value) : bool :=
  match v with VNull | VArr _ | VObj _ => true | _ => false end.

(** [v !== null] *)
Definition not_null (v : value) : bool :=
  match v with VNull => false | _ => true end.

(** *** InstanceManager, continued (orders_create_multi_stop.js) *)

Definition platform_url : string := "https://platform.roserocket.com".

(** [v.hasOwnProperty(k)], for the names the scripts ask about. The method
    is the one of [Object.prototype], unless the object has an own
    property of that name: parsed from JSON, that is not a function, and
    calling it raises a TypeError. *)
Definition hasOwnProperty (v : value) (k : string) : M bool :=
  match v with
  | VUndef | VNull => throw TypeError
  | VObj fields =>
      if has_own "hasOwnProperty" fields then throw TypeError
      else ret (has_own k fields)
  | VArr _ | VStr _ => ret (String.eqb k "length")
  | VBool _ | VNum _ => ret false
  end.

(** [config.SUBDOMAIN && typeof config.SUBDOMAIN === 'string'
     && config.SUBDOMAIN.trim().length > 0]: the trimmed subdomain when
    the test holds. *)
Definition usable_subdomain (AE : ApiEnv) (SUBDOMAIN : value) : option string :=
  match SUBDOMAIN with
  | VStr sub =>
      if truthy SUBDOMAIN && negb (String.eqb (String_trim AE sub) "")
      then Some (String_trim AE sub) else None
  | _ => None
  end.

(** [getInstanceBaseURL(instanceName)]: [None] is [null]. *)
Definition getInstanceBaseURL (AE : ApiEnv) (instanceName : string)
  : M (option string) :=
  let config := getConfig (base AE) instanceName in
  if negb (truthy config) then ret None
  else
    let* SUBDOMAIN := get config "SUBDOMAIN" in
    match usable_subdomain AE SUBDOMAIN with
    | Some subdomain =>
        ret (Some ("https://" ++ subdomain ++ ".roserocket.com")%string)
    | None =>
        let* own := hasOwnProperty config "SUBDOMAIN" in
        if negb own then ret (Some platform_url)
        else
          (* logs `... is empty or invalid ('${config.SUBDOMAIN}') ...` *)
          let* _ := template SUBDOMAIN in
          ret (Some platform_url)
    end.

(** [!baseUrl] *)
Definition no_base_url (baseUrl : option string) : bool :=
  match baseUrl with
  | None => true
  | Some u => String.eqb u ""
  end.

(** Lines 21-35 of [putPaymentForManifest], and the same lines of
    [getPaymentForManifest]: the base URL, or [None] where the function
    returns [null] (no URL, or an exception of [getInstanceBaseURL], which
    the [catch] turns into [null]). *)
Definition base_url_step (AE : ApiEnv) (instanceName : string) : A (option string) :=
  atry (let+ baseUrl := lift (getInstanceBaseURL AE instanceName) in
        if no_base_url baseUrl then aret None else aret baseUrl)
       (λ _, aret None).

(** [isValidInstance(instanceName)] for a string argument. *)
Definition isValidInstance (AE : ApiEnv) (instanceName : string) : bool :=
  negb (String.eqb instanceName "")
  && bool_decide (is_Some (getAllConfigs (base AE) !! instanceName)).

(** *** putPaymentForManifest (manifest_putpayment.js) *)

Definition putPaymentForManifest (AE : ApiEnv) (instanceName manifestId : string)
    (paymentData : value) : A value :=
  let+ accessToken := lift (getAccessTokenForInstance (base AE) instanceName) in
  if negb (truthy accessToken) then aret VNull
  else
    let+ found := base_url_step AE instanceName in
    match found with
    | None => aret VNull
    | Some baseUrl =>
        let paymentUrl :=
          ("https://platform.roserocket.com/api/v1/manifests/" ++ manifestId
           ++ "/payment/items/upsert")%string in
        (* headers: { 'Authorization': `Bearer ${accessToken}`, ... } *)
        let+ _ := lift (template accessToken) in
        atry
          (let+ response :=
             api_fetch AE {| url := paymentUrl; method := PUT;
                             bearer := accessToken; payload := Some paymentData |} in
           let responseCode := getResponseCode response in
           let responseBody := getContentText response in
           if (200 <=? responseCode) && (responseCode <? 300) then
             atry (lift (parse (base AE) (VStr responseBody)))
                  (λ _, aret (VStr responseBody))
           else aret VNull)
          (λ _, aret VNull)
    end.

(** *** getPaymentForManifest (webhook script file) *)

(** Lines 278-293: what is returned for a parsed answer. *)
Definition payment_of (responseData : value) : A value :=
  let+ enveloped :=
    if truthy responseData then
      let+ data := lift (get responseData "data") in
      if typeof_object data && not_null data then
        let+ payment := lift (get data "payment") in
        aret (truthy payment)
      else aret false
    else aret false in
  if enveloped then
    let+ data := lift (get responseData "data") in
    lift (get data "payment")
  else if truthy responseData && typeof_object responseData && not_null responseData then
    aret responseData
  else aret VNull.

Definition getPaymentForManifest (AE : ApiEnv) (instanceName manifestId : string)
  : A value :=
  let+ accessToken := lift (getAccessTokenForInstance (base AE) instanceName) in
  if negb (truthy accessToken) then aret VNull
  else
    let+ found := base_url_step AE instanceName in
    match found with
    | None => aret VNull
    | Some baseUrl =>
        let paymentUrl :=
          (baseUrl ++ "/api/v1/master_trips/" ++ manifestId ++ "/payment")%string in
        (* headers: { 'Authorization': `Bearer ${accessToken}`, ... } *)
        let+ _ := lift (template accessToken) in
        atry
          (let+ response :=
             api_fetch AE {| url := paymentUrl; method := GET;
                             bearer := accessToken; payload := None |} in
           let responseCode := getResponseCode response in
           let responseBody := getContentText response in
           if (200 <=? responseCode) && (responseCode <? 300) then
             atry (let+ responseData := lift (parse (base AE) (VStr responseBody)) in
                   payment_of responseData)
                  (λ _, aret VNull)
           else if responseCode =? 404 then aret VNull
           else aret VNull)
          (λ _, aret VNull)
    end.

(** *** postRoserocketInternalNote (webhook script file) *)

Definition postRoserocketInternalNote (AE : ApiEnv) (instanceName orderId : string)
    (message : value) : A value :=
  if negb (bool_decide (instanceName ∈ Instance_values)) then aret (VBool false)
  else
    let instanceConfig := getConfig (base AE) instanceName in
    let API_ENDPOINT :=
      ("https://athn.roserocket.com/api/v1/orders/" ++ orderId ++ "/internal_events")%string in
    let+ accessToken := lift (getAccessTokenForInstance (base AE) instanceName) in
    if negb (truthy accessToken) then aret (VBool false)
    else
      let+ author := lift (get instanceConfig "USERNAME") in
      let body := VObj [("author", author); ("type", VStr "order-note");
                        ("text", message)]%string in
      (* headers: { ..., authorization: `Bearer ${accessToken}`, ... } *)
      let+ _ := lift (template accessToken) in
      atry
        (let+ response :=
           api_fetch AE {| url := API_ENDPOINT; method := POST;
                           bearer := accessToken; payload := Some body |} in
         let responseCode := getResponseCode response in
         if (200 <=? responseCode) && (responseCode <? 300) then aret (VBool true)
         else aret (VBool false))
        (λ _, aret (VBool false)).

(** *** getManifestIdForInTransitOrder (manifest_putpayment.js) *)

(** [for (const x of v)]: the elements iterated, or a TypeError for a
    value that is not iterable. A string is iterated character by
    character. *)
Definition elements_of (v : value) : M (list value) :=
  match v with
  | VArr items => ret items
  | VStr s => ret ((λ a, VStr (String a EmptyString)) <$> String.list_ascii_of_string s)
  | _ => throw TypeError
  end.

(** Lines 204-212: the first loop over the legs, [Some id] when it
    returns [leg.manifest_id]. *)
Fixpoint first_in_transit (legs : list value) : M (option value) :=
  match legs with
  | [] => ret None
  | leg :: rest =>
      let* status := get leg "status" in
      if strict_eq_str status "loaded" then
        let* id := get leg "manifest_id" in ret (Some id)
      else
        let* line_haul_dispatched :=
          if strict_eq_str status "dispatched" then
            let* type := get leg "type" in ret (strict_eq_str type "line_haul")
          else ret false in
        if line_haul_dispatched then
          let* id := get leg "manifest_id" in ret (Some id)
        else first_in_transit rest
  end.

(** Lines 214-219: the second loop, [true] when it finds an available
    line haul. *)
Fixpoint line_haul_available (legs : list value) : M bool :=
  match legs with
  | [] => ret false
  | leg :: rest =>
      let* type := get leg "type" in
      let* waiting :=
        if strict_eq_str type "line_haul" then
          let* status := get leg "status" in ret (strict_eq_str status "available")
        else ret false in
      if waiting then ret true else line_haul_available rest
  end.

(** [getLegsForOrder], which the function calls, is declared in none of
    the scripts; it is a parameter here. *)
Definition getManifestIdForInTransitOrder
    (getLegsForOrder : string → string → A value)
    (instanceName orderId : string) : A value :=
  let+ legs := getLegsForOrder instanceName orderId in
  if negb (truthy legs) then aret VNull
  else
    let+ items := lift (elements_of legs) in
    let+ found := lift (first_in_transit items) in
    match found with
    | Some id => aret id
    | None =>
        let+ waiting := lift (line_haul_available items) in
        if waiting then aret VNull else aret VNull
    end.

(** *** Equipment of a manifest (manifest_getequipment.js) *)

Definition getEquipmentForManifest (AE : ApiEnv) (instanceName manifestId : string)
  : A value :=
  let+ accessToken := lift (getAccessTokenForInstance (base AE) instanceName) in
  if negb (truthy accessToken) then aret VNull
  else
    let config := getConfig (base AE) instanceName in
    if negb (truthy config) then aret VNull
    else
      let equipmentUrl :=
        ("https://platform.roserocket.com/api/v1/manifests/" ++ manifestId
         ++ "/equipment")%string in
      (* headers: { 'Authorization': `Bearer ${accessToken}`, ... } *)
      let+ _ := lift (template accessToken) in
      atry
        (let+ response :=
           api_fetch AE {| url := equipmentUrl; method := GET;
                           bearer := accessToken; payload := None |} in
         let responseCode := getResponseCode response in
         if (200 <=? responseCode) && (responseCode <? 300) then
           let+ equipmentData := lift (parse (base AE) (VStr (getContentText response))) in
           if is_array equipmentData then aret equipmentData else aret VNull
         else aret VNull)
        (λ _, aret VNull).

(** Lines 91-100 of [getTruckNumberForManifest]. *)
Fixpoint truck_scan (equipment : list value) : M (option value) :=
  match equipment with
  | [] => ret None
  | equipmentEntry :: rest =>
      let* typed :=
        if truthy equipmentEntry then
          let* equipment_type := get equipmentEntry "equipment_type" in
          ret (truthy equipment_type)
        else ret false in
      if typed then
        let* equipment_type := get equipmentEntry "equipment_type" in
        let* type_name := get equipment_type "name" in
        if strict_eq_str type_name "Vehicle" then
          let* eq := get equipmentEntry "equipment" in
          let* name := get eq "name" in
          if truthy name then ret (Some name) else truck_scan rest
        else truck_scan rest
      else truck_scan rest
  end.

(** Lines 118-128 of [getTrailerNumberForManifest]; the loop starts by
    logging [equipmentEntry.equipment_type.name]. *)
Fixpoint trailer_scan (equipment : list value) : M (option value) :=
  match equipment with
  | [] => ret None
  | equipmentEntry :: rest =>
      let* logged_type := get equipmentEntry "equipment_type" in
      let* logged := get logged_type "name" in
      let* typed :=
        if truthy equipmentEntry then
          let* equipment_type := get equipmentEntry "equipment_type" in
          ret (truthy equipment_type)
        else ret false in
      if typed then
        let* equipment_type := get equipmentEntry "equipment_type" in
        let* type_name := get equipment_type "name" in
        if strict_eq_str type_name "Trailer" then
          let* eq := get equipmentEntry "equipment" in
          let* name := get eq "name" in
          if truthy name then ret (Some name) else trailer_scan rest
        else trailer_scan rest
      else trailer_scan rest
  end.

Definition getTruckNumberForManifest (AE : ApiEnv) (instanceName manifestId : string)
  : A value :=
  let+ equipment := getEquipmentForManifest AE instanceName manifestId in
  if negb (truthy equipment) then aret VNull
  else
    let+ items := lift (elements_of equipment) in
    let+ found := lift (truck_scan items) in
    match found with
    | Some name => aret name
    | None => aret VNull
    end.

Definition getTrailerNumberForManifest (AE : ApiEnv) (instanceName manifestId : string)
  : A value :=
  let+ equipment := getEquipmentForManifest AE instanceName manifestId in
  if negb (truthy equipment) then aret VNull
  else
    let+ items := lift (elements_of equipment) in
    let+ found := lift (trailer_scan items) in
    match found with
    | Some name => aret name
    | None => aret VNull
    end.

(** *** getOrderLegsByOrderId (orders_getlegsbyorderby.js) *)

Definition getOrderLegsByOrderId (AE : ApiEnv) (instance orderId : string) : A value :=
  if negb (bool_decide (instance ∈ Instance_values)) then aret VNull
  else if negb (isValidInstance AE instance) then aret VNull
  else
    let+ accessToken := lift (getAccessTokenForInstance (base AE) instance) in
    if negb (truthy accessToken) then aret VNull
    else
      let apiUrl :=
        ("https://platform.roserocket.com/api/v1/orders/"
         ++ encodeURIComponent AE orderId ++ "/legs")%string in
      (* 'headers': { 'Authorization': `Bearer ${accessToken}`, ... } *)
      let+ _ := lift (template accessToken) in
      let+ fetched :=
        atry (let+ response :=
                api_fetch AE {| url := apiUrl; method := GET;
                                bearer := accessToken; payload := None |} in
              aret (Some response))
             (λ _, aret None) in
      match fetched with
      | None => aret VNull
      | Some response =>
          let responseCode := getResponseCode response in
          let responseBody := getContentText response in
          if responseCode =? 200 then
            atry (let+ parsedResponse := lift (parse (base AE) (VStr responseBody)) in
                  let+ has_legs :=
                    if truthy parsedResponse then
                      let+ legs := lift (get parsedResponse "legs") in
                      aret (is_array legs)
                    else aret false in
                  if has_legs then lift (get parsedResponse "legs")
                  else aret VNull)
                 (λ _, aret VNull)
          else if responseCode =? 400 then aret VNull
          else if responseCode =? 404 then aret VNull
          else aret VNull
      end.

(** *** createOrderMultiStopTaylor (orders_create_multi_stop.js) *)

Definition createOrderMultiStopTaylor (AE : ApiEnv) (instanceName customerId : string)
    (orderData : value) : A value :=
  if negb (bool_decide (instanceName ∈ Instance_values)) then aret VNull
  else
    let config := getConfig (base AE) instanceName in
    if negb (truthy config) then aret VNull
    else
      let+ accessToken := lift (getAccessTokenForInstance (base AE) instanceName) in
      if negb (truthy accessToken) then aret VNull
      else
        let apiUrl :=
          ("https://platform.roserocket.com/api/v1/customers/" ++ customerId
           ++ "/multistop_orders")%string in
        (* 'headers': { 'Authorization': `Bearer ${accessToken}` } *)
        let+ _ := lift (template accessToken) in
        let+ response :=
          api_fetch AE {| url := apiUrl; method := POST;
                          bearer := accessToken; payload := Some orderData |} in
        let statusCode := getResponseCode response in
        let responseText := getContentText response in
        if (200 <=? statusCode) && (statusCode <? 300) then
          atry (lift (parse (base AE) (VStr responseText))) (λ _, aret VNull)
        else aret VNull.

(** *** Address books (obtenerDatosAddressBook.js) *)

Definition obtenerDatosAddressBook (AE : ApiEnv)
    (instanceName locationId searchTerm : string) : A value :=
  if negb (bool_decide (instanceName ∈ Instance_values)) then aret VNull
  else
    let config := getConfig (base AE) instanceName in
    if negb (truthy config) then aret VNull
    else
      let+ accessToken := lift (getAccessTokenForInstance (base AE) instanceName) in
      if negb (truthy accessToken) then aret VNull
      else
        let apiUrl :=
          ("https://athn.roserocket.com/api/v1/locations/" ++ locationId
           ++ "/address_books?searchTerm=" ++ searchTerm ++ "&offset=0&limit=50")%string in
        (* 'headers': { 'Authorization': `Bearer ${accessToken}` } *)
        let+ _ := lift (template accessToken) in
        atry
          (let+ response :=
             api_fetch AE {| url := apiUrl; method := GET;
                             bearer := accessToken; payload := None |} in
           let responseCode := getResponseCode response in
           if 400 <=? responseCode then aret VNull
           else lift (parse (base AE) (VStr (getContentText response))))
          (λ _, aret VNull).




(** *** A scripted environment for the other endpoints *)

(** Texts that the scripted [JSON.parse] knows, beside [order_texts]. *)
Definition api_texts : list (string * value) :=
  order_texts ++
  [("equipment.json",
    VArr [VNull;
          VObj [("equipment_type", VObj [("name", VStr "Trailer")]);
                ("equipment", VObj [("name", VStr "TR-53")])];
          VObj [("equipment_type", VObj [("name", VStr "Vehicle")]);
                ("equipment", VObj [("name", VStr "T-101")])]]);
   ("legs.json",
    VObj [("legs", VArr [VObj [("status", VStr "loaded");
                               ("manifest_id", VStr "m-1")]])]);
   ("payment.json",
    VObj [("data", VObj [("payment", VObj [("total", VNum 230)])])]);
   ("books.json",
    VObj [("data", VObj [("address_books",
                          VArr [VObj [("org_name", VStr "Acme")]; VNull])])])]%string.

(** A server that answers every call to the other endpoints alike. *)
Definition api_env (answer : FetchResult) : ApiEnv :=
  {| base := scripted_env api_texts token_server;
     String_trim := λ s, s;
     encodeURIComponent := λ s, s;
     api := λ _ _ _, answer |}.

(** ** Notions and scenarios of the further properties *)

(** The world at the moment the credentials are exchanged for [k]: the
    clock has been read once more when a truthy but expired token was
    found in the cache. *)
Definition at_exchange (k : string) (w : World) : World :=
  match ACCESS_TOKEN w !! k with
  | Some c => if truthy (token c) then tick w else w
  | None => w
  end.

(** A world in which the token of the scenario has expired: the clock has
    been read eleven times since it was stored. *)
Definition expired_world : World :=
  {| ACCESS_TOKEN := {[ "Amado"%string := {| token := VStr "tok1"; expires_at := Fin 10000 |} ]};
     ticks := 11;
     trace := [] |}.

(** A server that holds [records] and answers every page request inside
    them truthfully (and the first one in any case): at offset [50 * i] it
    sends the next fifty (or fewer) records and reports how many records
    there are. *)
Definition honest (E : Env) (qp : string) (records : list value) : Prop :=
  ∀ i : nat,
    (i = 0 ∨ 50 * i < length records)%nat →
    serves E qp (50 * Z.of_nat i)
      (VArr (take 50 (drop (50 * i) records)))
      (VNum (Z.of_nat (length records))).

(** [p] pages hold [n] records: the rounded-up quotient of [n] by the page
    size, and one page for no records at all. *)
Definition pages_for (n p : nat) : Prop :=
  (n = 0 ∧ p = 1)%nat ∨ (50 * (p - 1) < n ≤ 50 * p)%nat.

(** The page requests at offsets 0, 50, ... for [p] pages, starting at page [i]. *)
Definition page_sequence (i p : nat) : list (Z * Z) :=
  (λ j : nat, (limit, 50 * Z.of_nat j)) <$> seq i p.

(** An attempt that ends in the [catch] block: the server cannot be
    reached, or it answers with a success status and a body that
    [JSON.parse] rejects, or that parses to [null], or whose [data.total]
    cannot be converted to a number. *)
Definition attempt_raises (E : Env) (h : list Event) (req : Request) : Prop :=
  net E h req = Unreachable ∨
  ∃ code body,
    net E h req = Answer {| getResponseCode := code; getContentText := body |} ∧
    200 ≤ code < 300 ∧
    (JSON_parse E (VStr body) = None
     ∨ ∃ json,
         JSON_parse E (VStr body) = Some json ∧
         (member json "data" = None
          ∨ ∃ data total,
              member json "data" = Some data ∧ truthy data = true ∧
              member data "total" = Some total ∧ has_text total = false)).

(** A search endpoint that answers 200 with a body that is not JSON. *)
Definition garbled_env : Env :=
  scripted_env order_texts
    (order_server "page0.json" "page50.json" "page100.json" (ok "<html>")).

(** The request of [putPaymentForManifest]. *)
Definition put_call (manifestId : string) (tok paymentData : value) : ApiCall :=
  {| url := ("https://platform.roserocket.com/api/v1/manifests/" ++ manifestId
             ++ "/payment/items/upsert")%string;
     method := PUT; bearer := tok; payload := Some paymentData |}.

(** The request of [getPaymentForManifest] to the base URL [u]. *)
Definition payment_call (u manifestId : string) (tok : value) : ApiCall :=
  {| url := (u ++ "/api/v1/master_trips/" ++ manifestId ++ "/payment")%string;
     method := GET; bearer := tok; payload := None |}.

(** The request of [postRoserocketInternalNote]. *)
Definition note_call (orderId : string) (tok author message : value) : ApiCall :=
  {| url := ("https://athn.roserocket.com/api/v1/orders/" ++ orderId
             ++ "/internal_events")%string;
     method := POST; bearer := tok;
     payload := Some (VObj [("author", author); ("type", VStr "order-note");
                            ("text", message)]%string) |}.

(** An entry for which [equipmentEntry.equipment_type.name] raises. *)
Definition untyped (equipmentEntry : value) : Prop :=
  ∀ t, member equipmentEntry "equipment_type" = Some t → member t "name" = None.

(** The request of [getEquipmentForManifest]. *)
Definition equipment_call (manifestId : string) (tok : value) : ApiCall :=
  {| url := ("https://platform.roserocket.com/api/v1/manifests/" ++ manifestId
             ++ "/equipment")%string;
     method := GET; bearer := tok; payload := None |}.

(** An entry at which the loop of [getTruckNumberForManifest] returns
    [name]. *)
Definition named_vehicle (equipmentEntry name : value) : Prop :=
  ∃ equipment_type equipment,
    member equipmentEntry "equipment_type" = Some equipment_type ∧
    member equipment_type "name" = Some (VStr "Vehicle") ∧
    member equipmentEntry "equipment" = Some equipment ∧
    member equipment "name" = Some name ∧
    truthy name = true.

(** The test of lines 205-208 on a leg. *)
Definition in_transit (leg : value) : bool :=
  match member leg "status", member leg "type" with
  | Some status, Some type =>
      strict_eq_str status "loaded"
      || (strict_eq_str status "dispatched" && strict_eq_str type "line_haul")
  | _, _ => false
  end.

(** A leg that can be read and is not in transit. *)
Definition waiting_leg (leg : value) : Prop :=
  is_Some (member leg "status") ∧ in_transit leg = false.

(** The request of [getOrderLegsByOrderId]. *)
Definition legs_call (AE : ApiEnv) (orderId : string) (tok : value) : ApiCall :=
  {| url := ("https://platform.roserocket.com/api/v1/orders/"
             ++ encodeURIComponent AE orderId ++ "/legs")%string;
     method := GET; bearer := tok; payload := None |}.

(** The request of [obtenerDatosAddressBook]. *)
Definition address_books_call (locationId searchTerm : string) (tok : value) : ApiCall :=
  {| url := ("https://athn.roserocket.com/api/v1/locations/" ++ locationId
             ++ "/address_books?searchTerm=" ++ searchTerm ++ "&offset=0&limit=50")%string;
     method := GET; bearer := tok; payload := None |}.

(** The request of [createOrderMultiStopTaylor]. *)
Definition multistop_call (customerId : string) (tok orderData : value) : ApiCall :=
  {| url := ("https://platform.roserocket.com/api/v1/customers/" ++ customerId
             ++ "/multistop_orders")%string;
     method := POST; bearer := tok; payload := Some orderData |}.



(** * Properties *)

(** ** The webhook receiver *)

Lemma strict_eq_str_true v lit : strict_eq_str v lit = true → v = VStr lit.
Proof.
  destruct v; simpl; try discriminate.
  intros H. apply String.eqb_eq in H. by subst.
Qed.

Lemma strict_eq_str_false v lit : strict_eq_str v lit = false → v ≠ VStr lit.
Proof.
  intros H ->. simpl in H. by rewrite String.eqb_refl in H.
Qed.

Ltac bool_facts :=
  repeat match goal with
         | H : _ || _ = false |- _ => apply orb_false_iff in H; destruct H
         | H : _ && _ = true |- _ => apply andb_true_iff in H; destruct H
         | H : negb _ = true |- _ => apply negb_true_iff in H
         | H : negb _ = false |- _ => apply negb_false_iff in H
         | H : strict_eq_str _ _ = true |- _ => apply strict_eq_str_true in H; subst
         | H : strict_eq_str _ _ = false |- _ => apply strict_eq_str_false in H
         end.

Ltac run_doPost :=
  cbv [doPost missing_body missing_fields try_catch bind ret throw get parse
       template json_output failure success_data];
  repeat (case_match; simplify_eq/=; try done).

(** C9: whatever the event object, [doPost] returns and leaves the world
    as it was; the text of what it returns is [JSON.stringify] of an
    object whose [success] is a boolean, and its mime type is JSON. *)
Theorem doPost_always_answers (E : Env) (e : value) (w : World) :
  ∃ out obj b,
    doPost E e w = (Ret out, w) ∧
    getContent out = JSON_stringify E obj ∧
    getMimeType out = MimeJSON ∧
    member obj "success" = Some (VBool b).
Proof.
  run_doPost; do 3 eexists; (split; [reflexivity|]); simpl; eauto.
Qed.

(** C10: the text that [doPost] returns is [JSON.stringify] of an object
    that is [{success: true, data: {current_status, order_id}}], with the
    payload's two values, exactly when the request is accepted; for every
    other request the object has [success: false] and an [error] text. *)
Theorem doPost_success_iff_accepted (E : Env) (e : value) (w : World) :
  ∃ out obj,
    doPost E e w = (Ret out, w) ∧
    getContent out = JSON_stringify E obj ∧
    ((∃ payload current_status order_id,
        accepted E e payload ∧
        member payload "current_status" = Some current_status ∧
        member payload "order_id" = Some order_id ∧
        obj = VObj [("success", VBool true);
                    ("data", VObj [("current_status", current_status);
                                   ("order_id", order_id)])]%string)
     ∨
     ((∀ payload, ¬ accepted E e payload) ∧
      member obj "success" = Some (VBool false) ∧
      ∃ error, member obj "error" = Some (VStr error))).
Proof.
  unfold accepted.
  run_doPost; bool_facts; do 2 eexists; (split; [reflexivity|]);
    (split; [reflexivity|]).
  all: first
    [ right; split;
      [ intros p (pd & c & oid & ? & ? & ? & ? & ? & ? & ? & ? & ? & ? & ?);
        simplify_eq/=; congruence
      | simpl; by eauto ]
    | left; do 3 eexists; split_and!; [do 3 eexists; split_and!| ..]; eauto ].
Qed.

(** The three requests of [testWebhook], and a body that is the JSON
    text [null]. *)
Example doPost_in_transit (E : Env) (w : World) :
  JSON_parse E (VStr "body")
  = Some (VObj [("event", VStr "order.status_updated");
                ("previous_status", VStr "dispatched");
                ("current_status", VStr "in-transit");
                ("order_id", VStr "test_order_id_123");
                ("timestamp", VStr "2025-03-13T17:21:01.741996Z")]) →
  doPost E (VObj [("postData", VObj [("contents", VStr "body")])]) w
  = (Ret (json_output E (success_data (VStr "in-transit")
                                      (VStr "test_order_id_123"))), w).
Proof. intros H. unfold doPost, try_catch, bind, parse; simpl. by rewrite H. Qed.

Example doPost_other_status (E : Env) (w : World) :
  JSON_parse E (VStr "body")
  = Some (VObj [("event", VStr "order.status_updated");
                ("previous_status", VStr "dispatched");
                ("current_status", VStr "created");
                ("order_id", VStr "test_order_id_123");
                ("timestamp", VStr "2025-03-13T17:21:01.741996Z")]) →
  doPost E (VObj [("postData", VObj [("contents", VStr "body")])]) w
  = (Ret (json_output E (failure "Incorrect status" [("status", VStr "created")])), w).
Proof. intros H. unfold doPost, try_catch, bind, parse; simpl. by rewrite H. Qed.

Example doPost_other_event (E : Env) (w : World) :
  JSON_parse E (VStr "body")
  = Some (VObj [("event", VStr "order.created");
                ("previous_status", VStr "dispatched");
                ("current_status", VStr "created");
                ("order_id", VStr "test_order_id_123");
                ("timestamp", VStr "2025-03-13T17:21:01.741996Z")]) →
  doPost E (VObj [("postData", VObj [("contents", VStr "body")])]) w
  = (Ret (json_output E (failure "Incorrect event type"
                                 [("event", VStr "order.created")])), w).
Proof. intros H. unfold doPost, try_catch, bind, parse; simpl. by rewrite H. Qed.

Example doPost_null_payload (E : Env) (w : World) :
  JSON_parse E (VStr "null") = Some VNull →
  doPost E (VObj [("postData", VObj [("contents", VStr "null")])]) w
  = (Ret (json_output E (failure "Internal server error" [])), w).
Proof. intros H. unfold doPost, try_catch, bind, parse; simpl. by rewrite H. Qed.

Example doPost_no_event (E : Env) (w : World) :
  doPost E VUndef w = (Ret (json_output E (failure "Missing postData" [])), w).
Proof. reflexivity. Qed.

(** ** The token cache *)

Lemma member_resolves E k name :
  resolves E k → ∃ v, member (getConfig E k) name = Some v.
Proof.
  intros [Hn Hu]. destruct (getConfig E k); simpl; eauto; done.
Qed.

#[local] Arguments num_add : simpl never.
#[local] Arguments num_mul : simpl never.
#[local] Arguments number_of : simpl never.

Ltac run_token :=
  cbv [exchange_credentials try_catch bind ret throw get parse to_number
       UrlFetchApp_fetch Date_now write_cache read_cache];
  repeat (case_match; simplify_eq/=; try done).

(** What an exchange leaves behind: one token request, and either [null]
    and an untouched cache, or the truthy token of a success answer,
    stored with the expiry computed from the answer's [expires_in]. *)
Lemma exchange_credentials_cases E k payload w :
  ∃ o w',
    exchange_credentials E k payload w = (o, w') ∧
    trace w' = trace w ++ [EvFetch (TokenRequest payload)] ∧
    ((o = Ret VNull ∧ ACCESS_TOKEN w' = ACCESS_TOKEN w)
     ∨ (∃ code body json data tokv expiresIn,
          net E (trace w) (TokenRequest payload)
          = Answer {| getResponseCode := code; getContentText := body |} ∧
          JSON_parse E (VStr body) = Some json ∧
          member json "data" = Some data ∧
          member data "access_token" = Some tokv ∧
          member data "expires_in" = Some expiresIn ∧
          o = Ret tokv ∧ truthy tokv = true ∧ truthy expiresIn = true ∧
          has_text expiresIn = true ∧
          ticks w' = S (ticks w) ∧
          ACCESS_TOKEN w' =
            <[k := {| token := tokv;
                      expires_at := num_add (Fin (clock E (ticks w)))
                                      (num_mul (number_of E expiresIn) (Fin 1000)) |}]>
              (ACCESS_TOKEN w))).
Proof.
  unfold exchange_credentials, try_catch, bind at 1, UrlFetchApp_fetch.
  destruct (net E (trace w) (TokenRequest payload)) as [[code body]|] eqn:Hnet.
  2: { do 2 eexists. split; [reflexivity|]. split; [reflexivity|]. by left. }
  cbn [getResponseCode getContentText].
  destruct ((200 <=? code) && (code <? 300)).
  2: { do 2 eexists. split; [reflexivity|]. split; [reflexivity|]. by left. }
  unfold bind at 1, parse.
  destruct (JSON_parse E (VStr body)) as [json|] eqn:Hparse.
  2: { do 2 eexists. split; [reflexivity|]. split; [reflexivity|]. by left. }
  unfold ret at 1. unfold bind at 1, get at 1.
  destruct (member json "data") as [data|] eqn:Hdata.
  2: { do 2 eexists. split; [reflexivity|]. split; [reflexivity|]. by left. }
  unfold ret at 1. unfold bind at 1, get at 1.
  destruct (member data "access_token") as [tokv|] eqn:Htok.
  2: { do 2 eexists. split; [reflexivity|]. split; [reflexivity|]. by left. }
  unfold ret at 1. unfold bind at 1, get at 1.
  destruct (member data "expires_in") as [expiresIn|] eqn:Hei.
  2: { do 2 eexists. split; [reflexivity|]. split; [reflexivity|]. by left. }
  unfold ret at 1.
  destruct (truthy tokv) eqn:Htv; cbn [negb orb].
  2: { do 2 eexists. split; [reflexivity|]. split; [reflexivity|]. by left. }
  destruct (truthy expiresIn) eqn:Hev; cbn [negb].
  2: { do 2 eexists. split; [reflexivity|]. split; [reflexivity|]. by left. }
  unfold bind at 1, Date_now. unfold bind at 1, to_number.
  destruct (has_text expiresIn) eqn:Htext.
  2: { do 2 eexists. split; [reflexivity|]. split; [reflexivity|]. by left. }
  do 2 eexists. split; [reflexivity|]. split; [reflexivity|].
  right. exists code, body, json, data, tokv, expiresIn. by split_and!.
Qed.

Lemma getAccessToken_unresolved E k w :
  getConfig E k = VNull →
  getAccessTokenForInstance E k w = (Throw TypeError, w).
Proof.
  intros H. unfold getAccessTokenForInstance. rewrite H. reflexivity.
Qed.

(** With a configuration to destructure, the call is the cache test
    followed, on a miss, by the exchange. *)
Lemma getAccessToken_cases E k w :
  resolves E k →
  ∃ payload,
    match ACCESS_TOKEN w !! k with
    | Some c =>
        if truthy (token c) then
          if num_gtb (expires_at c) (Fin (clock E (ticks w))) then
            getAccessTokenForInstance E k w = (Ret (token c), tick w)
          else
            getAccessTokenForInstance E k w
            = exchange_credentials E k payload (tick w)
        else
          getAccessTokenForInstance E k w = exchange_credentials E k payload w
    | None =>
        getAccessTokenForInstance E k w = exchange_credentials E k payload w
    end.
Proof.
  intros Hr.
  destruct (member_resolves E k "USERNAME" Hr) as [u Hu].
  destruct (member_resolves E k "PASSWORD" Hr) as [p Hp].
  destruct (member_resolves E k "CLIENT_ID" Hr) as [ci Hci].
  destruct (member_resolves E k "CLIENT_SECRET" Hr) as [cs Hcs].
  exists (token_payload u p ci cs).
  unfold getAccessTokenForInstance, get, bind, read_cache.
  rewrite Hu, Hp, Hci, Hcs. simpl.
  destruct (ACCESS_TOKEN w !! k) as [c|]; [|reflexivity].
  destruct (truthy (token c)); [|reflexivity].
  simpl. unfold tick.
  destruct (num_gtb (expires_at c) (Fin (clock E (ticks w)))); reflexivity.
Qed.

(** *** Properties of the world that a computation keeps *)

Section Preserves.
Context (P : World → Prop).

Lemma preserves_ret {A} (a : A) : preserves P (ret a).
Proof. intros w o w' [= <- <-]. done. Qed.

Lemma preserves_throw {A} e : preserves P (@throw A e).
Proof. intros w o w' [= <- <-]. done. Qed.

Lemma preserves_timeout {A} : preserves P (λ w, (@Timeout A, w)).
Proof. intros w o w' [= <- <-]. done. Qed.

Lemma preserves_bind {A B} (m : M A) (k : A → M B) :
  preserves P m → (∀ a, preserves P (k a)) → preserves P (bind m k).
Proof.
  intros Hm Hk w o w' Hrun HP. unfold bind in Hrun.
  destruct (m w) as [[a|e|] w1] eqn:Hmw.
  - eapply Hk; eauto.
  - injection Hrun as <- <-. eauto.
  - injection Hrun as <- <-. eauto.
Qed.

Lemma preserves_try {A} (m : M A) (h : exn → M A) :
  preserves P m → (∀ e, preserves P (h e)) → preserves P (try_catch m h).
Proof.
  intros Hm Hh w o w' Hrun HP. unfold try_catch in Hrun.
  destruct (m w) as [[a|e|] w1] eqn:Hmw.
  - injection Hrun as <- <-. eauto.
  - eapply Hh; eauto.
  - injection Hrun as <- <-. eauto.
Qed.

Lemma preserves_get v k : preserves P (get v k).
Proof. unfold get. destruct (member v k); [apply preserves_ret | apply preserves_throw]. Qed.

Lemma preserves_parse E x : preserves P (parse E x).
Proof.
  unfold parse. destruct (JSON_parse E x); [apply preserves_ret | apply preserves_throw].
Qed.

Lemma preserves_read_cache k : preserves P (read_cache k).
Proof. intros w o w' [= <- <-]. done. Qed.

Lemma preserves_template v : preserves P (template v).
Proof.
  unfold template. destruct (has_text v); [apply preserves_ret | apply preserves_throw].
Qed.

Lemma preserves_to_number E v : preserves P (to_number E v).
Proof.
  unfold to_number. destruct (has_text v); [apply preserves_ret | apply preserves_throw].
Qed.
End Preserves.

Ltac preserve_step :=
  first
    [ assumption
    | match goal with H : ∀ _, preserves _ _ |- _ => apply H end
    | match goal with
      | |- preserves _ (ret _) => apply preserves_ret
      | |- preserves _ (throw _) => apply preserves_throw
      | |- preserves _ (λ w, (Timeout, w)) => apply preserves_timeout
      | |- preserves _ (get _ _) => apply preserves_get
      | |- preserves _ (parse _ _) => apply preserves_parse
      | |- preserves _ (read_cache _) => apply preserves_read_cache
      | |- preserves _ (template _) => apply preserves_template
      | |- preserves _ (to_number _ _) => apply preserves_to_number
      | |- preserves _ (bind _ _) => apply preserves_bind; [| intros ?]
      | |- preserves _ (try_catch _ _) => apply preserves_try; [| intros ?]
      | |- preserves _ (if ?b then _ else _) => destruct b
      | |- preserves _ (match ?x with _ => _ end) => destruct x
      end
    | progress cbv zeta ].

Lemma not_resolves_throws E k w :
  ¬ resolves E k → getAccessTokenForInstance E k w = (Throw TypeError, w).
Proof.
  intros Hn. unfold getAccessTokenForInstance.
  destruct (getConfig E k) eqn:Hc; try reflexivity;
    exfalso; apply Hn; unfold resolves; rewrite Hc; done.
Qed.

Lemma resolves_dec E k : resolves E k ∨ ¬ resolves E k.
Proof.
  unfold resolves. destruct (getConfig E k); try (left; done); right; intros [? ?]; done.
Qed.

Lemma cache_sound_token E k : preserves (cache_sound E) (getAccessTokenForInstance E k).
Proof.
  intros w o w' Hrun Hs.
  destruct (resolves_dec E k) as [Hr|Hn].
  2: { rewrite (not_resolves_throws _ _ _ Hn) in Hrun. by simplify_eq. }
  destruct (getAccessToken_cases E k w Hr) as [payload Hc].
  assert (Hex : ∀ w0, cache_sound E w0 → ∀ o w', exchange_credentials E k payload w0 = (o, w') →
                 cache_sound E w').
  { intros w0 Hs0 o0 w0' Hx.
    destruct (exchange_credentials_cases E k payload w0)
      as (o1 & w1 & Heq & _ & [(-> & Hsame)|(? & ? & ? & ? & tv & ei & _ & _ & _ & _ & _ & -> & Ht & _ & _ & _ & Hins)]);
      rewrite Heq in Hx; simplify_eq.
    - intros k' c'. rewrite Hsame. apply Hs0.
    - intros k' c'. rewrite Hins. rewrite lookup_insert.
      case_decide; [intros [= <-]; subst; done | apply Hs0]. }
  assert (Hs' : cache_sound E (tick w)) by exact Hs.
  destruct (ACCESS_TOKEN w !! k) as [c|]; [|rewrite Hc in Hrun; eauto].
  destruct (truthy (token c)); [|rewrite Hc in Hrun; eauto].
  destruct (num_gtb _ _); rewrite Hc in Hrun; [by simplify_eq | eauto].
Qed.

Lemma cache_sound_fetch E req : preserves (cache_sound E) (UrlFetchApp_fetch E req).
Proof.
  intros w o w' Hrun Hs. unfold UrlFetchApp_fetch in Hrun.
  destruct (net E (trace w) req); by simplify_eq.
Qed.

Lemma cache_sound_sleep E attempt :
  preserves (cache_sound E) (Utilities_sleep_backoff attempt).
Proof. intros w o w' [= <- <-] Hs. exact Hs. Qed.

Lemma cache_sound_iteration E qp k st :
  preserves (cache_sound E) (searchOrders_iteration E qp k st).
Proof.
  pose proof (cache_sound_token E k). pose proof (cache_sound_fetch E).
  unfold searchOrders_iteration. repeat preserve_step.
Qed.

Lemma cache_sound_loop E fuel qp k st :
  preserves (cache_sound E) (searchOrders_loop E fuel qp k st).
Proof.
  revert st. induction fuel as [|fuel IH]; intros st; simpl.
  - apply preserves_timeout.
  - pose proof (cache_sound_iteration E qp k st). repeat preserve_step.
Qed.

Lemma cache_sound_searchOrders E fuel qp k :
  preserves (cache_sound E) (searchOrders E fuel qp k).
Proof.
  pose proof (cache_sound_token E k). pose proof (cache_sound_loop E fuel qp k loop_start).
  unfold searchOrders. repeat preserve_step.
Qed.

Lemma cache_sound_attempt E req attempt :
  preserves (cache_sound E) (findOrders_attempt E req attempt).
Proof.
  pose proof (cache_sound_fetch E req). pose proof (cache_sound_sleep E attempt).
  unfold findOrders_attempt. repeat preserve_step.
Qed.

Lemma cache_sound_retry E req fuel attempt :
  preserves (cache_sound E) (findOrders_retry E req fuel attempt).
Proof.
  revert attempt. induction fuel as [|fuel IH]; intros attempt; simpl.
  - repeat preserve_step.
  - pose proof (cache_sound_attempt E req attempt). repeat preserve_step.
Qed.

Lemma cache_sound_findOrders E k cid :
  preserves (cache_sound E) (findOrdersByContainerId E k cid).
Proof.
  pose proof (cache_sound_token E k).
  unfold findOrdersByContainerId.
  apply preserves_bind; [assumption|intros tok].
  destruct (negb (truthy tok)); [apply preserves_ret|].
  match goal with |- preserves _ (if ?b then _ else _) => destruct b end;
    [apply preserves_ret|].
  apply preserves_bind; [apply preserves_template|intros _; apply cache_sound_retry].
Qed.

Lemma cache_sound_doPost E e : preserves (cache_sound E) (doPost E e).
Proof.
  unfold doPost, missing_body, missing_fields. repeat preserve_step.
Qed.

Lemma reachable_cache_sound E w : reachable E w → cache_sound E w.
Proof.
  induction 1.
  - intros k c Hk. simpl in Hk. by rewrite lookup_empty in Hk.
  - eapply cache_sound_token; eauto.
  - eapply cache_sound_searchOrders; eauto.
  - eapply cache_sound_findOrders; eauto.
  - eapply cache_sound_doPost; eauto.
Qed.

Lemma network_calls_snoc_fetch t req :
  network_calls (t ++ [EvFetch req]) = network_calls t ++ [req].
Proof. unfold network_calls. by rewrite omap_app. Qed.

(** C1: a token that the cache holds and that has not expired is returned
    as it is, with no request sent (only the clock is read); hence two
    calls in a row, the first of which had to fetch a token and the second
    of which falls within that token's lifetime, send one token request
    between them. *)
Theorem cached_token_reused (E : Env) (k : string) (w : World) :
  reachable E w →
  (∀ c, ACCESS_TOKEN w !! k = Some c →
        num_gtb (expires_at c) (Fin (clock E (ticks w))) = true →
        ∃ w', getAccessTokenForInstance E k w = (Ret (token c), w') ∧
              trace w' = trace w ∧ ACCESS_TOKEN w' = ACCESS_TOKEN w)
  ∧
  (∀ v w1,
      ¬ live E k w →
      getAccessTokenForInstance E k w = (Ret v, w1) →
      truthy v = true →
      live E k w1 →
      ∃ payload w2,
        getAccessTokenForInstance E k w1 = (Ret v, w2) ∧
        network_calls (trace w2) = network_calls (trace w) ++ [TokenRequest payload]).
Proof.
  intros Hreach. pose proof (reachable_cache_sound E w Hreach) as Hsound.
  split.
  - intros c Hc Hlive.
    destruct (Hsound k c Hc) as [Htruthy Hres].
    destruct (getAccessToken_cases E k w Hres) as [payload Hcases].
    rewrite Hc, Htruthy, Hlive in Hcases.
    exists (tick w). done.
  - intros v w1 Hdead Hcall Hv Hlive1.
    assert (Hres : resolves E k).
    { destruct (resolves_dec E k) as [?|Hn]; [done|].
      rewrite (not_resolves_throws _ _ _ Hn) in Hcall. done. }
    destruct (getAccessToken_cases E k w Hres) as [payload Hcases].
    assert (Hexch : ∃ w0, trace w0 = trace w ∧
                          exchange_credentials E k payload w0 = (Ret v, w1)).
    { destruct (ACCESS_TOKEN w !! k) as [c|] eqn:Hc.
      - destruct (truthy (token c)).
        + destruct (num_gtb (expires_at c) (Fin (clock E (ticks w)))) eqn:Hgt.
          * exfalso. apply Hdead. exists c. done.
          * exists (tick w). by rewrite <- Hcases.
        + exists w. by rewrite <- Hcases.
      - exists w. by rewrite <- Hcases. }
    destruct Hexch as (w0 & Htr & Hx).
    destruct (exchange_credentials_cases E k payload w0)
      as (o & w1' & Heq & Htrace & Hout).
    rewrite Heq in Hx. injection Hx as -> ->.
    destruct Hout as [(Hnull & _)|(? & ? & ? & ? & tv & ei & _ & _ & _ & _ & _ & Hret & Htv & _ & _ & _ & Hins)].
    { injection Hnull as ->. done. }
    injection Hret as ->.
    destruct Hlive1 as (c1 & Hc1 & Hgt1).
    assert (Htok : token c1 = tv).
    { rewrite Hins, lookup_insert_eq in Hc1. by injection Hc1 as <-. }
    destruct (getAccessToken_cases E k w1 Hres) as [payload1 Hcases1].
    rewrite Hc1, Htok, Htv, Hgt1 in Hcases1.
    exists payload, (tick w1). split; [done|].
    simpl. rewrite Htrace, Htr. apply network_calls_snoc_fetch.
Qed.

Lemma cached_token_reused_witness :
  let w1 := (getAccessTokenForInstance demo_env "Amado" initial_world).2 in
  (∃ w', getAccessTokenForInstance demo_env "Amado" w1 = (Ret (VStr "tok1"), w') ∧
         trace w' = trace w1 ∧ ACCESS_TOKEN w' = ACCESS_TOKEN w1)
  ∧
  (∃ payload w2,
     getAccessTokenForInstance demo_env "Amado" w1 = (Ret (VStr "tok1"), w2) ∧
     network_calls (trace w2)
     = network_calls (trace initial_world) ++ [TokenRequest payload]).
Proof.
  intros w1. split.
  - refine (proj1 (cached_token_reused demo_env "Amado" w1 _)
              {| token := VStr "tok1"; expires_at := Fin 10000 |} _ _).
    + refine (reach_token demo_env "Amado" initial_world (Ret (VStr "tok1")) w1
                (reach_initial _) _).
      vm_compute. reflexivity.
    + vm_compute. reflexivity.
    + reflexivity.
  - apply (proj2 (cached_token_reused demo_env "Amado" initial_world (reach_initial _))).
    + intros (c & Hc & _). vm_compute in Hc. discriminate.
    + vm_compute. reflexivity.
    + reflexivity.
    + eexists. split; vm_compute; reflexivity.
Defined.

(** C8 as stated fails: the token of an answer whose [expires_in] is
    negative is returned although the expiry stored with it is already
    behind the clock reading it was computed from. *)
Lemma negative_lifetime_token_returned :
  ∃ w' c,
    getAccessTokenForInstance late_env "Amado" initial_world = (Ret (VStr "tok1"), w') ∧
    ACCESS_TOKEN w' !! "Amado"%string = Some c ∧
    token c = VStr "tok1" ∧
    expires_at c = Fin (-5000) ∧
    clock late_env (pred (ticks w')) = 0 ∧
    num_gtb (expires_at c) (Fin (clock late_env (pred (ticks w')))) = false.
Proof.
  do 2 eexists. split; [vm_compute; reflexivity|].
  split; [vm_compute; reflexivity|]. done.
Qed.

(** Within the safe integers nothing is rounded. *)
Lemma round_safe z : Z.abs z ≤ max_safe → round_to_double z = Fin z.
Proof.
  intros Hz. unfold round_to_double. cbv zeta.
  destruct (Z.leb_spec (Z.abs z) max_safe); [done|lia].
Qed.

Lemma num_gtb_shift now z :
  Z.abs (z * 1000) ≤ max_safe → Z.abs (now + z * 1000) ≤ max_safe →
  num_gtb (num_add (Fin now) (num_mul (Fin z) (Fin 1000))) (Fin now) = true ↔ 0 < z.
Proof.
  intros Hp Hs. unfold num_mul. rewrite round_safe by done.
  unfold num_add. rewrite round_safe by done.
  unfold num_gtb. rewrite Z.ltb_lt. lia.
Qed.

(** C8, amended: a returned token is the one the cache holds afterwards.
    Returned from the cache, its expiry is later than the clock reading of
    the call. Freshly exchanged, it is the [access_token] of the answer of
    the identity endpoint, and its expiry is the clock reading plus the
    answer's [expires_in] times 1000, in the arithmetic of doubles; for an
    integer [expires_in], with product and sum within the safe integers,
    that is later than the reading exactly when [expires_in] is positive. *)
Theorem returned_token_expiry (E : Env) (k : string) (w w' : World) (v : value) :
  getAccessTokenForInstance E k w = (Ret v, w') →
  truthy v = true →
  let now := clock E (pred (ticks w')) in
  ∃ c,
    ACCESS_TOKEN w' !! k = Some c ∧ token c = v ∧
    ((ACCESS_TOKEN w !! k = Some c ∧ trace w' = trace w ∧
      num_gtb (expires_at c) (Fin now) = true)
     ∨
     (∃ payload code body json data expiresIn,
        trace w' = trace w ++ [EvFetch (TokenRequest payload)] ∧
        net E (trace w) (TokenRequest payload)
        = Answer {| getResponseCode := code; getContentText := body |} ∧
        JSON_parse E (VStr body) = Some json ∧
        member json "data" = Some data ∧
        member data "access_token" = Some v ∧
        member data "expires_in" = Some expiresIn ∧
        truthy expiresIn = true ∧ has_text expiresIn = true ∧
        expires_at c = num_add (Fin now) (num_mul (number_of E expiresIn) (Fin 1000)) ∧
        (∀ z, number_of E expiresIn = Fin z →
              Z.abs (z * 1000) ≤ max_safe → Z.abs (now + z * 1000) ≤ max_safe →
              (num_gtb (expires_at c) (Fin now) = true ↔ 0 < z)))).
Proof.
  intros Hcall Hv now.
  assert (Hres : resolves E k).
  { destruct (resolves_dec E k) as [?|Hn]; [done|].
    rewrite (not_resolves_throws _ _ _ Hn) in Hcall. done. }
  destruct (getAccessToken_cases E k w Hres) as [payload Hcases].
  assert (Hfresh : ∀ w0, trace w0 = trace w →
            exchange_credentials E k payload w0 = (Ret v, w') →
            ∃ c, ACCESS_TOKEN w' !! k = Some c ∧ token c = v ∧
              ∃ payload code body json data expiresIn,
                trace w' = trace w ++ [EvFetch (TokenRequest payload)] ∧
                net E (trace w) (TokenRequest payload)
                = Answer {| getResponseCode := code; getContentText := body |} ∧
                JSON_parse E (VStr body) = Some json ∧
                member json "data" = Some data ∧
                member data "access_token" = Some v ∧
                member data "expires_in" = Some expiresIn ∧
                truthy expiresIn = true ∧ has_text expiresIn = true ∧
                expires_at c
                = num_add (Fin now) (num_mul (number_of E expiresIn) (Fin 1000)) ∧
                (∀ z, number_of E expiresIn = Fin z →
                      Z.abs (z * 1000) ≤ max_safe →
                      Z.abs (now + z * 1000) ≤ max_safe →
                      (num_gtb (expires_at c) (Fin now) = true ↔ 0 < z))).
  { intros w0 Htr Hx.
    destruct (exchange_credentials_cases E k payload w0)
      as (o & w1 & Heq & Htrace & Hout).
    rewrite Heq in Hx. injection Hx as -> ->.
    destruct Hout as [(Hnull & _)
                     |(code & body & json & data & tv & ei & Hnet & Hparse & Hdata
                       & Htok & Hei & Hret & _ & Heit & Htext & Hticks & Hins)].
    { injection Hnull as ->. done. }
    injection Hret as ->.
    eexists. split; [rewrite Hins; apply lookup_insert_eq|].
    split; [done|]. exists payload, code, body, json, data, ei. simpl.
    subst now. rewrite Hticks. simpl. rewrite Htr in Hnet.
    split_and!; [by rewrite Htrace, Htr|done..|].
    intros z -> Hp Hs. by apply num_gtb_shift. }
  destruct (ACCESS_TOKEN w !! k) as [c|] eqn:Hc.
  - destruct (truthy (token c)) eqn:Htc.
    + destruct (num_gtb (expires_at c) (Fin (clock E (ticks w)))) eqn:Hgt.
      * rewrite Hcases in Hcall. injection Hcall as <- <-.
        exists c. split; [done|]. split; [done|]. left. done.
      * rewrite Hcases in Hcall.
        destruct (Hfresh (tick w) eq_refl Hcall) as (c' & ? & ? & ?). eauto.
    + rewrite Hcases in Hcall.
      destruct (Hfresh w eq_refl Hcall) as (c' & ? & ? & ?). eauto.
  - rewrite Hcases in Hcall.
    destruct (Hfresh w eq_refl Hcall) as (c' & ? & ? & ?). eauto.
Qed.

Lemma returned_token_expiry_witness :
  ∃ c,
    ACCESS_TOKEN (getAccessTokenForInstance demo_env "Amado" initial_world).2
      !! "Amado"%string = Some c ∧
    token c = VStr "tok1" ∧
    ((ACCESS_TOKEN initial_world !! "Amado"%string = Some c ∧
      trace (getAccessTokenForInstance demo_env "Amado" initial_world).2
      = trace initial_world ∧
      num_gtb (expires_at c) (Fin 0) = true)
     ∨
     (∃ payload code body json data expiresIn,
        trace (getAccessTokenForInstance demo_env "Amado" initial_world).2
        = trace initial_world ++ [EvFetch (TokenRequest payload)] ∧
        net demo_env (trace initial_world) (TokenRequest payload)
        = Answer {| getResponseCode := code; getContentText := body |} ∧
        JSON_parse demo_env (VStr body) = Some json ∧
        member json "data" = Some data ∧
        member data "access_token" = Some (VStr "tok1") ∧
        member data "expires_in" = Some expiresIn ∧
        truthy expiresIn = true ∧ has_text expiresIn = true ∧
        expires_at c
        = num_add (Fin 0) (num_mul (number_of demo_env expiresIn) (Fin 1000)) ∧
        (∀ z, number_of demo_env expiresIn = Fin z →
              Z.abs (z * 1000) ≤ max_safe → Z.abs (0 + z * 1000) ≤ max_safe →
              (num_gtb (expires_at c) (Fin 0) = true ↔ 0 < z)))).
Proof.
  apply (returned_token_expiry demo_env "Amado" initial_world
           (getAccessTokenForInstance demo_env "Amado" initial_world).2 (VStr "tok1")).
  - vm_compute. reflexivity.
  - reflexivity.
Defined.

(** C5: for an instance without a stored configuration the call does not
    return a failure value: destructuring the [null] that [getConfig]
    returned raises a TypeError that nothing catches. *)
Theorem unknown_tenant_throws :
  getConfig demo_env "Nowhere" = VNull ∧
  getAccessTokenForInstance demo_env "Nowhere" initial_world
  = (Throw TypeError, initial_world).
Proof.
  split; vm_compute; reflexivity.
Qed.

(** The scenario of the specification: [tok1] is granted for ten seconds;
    a second call a second later reuses it; a call once the clock has
    passed the expiry exchanges the credentials again. *)
Example token_scenario :
  let first := getAccessTokenForInstance demo_env "Amado" initial_world in
  let second := getAccessTokenForInstance demo_env "Amado" first.2 in
  let later := {| ACCESS_TOKEN := ACCESS_TOKEN second.2; ticks := 11;
                  trace := trace second.2 |} in
  let third := getAccessTokenForInstance demo_env "Amado" later in
  first.1 = Ret (VStr "tok1") ∧
  second.1 = Ret (VStr "tok1") ∧
  length (network_calls (trace second.2)) = 1%nat ∧
  third.1 = Ret (VStr "tok1") ∧
  length (network_calls (trace third.2)) = 2%nat.
Proof. vm_compute. done. Qed.

(** ** The retry loop of findOrdersByContainerId *)

Ltac run_attempt :=
  cbv [findOrders_attempt try_catch bind ret throw get parse to_number
       UrlFetchApp_fetch Utilities_sleep_backoff emit];
  repeat (case_match; simplify_eq/=; try done).

(** One attempt sends one request, never raises, and sleeps at most once. *)
Lemma findOrders_attempt_cases E req attempt w :
  ∃ r w',
    findOrders_attempt E req attempt w = (Ret r, w') ∧
    ACCESS_TOKEN w' = ACCESS_TOKEN w ∧
    (trace w' = trace w ++ [EvFetch req]
     ∨ (r = NextAttempt ∧
        trace w' = (trace w ++ [EvFetch req]) ++ [EvSleep (2 ^ attempt * 1000)])).
Proof.
  run_attempt; do 2 eexists; (split; [reflexivity|]); simpl; eauto.
Qed.

(** A client error, or any other status below 500 that is not a success,
    ends the attempt with [null]. *)
Lemma findOrders_attempt_client_error E req attempt w code body :
  net E (trace w) req = Answer {| getResponseCode := code; getContentText := body |} →
  400 ≤ code < 500 →
  findOrders_attempt E req attempt w
  = (Ret (Returned VNull), after_event w (EvFetch req)).
Proof.
  intros Hnet Hcode.
  cbv [findOrders_attempt try_catch bind UrlFetchApp_fetch]. rewrite Hnet. simpl.
  replace (200 <=? code) with true by lia.
  replace (code <? 300) with false by lia.
  replace (500 <=? code) with false by lia.
  reflexivity.
Qed.

(** A server error before the last attempt: sleep, then try again. At the
    last attempt: [null]. *)
Lemma findOrders_attempt_server_error E req attempt w code body :
  net E (trace w) req = Answer {| getResponseCode := code; getContentText := body |} →
  500 ≤ code →
  findOrders_attempt E req attempt w
  = if attempt <? maxRetries then
      (Ret NextAttempt,
       after_event (after_event w (EvFetch req)) (EvSleep (2 ^ attempt * 1000)))
    else
      (Ret (Returned VNull), after_event w (EvFetch req)).
Proof.
  intros Hnet Hcode.
  cbv [findOrders_attempt try_catch bind UrlFetchApp_fetch]. rewrite Hnet. simpl.
  replace (200 <=? code) with true by lia.
  replace (code <? 300) with false by lia.
  replace (500 <=? code) with true by lia.
  simpl. destruct (attempt <? maxRetries); reflexivity.
Qed.

Lemma findOrders_retry_server_error E req fuel attempt w code body :
  attempt ≤ maxRetries →
  net E (trace w) req = Answer {| getResponseCode := code; getContentText := body |} →
  500 ≤ code →
  findOrders_retry E req (S fuel) attempt w
  = if attempt <? maxRetries then
      findOrders_retry E req fuel (attempt + 1)
        (after_event (after_event w (EvFetch req)) (EvSleep (2 ^ attempt * 1000)))
    else
      (Ret VNull, after_event w (EvFetch req)).
Proof.
  intros Hle Hnet Hcode. simpl.
  replace (attempt <=? maxRetries) with true by lia.
  unfold bind.
  rewrite (findOrders_attempt_server_error E req attempt w code body Hnet Hcode).
  destruct (attempt <? maxRetries); reflexivity.
Qed.

(** The loop sends at most one request per attempt left, all of them the
    same, and with fuel for every attempt left it does not run dry. *)
Lemma findOrders_retry_calls E req fuel attempt w o w' :
  findOrders_retry E req fuel attempt w = (o, w') →
  ∃ extra,
    trace w' = trace w ++ extra ∧
    (length (network_calls extra) ≤ fuel)%nat ∧
    Forall (λ r, r = req) (network_calls extra) ∧
    (maxRetries + 1 - attempt ≤ Z.of_nat fuel → o ≠ Timeout).
Proof.
  revert attempt w. induction fuel as [|fuel IH]; intros attempt w; simpl.
  - destruct (Z.leb_spec attempt maxRetries); intros [= <- <-];
      exists []; rewrite app_nil_r; simpl; split_and!; try done; lia.
  - destruct (Z.leb_spec attempt maxRetries) as [Hle|Hgt].
    2: { intros [= <- <-]. exists []. rewrite app_nil_r. simpl.
         split_and!; try done; lia. }
    unfold bind.
    destruct (findOrders_attempt_cases E req attempt w) as (r & w1 & Hatt & _ & Htr).
    rewrite Hatt.
    destruct r as [v|].
    + intros [= <- <-]. destruct Htr as [Htr|[? _]]; [|done].
      exists [EvFetch req]. simpl. split_and!; try done; [lia|by constructor].
    + intros Hrec. apply IH in Hrec as (extra & Hx & Hlen & Hall & Hfuel).
      destruct Htr as [Htr|[_ Htr]]; rewrite Htr in Hx.
      * exists ([EvFetch req] ++ extra). rewrite app_assoc.
        split_and!; [done|simpl; lia|by constructor|intros; apply Hfuel; lia].
      * exists (([EvFetch req] ++ [EvSleep (2 ^ attempt * 1000)]) ++ extra).
        rewrite !app_assoc. rewrite <- !app_assoc in Hx. rewrite <- !app_assoc.
        split_and!; [done|simpl; lia|by constructor|intros; apply Hfuel; lia].
Qed.

(** With a token and a subdomain in hand the function is its retry loop,
    started at attempt 1 with room for [maxRetries] attempts. *)
Lemma findOrders_enters_loop E k cid w w1 tok sub :
  getAccessTokenForInstance E k w = (Ret tok, w1) →
  truthy tok = true →
  has_text tok = true →
  member (instanceManager2_getConfig k) "subdomain" = Some sub →
  truthy sub = true →
  findOrdersByContainerId E k cid w
  = findOrders_retry E (TwoStageSearch sub cid tok) (Z.to_nat maxRetries) 1 w1.
Proof.
  intros Hcall Htok Htext Hsub Hsubt.
  unfold findOrdersByContainerId, bind at 1. rewrite Hcall, Htok. simpl negb. cbv iota.
  rewrite Hsub. simpl default. rewrite Hsubt. simpl negb.
  unfold bind at 1, template. rewrite Htext. unfold ret at 1.
  destruct (instanceManager2_getConfig k) eqn:Hcfg; simpl in Hsub; simplify_eq/=;
    try done.
  all: repeat case_match; simplify_eq/=; done.
Qed.

(** C3: with a token that the Authorization header can be built from, the
    loop sends the search request at most [maxRetries] times; a server
    that answers 503 every time receives it exactly three times, with the
    two back-off sleeps in between, and the result is [null]; a 400 ends
    the function after the one request, and no 4xx answer at any attempt
    is followed by another request. *)
Theorem findOrders_retry_bounded (E : Env) (k cid : string) (w w1 : World)
    (tok sub : value) :
  getAccessTokenForInstance E k w = (Ret tok, w1) →
  truthy tok = true →
  has_text tok = true →
  member (instanceManager2_getConfig k) "subdomain" = Some sub →
  truthy sub = true →
  let req := TwoStageSearch sub cid tok in
  (∀ o w', findOrdersByContainerId E k cid w = (o, w') →
     o ≠ Timeout ∧
     ∃ extra, trace w' = trace w1 ++ extra ∧
              (length (network_calls extra) ≤ Z.to_nat maxRetries)%nat ∧
              Forall (λ r, r = req) (network_calls extra))
  ∧
  ((∀ h, ∃ body,
       net E h req = Answer {| getResponseCode := 503; getContentText := body |}) →
   ∃ w', findOrdersByContainerId E k cid w = (Ret VNull, w') ∧
         trace w' = trace w1 ++ [EvFetch req; EvSleep 2000; EvFetch req;
                                 EvSleep 4000; EvFetch req])
  ∧
  (∀ body,
     net E (trace w1) req = Answer {| getResponseCode := 400; getContentText := body |} →
     ∃ w', findOrdersByContainerId E k cid w = (Ret VNull, w') ∧
           trace w' = trace w1 ++ [EvFetch req])
  ∧
  (∀ fuel attempt w0 code body,
     attempt ≤ maxRetries →
     400 ≤ code < 500 →
     net E (trace w0) req
     = Answer {| getResponseCode := code; getContentText := body |} →
     ∃ w0', findOrders_retry E req (S fuel) attempt w0 = (Ret VNull, w0') ∧
            trace w0' = trace w0 ++ [EvFetch req]).
Proof.
  intros Hcall Htok Htext Hsub Hsubt req.
  pose proof (findOrders_enters_loop E k cid w w1 tok sub Hcall Htok Htext Hsub Hsubt)
    as Hloop.
  fold req in Hloop.
  assert (Hclient : ∀ fuel attempt w0 code body,
            attempt ≤ maxRetries → 400 ≤ code < 500 →
            net E (trace w0) req
            = Answer {| getResponseCode := code; getContentText := body |} →
            ∃ w0', findOrders_retry E req (S fuel) attempt w0 = (Ret VNull, w0') ∧
                   trace w0' = trace w0 ++ [EvFetch req]).
  { intros fuel attempt w0 code body Hle Hcode Hnet. simpl.
    replace (attempt <=? maxRetries) with true by lia.
    unfold bind.
    rewrite (findOrders_attempt_client_error E req attempt w0 code body Hnet Hcode).
    eexists. split; reflexivity. }
  split_and!.
  - intros o w' Hrun. rewrite Hloop in Hrun.
    apply findOrders_retry_calls in Hrun as (extra & Htr & Hlen & Hall & Hfuel).
    split; [apply Hfuel; unfold maxRetries; lia|]. eauto.
  - intros Hserver. rewrite Hloop.
    assert (Hstep : ∀ w0, ∃ body,
              net E (trace w0) req
              = Answer {| getResponseCode := 503; getContentText := body |})
      by (intros; apply Hserver).
    change (Z.to_nat maxRetries) with 3%nat.
    destruct (Hstep w1) as [b1 Hb1].
    rewrite (findOrders_retry_server_error E req 2 1 w1 503 b1) by (done || lia).
    change (1 <? maxRetries) with true. cbv iota.
    match goal with |- context [findOrders_retry E req _ _ ?w0] =>
      destruct (Hstep w0) as [b2 Hb2];
      rewrite (findOrders_retry_server_error E req 1 (1 + 1) w0 503 b2) by (done || lia)
    end.
    change (1 + 1 <? maxRetries) with true. cbv iota.
    match goal with |- context [findOrders_retry E req _ _ ?w0] =>
      destruct (Hstep w0) as [b3 Hb3];
      rewrite (findOrders_retry_server_error E req 0 (1 + 1 + 1) w0 503 b3)
        by (done || lia)
    end.
    change (1 + 1 + 1 <? maxRetries) with false. cbv iota.
    eexists. split; [reflexivity|]. simpl. by rewrite <- !app_assoc.
  - intros body Hnet. rewrite Hloop.
    change (Z.to_nat maxRetries) with 3%nat.
    apply (Hclient 2%nat 1 w1 400 body); [unfold maxRetries; lia|lia|done].
  - exact Hclient.
Qed.

Lemma findOrders_retry_bounded_witness :
  let req := TwoStageSearch (VStr "athn") "CAAU5142250" (VStr "tok1") in
  (∃ w',
     findOrdersByContainerId busy_env "Amado" "CAAU5142250" initial_world
     = (Ret VNull, w') ∧
     trace w'
     = trace (getAccessTokenForInstance busy_env "Amado" initial_world).2
       ++ [EvFetch req; EvSleep 2000; EvFetch req; EvSleep 4000; EvFetch req])
  ∧
  (∃ w',
     findOrdersByContainerId strict_env "Amado" "CAAU5142250" initial_world
     = (Ret VNull, w') ∧
     trace w'
     = trace (getAccessTokenForInstance strict_env "Amado" initial_world).2
       ++ [EvFetch req]).
Proof.
  intros req. split.
  - refine (proj1 (proj2 (findOrders_retry_bounded busy_env "Amado" "CAAU5142250"
                            initial_world _ (VStr "tok1") (VStr "athn") _ _ _ _ _)) _).
    + vm_compute. reflexivity.
    + reflexivity.
    + reflexivity.
    + reflexivity.
    + reflexivity.
    + intros h. eexists. reflexivity.
  - refine (proj1 (proj2 (proj2 (findOrders_retry_bounded strict_env "Amado"
                                   "CAAU5142250" initial_world _ (VStr "tok1")
                                   (VStr "athn") _ _ _ _ _))) "" _).
    + vm_compute. reflexivity.
    + reflexivity.
    + reflexivity.
    + reflexivity.
    + reflexivity.
    + reflexivity.
Defined.

(** A rejected search is not repeated; a found container is returned. *)
Example findOrders_rejected :
  let run := findOrdersByContainerId strict_env "Amado" "CAAU5142250" initial_world in
  run.1 = Ret VNull ∧
  network_calls (trace run.2)
  = [TokenRequest (token_payload (VStr "user") (VStr "pass") (VStr "cid")
                                 (VStr "secret"));
     TwoStageSearch (VStr "athn") "CAAU5142250" (VStr "tok1")].
Proof. vm_compute. done. Qed.

Example findOrders_found :
  (findOrdersByContainerId paged_env "Amado" "CAAU5142250" initial_world).1
  = Ret (VArr [order 7]).
Proof. vm_compute. done. Qed.

(** ** The paginated search *)

Lemma page_requests_app a b : page_requests (a ++ b) = page_requests a ++ page_requests b.
Proof. unfold page_requests. apply omap_app. Qed.

(** A token call of a resolving instance returns, and sends no page
    request. *)
Lemma token_call_quiet E k w :
  resolves E k →
  ∃ tok w1, getAccessTokenForInstance E k w = (Ret tok, w1) ∧
            page_requests (trace w1) = page_requests (trace w).
Proof.
  intros Hres.
  destruct (getAccessToken_cases E k w Hres) as [payload Hcases].
  assert (Hx : ∀ w0, trace w0 = trace w →
            ∃ tok w1, exchange_credentials E k payload w0 = (Ret tok, w1) ∧
                      page_requests (trace w1) = page_requests (trace w)).
  { intros w0 Htr.
    destruct (exchange_credentials_cases E k payload w0)
      as (o & w1 & Heq & Htrace & Hout).
    assert (Hp : page_requests (trace w1) = page_requests (trace w)).
    { rewrite Htrace, page_requests_app, Htr. simpl. apply app_nil_r. }
    destruct Hout as [(-> & _)|(? & ? & ? & ? & tv & ei & _ & _ & _ & _ & _ & -> & _)]; eauto. }
  destruct (ACCESS_TOKEN w !! k) as [c|].
  - destruct (truthy (token c)).
    + destruct (num_gtb _ _); rewrite Hcases; [eauto|apply (Hx (tick w) eq_refl)].
    + rewrite Hcases. apply (Hx w eq_refl).
  - rewrite Hcases. apply (Hx w eq_refl).
Qed.

(** Against an identity endpoint that grants tokens with a string form,
    a cache of such tokens stays one, and such a token is what a call
    returns. *)
Lemma token_call_text E k w tok w1 :
  text_tokens E → text_cache w →
  getAccessTokenForInstance E k w = (Ret tok, w1) →
  has_text tok = true ∧ text_cache w1.
Proof.
  intros Hserver Hcache Hcall.
  assert (Hres : resolves E k).
  { destruct (resolves_dec E k) as [?|Hn]; [done|].
    rewrite (not_resolves_throws _ _ _ Hn) in Hcall. done. }
  destruct (getAccessToken_cases E k w Hres) as [payload Hcases].
  assert (Hx : ∀ w0, ACCESS_TOKEN w0 = ACCESS_TOKEN w →
            exchange_credentials E k payload w0 = (Ret tok, w1) →
            has_text tok = true ∧ text_cache w1).
  { intros w0 Hsame Hx.
    destruct (exchange_credentials_cases E k payload w0)
      as (o & w1' & Heq & _ & Hout).
    rewrite Heq in Hx. injection Hx as -> ->.
    destruct Hout as [(Hnull & Hc)
                     |(code & body & json & data & tv & ei & Hnet & Hparse & Hdata
                       & Htok & _ & Hret & _ & _ & _ & _ & Hins)].
    - injection Hnull as ->. split; [done|].
      intros k' c'. rewrite Hc, Hsame. apply Hcache.
    - injection Hret as ->.
      assert (Htext : has_text tv = true) by (eapply Hserver; eauto).
      split; [done|]. intros k' c'. rewrite Hins, Hsame, lookup_insert.
      case_decide; [intros [= <-]; done|apply Hcache]. }
  destruct (ACCESS_TOKEN w !! k) as [c|] eqn:Hc.
  - destruct (truthy (token c)).
    + destruct (num_gtb _ _); rewrite Hcases in Hcall.
      * injection Hcall as <- <-. split; [by eapply Hcache|exact Hcache].
      * by apply (Hx (tick w)).
    + rewrite Hcases in Hcall. by apply (Hx w).
  - rewrite Hcases in Hcall. by apply (Hx w).
Qed.

(** One pass of the loop over a page that arrives with status 200 and
    parses: what it does is [after_page], and one page request went out. *)
Lemma iteration_on_page E qp k st w tok w1 body json total orders :
  getAccessTokenForInstance E k w = (Ret tok, w1) →
  has_text tok = true →
  net E (trace w1) (OrdersPage qp limit (offset st) tok)
  = Answer {| getResponseCode := 200; getContentText := body |} →
  JSON_parse E (VStr body) = Some json →
  member json "total" = Some total →
  member json "orders" = Some orders →
  searchOrders_iteration E qp k st w
  = (Ret (after_page st total orders),
     after_event w1 (EvFetch (OrdersPage qp limit (offset st) tok))).
Proof.
  intros Hcall Htext Hnet Hparse Htotal Horders.
  unfold searchOrders_iteration, bind at 1. rewrite Hcall.
  unfold bind at 1, template. rewrite Htext. unfold ret at 1.
  unfold bind at 1, UrlFetchApp_fetch. rewrite Hnet. simpl.
  unfold bind at 1, parse. rewrite Hparse. simpl.
  unfold bind, get. rewrite Htotal, Horders. reflexivity.
Qed.

Lemma iteration_served E qp k st w orders total :
  resolves E k →
  text_tokens E → text_cache w →
  serves E qp (offset st) orders total →
  ∃ w', searchOrders_iteration E qp k st w = (Ret (after_page st total orders), w') ∧
        text_cache w' ∧
        page_requests (trace w') = page_requests (trace w) ++ [(limit, offset st)].
Proof.
  intros Hres Hserver Hcache Hserves.
  destruct (token_call_quiet E k w Hres) as (tok & w1 & Hcall & Hquiet).
  destruct (token_call_text E k w tok w1 Hserver Hcache Hcall) as [Htext Hcache1].
  destruct (Hserves (trace w1) tok) as (body & json & Hnet & Hparse & Ho & Ht).
  eexists. split; [eapply iteration_on_page; eauto|].
  split; [exact Hcache1|].
  simpl. rewrite page_requests_app, Hquiet. reflexivity.
Qed.

(** A non-empty array under a numeric, non-zero total: the records are
    appended, and the loop goes round again exactly when both the count
    and the next offset are still below the total. *)
Lemma after_page_records st T items :
  T ≠ 0 → items ≠ [] →
  after_page st (VNum T) (VArr items)
  = let st' := {| offset := offset st; allOrders := allOrders st ++ items;
                  totalOrders := T; totalCalls := totalCalls st + 1 |} in
    if T <=? Z.of_nat (length (allOrders st ++ items)) then Break st'
    else
      let st'' := {| offset := offset st + limit; allOrders := allOrders st ++ items;
                     totalOrders := T; totalCalls := totalCalls st + 1 |} in
      if T <=? offset st + limit then Break st'' else Continue st''.
Proof.
  intros HT Hitems. unfold after_page, read_total, no_orders.
  cbn [truthy is_number negb orb member strict_eq_num js_concat String.eqb
       Ascii.eqb Bool.eqb andb].
  destruct (Z.eqb_spec T 0) as [|_]; [done|]. cbn [negb orb].
  destruct (Z.eqb_spec (Z.of_nat (length items)) 0) as [Hz|_].
  { destruct items; [done|simpl in Hz; lia]. }
  cbv zeta.
  destruct (Z.leb_spec T (Z.of_nat (length (allOrders st ++ items)))); [done|].
  destruct (Z.leb_spec T (offset st + limit)); [done|].
  destruct (Z.ltb_spec (Z.of_nat (length (allOrders st ++ items))) T); [done|lia].
Qed.

(** The scripted identity endpoints grant the text [tok1]. *)
Lemma scripted_text_tokens b0 b50 b100 search :
  text_tokens (scripted_env order_texts (order_server b0 b50 b100 search)).
Proof.
  intros h payload code body json data tok Hnet Hparse Hdata Htok.
  simpl in Hnet. unfold ok in Hnet. injection Hnet as <- <-.
  vm_compute in Hparse. injection Hparse as <-.
  vm_compute in Hdata. injection Hdata as <-.
  vm_compute in Htok. by injection Htok as <-.
Qed.

(** C2: with pages of 50, 50 and 20 records served at offsets 0, 50 and
    100, each reporting a total of 120, and tokens that the Authorization
    header can be built from, [searchOrders] sends exactly those three
    page requests and returns the 120 records in the order served. *)
Theorem searchOrders_three_pages (E : Env) (qp k : string) (w : World)
    (p0 p1 p2 : list value) (fuel : nat) :
  k ∈ Instance_values →
  member (INSTANCES E) k ≠ None →
  resolves E k →
  text_tokens E → text_cache w →
  length p0 = 50%nat → length p1 = 50%nat → length p2 = 20%nat →
  serves E qp 0 (VArr p0) (VNum 120) →
  serves E qp 50 (VArr p1) (VNum 120) →
  serves E qp 100 (VArr p2) (VNum 120) →
  (3 ≤ fuel)%nat →
  ∃ w',
    searchOrders E fuel qp k w = (Ret (VArr (p0 ++ p1 ++ p2)), w') ∧
    length (p0 ++ p1 ++ p2) = 120%nat ∧
    page_requests (trace w')
    = page_requests (trace w) ++ [(50, 0); (50, 50); (50, 100)].
Proof.
  intros Hk Hinst Hres Hserver Hcache H0 H1 H2 S0 S1 S2 Hfuel.
  destruct fuel as [|[|[|fuel]]]; try lia.
  unfold searchOrders.
  rewrite bool_decide_eq_true_2 by done. simpl negb. cbv iota.
  unfold bind at 1, get.
  destruct (member (INSTANCES E) k) as [cfg|]; [|done]. simpl.
  unfold bind at 1.
  destruct (token_call_quiet E k w Hres) as (tok & wa & Hcall & Hqa).
  destruct (token_call_text E k w tok wa Hserver Hcache Hcall) as [_ Hca].
  rewrite Hcall.
  unfold bind at 1.
  (* first page *)
  cbn [searchOrders_loop]. unfold bind at 1.
  destruct (iteration_served E qp k loop_start wa (VArr p0) (VNum 120) Hres Hserver
              Hca S0)
    as (wb & -> & Hcb & Hqb).
  rewrite after_page_records by (done || by destruct p0).
  cbn [allOrders offset totalCalls loop_start app]. cbv zeta.
  rewrite H0. change (120 <=? Z.of_nat 50) with false.
  change (120 <=? 0 + limit) with false. cbv iota.
  (* second page *)
  unfold bind at 1.
  match goal with |- context [searchOrders_iteration E qp k ?st wb] =>
    destruct (iteration_served E qp k st wb (VArr p1) (VNum 120) Hres Hserver Hcb S1)
      as (wc & -> & Hcc & Hqc)
  end.
  rewrite after_page_records by (done || by destruct p1).
  cbn [allOrders offset totalCalls]. cbv zeta.
  replace (length (p0 ++ p1)) with 100%nat by (rewrite length_app; lia).
  change (120 <=? Z.of_nat 100) with false.
  change (120 <=? 0 + limit + limit) with false. cbv iota.
  (* third page *)
  unfold bind at 1.
  match goal with |- context [searchOrders_iteration E qp k ?st wc] =>
    destruct (iteration_served E qp k st wc (VArr p2) (VNum 120) Hres Hserver Hcc S2)
      as (wd & -> & _ & Hqd)
  end.
  rewrite after_page_records by (done || by destruct p2).
  cbn [allOrders offset totalCalls]. cbv zeta.
  replace (length ((p0 ++ p1) ++ p2)) with 120%nat by (rewrite !length_app; lia).
  change (120 <=? Z.of_nat 120) with true. cbv iota.
  exists wd. simpl. rewrite <- app_assoc. split; [done|].
  split; [rewrite !length_app; lia|].
  rewrite Hqd, Hqc, Hqb, Hqa. cbn [offset loop_start]. rewrite <- !app_assoc. done.
Qed.

Lemma searchOrders_three_pages_witness :
  ∃ w',
    searchOrders paged_env 3 "in_status_ids=delivered" "Amado" initial_world
    = (Ret (VArr (take 50 records120 ++ take 50 (drop 50 records120)
                  ++ take 50 (drop 100 records120))), w') ∧
    length (take 50 records120 ++ take 50 (drop 50 records120)
            ++ take 50 (drop 100 records120)) = 120%nat ∧
    page_requests (trace w')
    = page_requests (trace initial_world) ++ [(50, 0); (50, 50); (50, 100)].
Proof.
  apply (searchOrders_three_pages paged_env "in_status_ids=delivered" "Amado"
           initial_world).
  - constructor.
  - vm_compute. discriminate.
  - split; vm_compute; discriminate.
  - apply scripted_text_tokens.
  - intros k c Hk. vm_compute in Hk. discriminate.
  - reflexivity.
  - reflexivity.
  - reflexivity.
  - intros h tok. do 2 eexists. split_and!; vm_compute; reflexivity.
  - intros h tok. do 2 eexists. split_and!; vm_compute; reflexivity.
  - intros h tok. do 2 eexists. split_and!; vm_compute; reflexivity.
  - lia.
Defined.



Lemma read_total_ignored prev total : total_ignored total → read_total prev total = prev.
Proof. unfold read_total. intros [-> | ->]; simpl; [done|by rewrite orb_true_r]. Qed.

Lemma js_concat_page acc orders :
  no_orders orders = false → js_concat acc orders = acc ++ page_records orders.
Proof.
  intros Hno. unfold page_records. rewrite Hno. by destruct orders.
Qed.

(** With the total still at 0, the first page is the last one. *)
Lemma after_page_without_total st total orders :
  total_ignored total → totalOrders st = 0 →
  after_page st total orders
  = Break {| offset := offset st; allOrders := allOrders st ++ page_records orders;
             totalOrders := 0; totalCalls := totalCalls st + 1 |}.
Proof.
  intros Hig H0. unfold after_page. rewrite (read_total_ignored _ _ Hig), H0.
  destruct (no_orders orders) eqn:Hno.
  - unfold page_records. rewrite Hno. by rewrite app_nil_r.
  - rewrite (js_concat_page _ _ Hno).
    destruct (Z.leb_spec 0 (Z.of_nat (length (allOrders st ++ page_records orders))));
      [done|lia].
Qed.

(** C7 as stated fails: with no total ever reported and a second,
    non-empty page on offer, the search returns after the first page. *)
Lemma search_without_total_ignores_second_page :
  ∃ w',
    serves silent_env "in_status_ids=delivered" 0 (VArr [order 1]) VUndef ∧
    serves silent_env "in_status_ids=delivered" 50 (VArr [order 2]) VUndef ∧
    searchOrders silent_env 5 "in_status_ids=delivered" "Amado" initial_world
    = (Ret (VArr [order 1]), w') ∧
    page_requests (trace w') = [(50, 0)].
Proof.
  eexists. split_and!.
  - intros h tok. do 2 eexists. split_and!; vm_compute; reflexivity.
  - intros h tok. do 2 eexists. split_and!; vm_compute; reflexivity.
  - vm_compute. reflexivity.
  - vm_compute. reflexivity.
Qed.

(** C7, amended: the total starts at 0, and a response whose [total] is
    absent, zero or not a number leaves it as it was; so when the first
    page reports no usable total the search ends with that page: its
    records are the result and no second page is requested (the tokens
    being such that the Authorization header can be built). *)
Theorem search_without_total_takes_one_page (E : Env) (qp k : string) (w : World)
    (orders total : value) (fuel : nat) :
  k ∈ Instance_values →
  member (INSTANCES E) k ≠ None →
  resolves E k →
  text_tokens E → text_cache w →
  serves E qp 0 orders total →
  total_ignored total →
  (1 ≤ fuel)%nat →
  totalOrders loop_start = 0 ∧
  (∀ st orders' st',
     after_page st total orders' = Continue st' ∨ after_page st total orders' = Break st' →
     totalOrders st' = totalOrders st) ∧
  ∃ w',
    searchOrders E fuel qp k w = (Ret (VArr (page_records orders)), w') ∧
    page_requests (trace w') = page_requests (trace w) ++ [(50, 0)].
Proof.
  intros Hk Hinst Hres Hserver Hcache Hserves Hig Hfuel.
  split; [done|]. split.
  - intros st orders' st' Hc. unfold after_page in Hc.
    rewrite (read_total_ignored _ _ Hig) in Hc.
    repeat case_match; destruct Hc as [Hc|Hc]; by simplify_eq.
  - destruct fuel as [|fuel]; [lia|].
    unfold searchOrders.
    rewrite bool_decide_eq_true_2 by done. simpl negb. cbv iota.
    unfold bind at 1, get.
    destruct (member (INSTANCES E) k) as [cfg|]; [|done]. simpl.
    unfold bind at 1.
    destruct (token_call_quiet E k w Hres) as (tok & wa & Hcall & Hqa).
    destruct (token_call_text E k w tok wa Hserver Hcache Hcall) as [_ Hca].
    rewrite Hcall.
    unfold bind at 1. cbn [searchOrders_loop]. unfold bind at 1.
    destruct (iteration_served E qp k loop_start wa orders total Hres Hserver Hca
                Hserves)
      as (wb & -> & _ & Hqb).
    rewrite after_page_without_total by done.
    eexists. split; [reflexivity|]. by rewrite Hqb, Hqa.
Qed.

Lemma search_without_total_takes_one_page_witness :
  ∃ w',
    searchOrders silent_env 5 "in_status_ids=delivered" "Amado" initial_world
    = (Ret (VArr (page_records (VArr [order 1]))), w') ∧
    page_requests (trace w') = page_requests (trace initial_world) ++ [(50, 0)].
Proof.
  refine (proj2 (proj2 (search_without_total_takes_one_page silent_env
                          "in_status_ids=delivered" "Amado" initial_world
                          (VArr [order 1]) VUndef 5 _ _ _ _ _ _ _ _))).
  - constructor.
  - vm_compute. discriminate.
  - split; vm_compute; discriminate.
  - apply scripted_text_tokens.
  - intros k c Hk. vm_compute in Hk. discriminate.
  - intros h tok. do 2 eexists. split_and!; vm_compute; reflexivity.
  - left. reflexivity.
  - lia.
Defined.

(** A pass that does not end in [return null] read a page. *)
Lemma iteration_inv E qp k st w c w' :
  searchOrders_iteration E qp k st w = (Ret c, w') →
  c = ReturnNull ∨
  ∃ tok w1 body json total orders,
    getAccessTokenForInstance E k w = (Ret tok, w1) ∧
    has_text tok = true ∧
    net E (trace w1) (OrdersPage qp limit (offset st) tok)
    = Answer {| getResponseCode := 200; getContentText := body |} ∧
    JSON_parse E (VStr body) = Some json ∧
    member json "total" = Some total ∧
    member json "orders" = Some orders ∧
    c = after_page st total orders.
Proof.
  unfold searchOrders_iteration, bind at 1.
  destruct (getAccessTokenForInstance E k w) as [[tok| |] w1] eqn:Hcall; try done.
  unfold bind at 1, template.
  destruct (has_text tok) eqn:Htext; try done. unfold ret at 1.
  unfold bind at 1, UrlFetchApp_fetch.
  destruct (net E (trace w1) _) as [[code body]|] eqn:Hnet; try done. simpl.
  destruct (Z.eqb_spec code 200) as [->|]; simpl; [|intros [= <- <-]; by left].
  unfold bind at 1, parse.
  destruct (JSON_parse E (VStr body)) as [json|] eqn:Hparse; try done. simpl.
  unfold bind, get.
  destruct (member json "total") as [total|] eqn:Ht; try done. simpl.
  destruct (member json "orders") as [orders|] eqn:Ho; try done. simpl.
  intros [= <- <-]. right. by exists tok, w1, body, json, total, orders.
Qed.

Lemma after_page_within_total T st orders :
  0 ≤ T →
  within_total T st →
  Z.of_nat (length (page_records orders)) ≤ Z.min limit (Z.max 0 (T - offset st)) →
  match after_page st (VNum T) orders with
  | Continue st' => within_total T st'
  | Break st' => bounded T st'
  | ReturnNull => True
  end.
Proof.
  intros HT (Hoff & Htot & Hcases) Hpage.
  assert (Hread : read_total (totalOrders st) (VNum T) = T).
  { unfold read_total. simpl. destruct (Z.eqb_spec T 0) as [->|]; simpl; [lia|done]. }
  unfold after_page. rewrite Hread.
  destruct (no_orders orders) eqn:Hno.
  - unfold bounded. simpl. split; [lia|by left].
  - rewrite (js_concat_page _ _ Hno).
    assert (Hlen : Z.of_nat (length (allOrders st ++ page_records orders))
                   = Z.of_nat (length (allOrders st))
                     + Z.of_nat (length (page_records orders)))
      by (rewrite length_app; lia).
    unfold limit in *.
    destruct (Z.leb_spec T (Z.of_nat (length (allOrders st ++ page_records orders)))).
    { unfold bounded. simpl. split; [lia|by left]. }
    destruct (Z.leb_spec T (offset st + 50)).
    { unfold bounded. simpl. split; [lia|by left]. }
    destruct (Z.ltb_spec (Z.of_nat (length (allOrders st ++ page_records orders))) T);
      unfold within_total, bounded; simpl; (split_and!; [lia..|by left]).
Qed.

Lemma iteration_within_total E qp k T st w c w' :
  consistent E qp T →
  within_total T st →
  searchOrders_iteration E qp k st w = (Ret c, w') →
  match c with
  | Continue st' => within_total T st'
  | Break st' => bounded T st'
  | ReturnNull => True
  end.
Proof.
  intros [HT Hcons] Hinv Hrun.
  apply iteration_inv in Hrun
    as [->|(tok & w1 & body & json & total & orders & _ & _ & Hnet & Hparse & Ht & Ho
            & ->)];
    [done|].
  destruct (Hcons _ _ _ _ _ Hnet Hparse) as [Htotal Hpage].
  rewrite (Htotal _ Ht).
  apply after_page_within_total; eauto.
Qed.

Lemma loop_run_within_total E qp k T st w st' w' :
  consistent E qp T →
  loop_run E qp k st w st' w' →
  within_total T st → within_total T st'.
Proof.
  intros Hcons Hrun. induction Hrun as [|st w st1 w1 st2 w2 Hstep _ IH]; [done|].
  intros Hinv. apply IH.
  apply (iteration_within_total E qp k T st w _ w1 Hcons Hinv Hstep).
Qed.

(** A run of the loop that returns a state came round some number of
    times and then broke out. *)
Lemma loop_result_run E fuel qp k st w st' w' :
  searchOrders_loop E fuel qp k st w = (Ret (Some st'), w') →
  ∃ stk wk, loop_run E qp k st w stk wk ∧
            searchOrders_iteration E qp k stk wk = (Ret (Break st'), w').
Proof.
  revert st w. induction fuel as [|fuel IH]; intros st w; simpl; [done|].
  unfold bind.
  destruct (searchOrders_iteration E qp k st w) as [[[st1|st1|]| |] w1] eqn:Hit; try done.
  - intros Hrec. apply IH in Hrec as (stk & wk & Hrun & Hbreak).
    exists stk, wk. split; [|done]. econstructor; eauto.
  - intros [= <- <-]. exists st, w. split; [constructor|done].
Qed.

Lemma searchOrders_array_inv E fuel qp k w items w' :
  searchOrders E fuel qp k w = (Ret (VArr items), w') →
  ∃ w0 st, searchOrders_loop E fuel qp k loop_start w0 = (Ret (Some st), w') ∧
           items = allOrders st.
Proof.
  unfold searchOrders. case_match; [done|].
  unfold bind at 1. destruct (get _ _ w) as [[cfg| |] wa]; try done.
  unfold bind at 1.
  destruct (getAccessTokenForInstance E k wa) as [[tok| |] wb]; try done.
  unfold bind.
  destruct (searchOrders_loop E fuel qp k loop_start wb) as [[[st|]| |] wc] eqn:Hloop;
    try done.
  intros [= <- <-]. eauto.
Qed.

Lemma bounded_by_total T st :
  0 ≤ T → bounded T st → Z.of_nat (length (allOrders st)) ≤ T.
Proof. intros HT (Htot & [Heq|Heq]); lia. Qed.

Lemma within_total_start T : within_total T loop_start.
Proof. unfold within_total, bounded. simpl. split_and!; [done|done|by right]. Qed.

(** C6 as stated fails: a first page that reports a total of 1 and carries
    two orders is appended whole, and two records are returned. *)
Lemma overfull_page_exceeds_total :
  ∃ w',
    serves greedy_env "in_status_ids=delivered" 0 (VArr [order 1; order 2]) (VNum 1) ∧
    searchOrders greedy_env 1 "in_status_ids=delivered" "Amado" initial_world
    = (Ret (VArr [order 1; order 2]), w') ∧
    ¬ Z.of_nat (length [order 1; order 2]) ≤ 1.
Proof.
  eexists. split_and!.
  - intros h tok. do 2 eexists. split_and!; vm_compute; reflexivity.
  - vm_compute. reflexivity.
  - simpl. lia.
Qed.

(** C6, amended: against a server that reports one total [T] on every page
    and never sends more than [min(limit, T - offset)] records, the records
    gathered never outnumber the total the loop holds, which never exceeds
    [T]: at the top of every pass, on leaving the loop, and in the array
    returned. *)
Theorem accumulated_within_consistent_total (E : Env) (qp k : string) (T : Z) :
  consistent E qp T →
  (∀ w st w1,
     loop_run E qp k loop_start w st w1 →
     Z.of_nat (length (allOrders st)) ≤ totalOrders st ∧ totalOrders st ≤ T)
  ∧
  (∀ w st w1 st' w',
     loop_run E qp k loop_start w st w1 →
     searchOrders_iteration E qp k st w1 = (Ret (Break st'), w') →
     Z.of_nat (length (allOrders st')) ≤ totalOrders st' ∧ totalOrders st' ≤ T)
  ∧
  (∀ fuel w items w',
     searchOrders E fuel qp k w = (Ret (VArr items), w') →
     Z.of_nat (length items) ≤ T).
Proof.
  intros Hcons. pose proof Hcons as [HT _].
  assert (Hb : ∀ st, bounded T st →
            Z.of_nat (length (allOrders st)) ≤ totalOrders st ∧ totalOrders st ≤ T).
  { intros st [Hlen [Heq|Heq]]; split; lia. }
  assert (Htop : ∀ w st w1, loop_run E qp k loop_start w st w1 → within_total T st).
  { intros w st w1 Hrun.
    eapply loop_run_within_total; eauto using within_total_start. }
  assert (Hout : ∀ w st w1 st' w',
            loop_run E qp k loop_start w st w1 →
            searchOrders_iteration E qp k st w1 = (Ret (Break st'), w') →
            bounded T st').
  { intros w st w1 st' w' Hrun Hbreak.
    apply (iteration_within_total E qp k T st w1 _ w' Hcons (Htop _ _ _ Hrun) Hbreak). }
  split_and!.
  - intros w st w1 Hrun. apply Hb. by destruct (Htop _ _ _ Hrun).
  - intros w st w1 st' w' Hrun Hbreak. apply Hb. eauto.
  - intros fuel w items w' Hsearch.
    apply searchOrders_array_inv in Hsearch as (w0 & st & Hloop & ->).
    apply loop_result_run in Hloop as (stk & wk & Hrun & Hbreak).
    apply bounded_by_total; eauto.
Qed.

Lemma paged_env_consistent qp : consistent paged_env qp 120.
Proof.
  split; [lia|].
  intros h tok o body json Hnet Hparse. simpl in Hnet. unfold ok, status in Hnet.
  destruct (Z.eqb_spec o 0) as [->|];
    [|destruct (Z.eqb_spec o 50) as [->|];
      [|destruct (Z.eqb_spec o 100) as [->|]]];
    simplify_eq; vm_compute in Hparse; simplify_eq;
    (split; [intros total [= <-]; reflexivity
            |intros orders [= <-]; vm_compute; discriminate]).
Qed.

Lemma accumulated_within_consistent_total_witness :
  ∃ items w',
    searchOrders paged_env 3 "in_status_ids=delivered" "Amado" initial_world
    = (Ret (VArr items), w') ∧
    Z.of_nat (length items) ≤ 120.
Proof.
  do 2 eexists. split; [vm_compute; reflexivity|].
  refine (proj2 (proj2 (accumulated_within_consistent_total paged_env
                          "in_status_ids=delivered" "Amado" 120
                          (paged_env_consistent _))) 3%nat initial_world _ _ _).
  vm_compute. reflexivity.
Defined.

(** A stale total: 120 announced, two orders delivered, then a page with no
    [orders]; the two orders are the result, after two page requests. *)
Example searchOrders_stale_total :
  let run := searchOrders stale_env 5 "in_status_ids=delivered" "Amado" initial_world in
  run.1 = Ret (VArr [order 1; order 2]) ∧
  page_requests (trace run.2) = [(50, 0); (50, 50)].
Proof. vm_compute. done. Qed.

(** An instance outside the [Instance] enumeration: [null], and nothing
    is sent. *)
Example searchOrders_invalid_instance :
  searchOrders paged_env 5 "in_status_ids=delivered" "Nowhere" initial_world
  = (Ret VNull, initial_world).
Proof. reflexivity. Qed.

(** * Further properties of the token cache *)

(** What a call may append to the trace: nothing, or one request to the
    identity endpoint. *)
Lemma token_call_trace E k w o w' :
  getAccessTokenForInstance E k w = (o, w') →
  trace w' = trace w ∨ ∃ payload, trace w' = trace w ++ [EvFetch (TokenRequest payload)].
Proof.
  intros Hcall.
  destruct (resolves_dec E k) as [Hres|Hn].
  2: { rewrite (not_resolves_throws _ _ _ Hn) in Hcall. simplify_eq. by left. }
  destruct (getAccessToken_cases E k w Hres) as [payload Hcases].
  assert (Hx : ∀ w0, trace w0 = trace w →
            exchange_credentials E k payload w0 = (o, w') →
            ∃ payload, trace w' = trace w ++ [EvFetch (TokenRequest payload)]).
  { intros w0 Htr Hx.
    destruct (exchange_credentials_cases E k payload w0) as (o1 & w1 & Heq & Htrace & _).
    rewrite Heq in Hx. simplify_eq. exists payload. by rewrite Htrace, Htr. }
  destruct (ACCESS_TOKEN w !! k) as [c|].
  - destruct (truthy (token c)).
    + destruct (num_gtb _ _); rewrite Hcases in Hcall.
      * simplify_eq. by left.
      * right. by apply (Hx (tick w)).
    + rewrite Hcases in Hcall. right. by apply (Hx w).
  - rewrite Hcases in Hcall. right. by apply (Hx w).
Qed.

Lemma token_call_returns E k w :
  resolves E k →
  ∃ v w', getAccessTokenForInstance E k w = (Ret v, w') ∧
          (v = VNull ∨ truthy v = true).
Proof.
  intros Hres.
  destruct (getAccessTokenForInstance E k w) as [o w'] eqn:Hcall.
  destruct (getAccessToken_cases E k w Hres) as [payload Hcases].
  assert (Hx : ∀ w0, exchange_credentials E k payload w0 = (o, w') →
            ∃ v, o = Ret v ∧ (v = VNull ∨ truthy v = true)).
  { intros w0 Hx.
    destruct (exchange_credentials_cases E k payload w0)
      as (o1 & w1 & Heq & _ & [(-> & _)|(? & ? & ? & ? & tv & ei & _ & _ & _ & _ & _ & -> & Htv & _)]);
      rewrite Heq in Hx; simplify_eq; eauto. }
  assert (Hv : ∃ v, o = Ret v ∧ (v = VNull ∨ truthy v = true)).
  { destruct (ACCESS_TOKEN w !! k) as [c|].
    - destruct (truthy (token c)) eqn:Htc.
      + destruct (num_gtb _ _); rewrite Hcall in Hcases.
        * simplify_eq. eauto.
        * symmetry in Hcases. eauto.
      + rewrite Hcall in Hcases. symmetry in Hcases. eauto.
    - rewrite Hcall in Hcases. symmetry in Hcases. eauto. }
  destruct Hv as (v & -> & Hv). eauto.
Qed.

Lemma token_call_ends E k w :
  getAccessTokenForInstance E k w = (Throw TypeError, w)
  ∨ ∃ v w', getAccessTokenForInstance E k w = (Ret v, w').
Proof.
  destruct (resolves_dec E k) as [Hres|Hn].
  - right. destruct (token_call_returns E k w Hres) as (v & w' & Hcall & _). eauto.
  - left. by apply not_resolves_throws.
Qed.

(** X1: the call ends in one of two ways. Without a configuration to
    destructure it raises a TypeError and leaves the world as it was.
    Otherwise it returns, and what it returns is [null] or a truthy token,
    so that the callers' test [if (!accessToken)] separates the two; it has
    then sent nothing or a single request to the identity endpoint. *)
Theorem token_call_outcomes (E : Env) (k : string) (w : World) :
  (¬ resolves E k ∧ getAccessTokenForInstance E k w = (Throw TypeError, w))
  ∨
  (resolves E k ∧
   ∃ v w',
     getAccessTokenForInstance E k w = (Ret v, w') ∧
     (v = VNull ∨ truthy v = true) ∧
     (trace w' = trace w
      ∨ ∃ payload, trace w' = trace w ++ [EvFetch (TokenRequest payload)])).
Proof.
  destruct (resolves_dec E k) as [Hres|Hn].
  2: { left. split; [done|]. by apply not_resolves_throws. }
  right. split; [done|].
  destruct (token_call_returns E k w Hres) as (v & w' & Hcall & Hv).
  pose proof (token_call_trace E k w _ w' Hcall) as Htrace.
  eauto 10.
Qed.

(** X2: a call for one instance leaves the cached tokens of every other
    instance as they were; and a call that does not return a token (it
    returns [null], or raises) leaves the whole cache as it was: a stale
    entry is not evicted. *)
Theorem token_call_frame (E : Env) (k : string) (w : World) :
  let run := getAccessTokenForInstance E k w in
  (∀ k', k' ≠ k → ACCESS_TOKEN run.2 !! k' = ACCESS_TOKEN w !! k')
  ∧
  ((run.1 = Ret VNull ∨ ∃ e, run.1 = Throw e) → ACCESS_TOKEN run.2 = ACCESS_TOKEN w).
Proof.
  intros run. subst run.
  destruct (resolves_dec E k) as [Hres|Hn].
  2: { rewrite (not_resolves_throws _ _ _ Hn). done. }
  destruct (getAccessToken_cases E k w Hres) as [payload Hcases].
  assert (Hx : ∀ w0, ACCESS_TOKEN w0 = ACCESS_TOKEN w →
            let run := exchange_credentials E k payload w0 in
            (∀ k', k' ≠ k → ACCESS_TOKEN run.2 !! k' = ACCESS_TOKEN w !! k')
            ∧ ((run.1 = Ret VNull ∨ ∃ e, run.1 = Throw e) →
               ACCESS_TOKEN run.2 = ACCESS_TOKEN w)).
  { intros w0 Hsame. simpl.
    destruct (exchange_credentials_cases E k payload w0)
      as (o1 & w1 & Heq & _ & [(-> & Hc)|(? & ? & ? & ? & tv & ei & _ & _ & _ & _ & _ & -> & Htv & _ & _ & _ & Hins)]);
      rewrite Heq; simpl.
    - rewrite Hc, Hsame. done.
    - split.
      + intros k' Hne. rewrite Hins, Hsame. by apply lookup_insert_ne.
      + intros [[= ->]|[e [=]]]. done. }
  destruct (ACCESS_TOKEN w !! k) as [c|] eqn:Hc.
  - destruct (truthy (token c)) eqn:Htc.
    + destruct (num_gtb _ _); rewrite Hcases; [done|]. by apply (Hx (tick w)).
    + rewrite Hcases. by apply (Hx w).
  - rewrite Hcases. by apply (Hx w).
Qed.

(** Without a live token the call is the exchange. *)
Lemma token_call_miss E k w :
  resolves E k → ¬ live E k w →
  ∃ payload,
    getAccessTokenForInstance E k w = exchange_credentials E k payload (at_exchange k w).
Proof.
  intros Hres Hdead.
  destruct (getAccessToken_cases E k w Hres) as [payload Hcases].
  exists payload. unfold at_exchange.
  destruct (ACCESS_TOKEN w !! k) as [c|] eqn:Hc; [|done].
  destruct (truthy (token c)); [|done].
  destruct (num_gtb (expires_at c) (Fin (clock E (ticks w)))) eqn:Hgt; [|done].
  exfalso. apply Hdead. by exists c.
Qed.

Lemma at_exchange_trace k w : trace (at_exchange k w) = trace w.
Proof. unfold at_exchange. by repeat case_match. Qed.

Lemma at_exchange_cache k w : ACCESS_TOKEN (at_exchange k w) = ACCESS_TOKEN w.
Proof. unfold at_exchange. by repeat case_match. Qed.

(** X3: refresh: when the cache holds no live token for the instance (none,
    or an expired one) and the identity endpoint answers 2xx with a truthy
    [access_token] and [expires_in], the call sends one request. If
    [expires_in] converts to a number, the call returns the new token and
    overwrites the instance's cache entry with it and with the expiry
    [Date.now() + expires_in * 1000], in the arithmetic of doubles. If the
    conversion raises, the call returns [null] and the cache is left as it
    was. *)
Theorem expired_token_refreshed (E : Env) (k : string) (w : World)
    (code : Z) (body : string) (json data tok expiresIn : value) :
  resolves E k →
  ¬ live E k w →
  (∀ payload,
     net E (trace w) (TokenRequest payload)
     = Answer {| getResponseCode := code; getContentText := body |}) →
  200 ≤ code < 300 →
  JSON_parse E (VStr body) = Some json →
  member json "data" = Some data →
  member data "access_token" = Some tok → truthy tok = true →
  member data "expires_in" = Some expiresIn → truthy expiresIn = true →
  ∃ w' payload,
    (if has_text expiresIn then
       getAccessTokenForInstance E k w = (Ret tok, w') ∧
       ACCESS_TOKEN w'
       = <[k := {| token := tok;
                   expires_at := num_add (Fin (clock E (pred (ticks w'))))
                                   (num_mul (number_of E expiresIn) (Fin 1000)) |}]>
           (ACCESS_TOKEN w)
     else
       getAccessTokenForInstance E k w = (Ret VNull, w') ∧
       ACCESS_TOKEN w' = ACCESS_TOKEN w)
    ∧ trace w' = trace w ++ [EvFetch (TokenRequest payload)].
Proof.
  intros Hres Hdead Hnet Hcode Hparse Hdata Htok Htokt Hexp Hexpt.
  destruct (token_call_miss E k w Hres Hdead) as [payload ->].
  pose proof (at_exchange_trace k w) as Htr.
  pose proof (at_exchange_cache k w) as Hca.
  set (w0 := at_exchange k w) in *.
  cbv [exchange_credentials try_catch bind UrlFetchApp_fetch].
  rewrite Htr, Hnet. simpl.
  replace (200 <=? code) with true by lia.
  replace (code <? 300) with true by lia. simpl.
  unfold parse. rewrite Hparse. simpl.
  unfold get. rewrite Hdata. simpl. rewrite Htok. simpl. rewrite Hexp. simpl.
  rewrite Htokt, Hexpt. simpl. unfold to_number.
  destruct (has_text expiresIn); simpl.
  - do 2 eexists. split; [split; [reflexivity|simpl; by rewrite Hca]|].
    simpl. by rewrite Htr.
  - do 2 eexists. split; [split; [reflexivity|simpl; by rewrite Hca]|].
    simpl. by rewrite Htr.
Qed.

Lemma expired_token_refreshed_witness :
  ∃ w' payload,
    (getAccessTokenForInstance demo_env "Amado" expired_world = (Ret (VStr "tok1"), w') ∧
     ACCESS_TOKEN w'
     = <["Amado"%string :=
           {| token := VStr "tok1";
              expires_at := num_add (Fin (clock demo_env (pred (ticks w'))))
                              (num_mul (number_of demo_env (VNum 10)) (Fin 1000)) |}]>
         (ACCESS_TOKEN expired_world))
    ∧ trace w' = trace expired_world ++ [EvFetch (TokenRequest payload)].
Proof.
  apply (expired_token_refreshed demo_env "Amado" expired_world 200 "token.json"
           (VObj [("data", VObj [("access_token", VStr "tok1");
                                 ("expires_in", VNum 10)])]%string)
           (VObj [("access_token", VStr "tok1"); ("expires_in", VNum 10)]%string)
           (VStr "tok1") (VNum 10)).
  - split; vm_compute; discriminate.
  - intros (c & Hc & Hgt). vm_compute in Hc. by simplify_eq.
  - reflexivity.
  - lia.
  - vm_compute. reflexivity.
  - reflexivity.
  - reflexivity.
  - reflexivity.
  - reflexivity.
  - reflexivity.
Defined.

(** * Further properties of the paginated search *)



Lemma searchOrders_loop_honest E qp k records p :
  resolves E k →
  text_tokens E →
  honest E qp records →
  (50 * (p - 1) < length records ≤ 50 * p)%nat →
  ∀ fuel i st w,
    text_cache w →
    (50 * i < length records)%nat →
    (p - i ≤ fuel)%nat →
    offset st = 50 * Z.of_nat i →
    allOrders st = take (50 * i) records →
    ∃ st' w',
      searchOrders_loop E fuel qp k st w = (Ret (Some st'), w') ∧
      allOrders st' = records ∧
      page_requests (trace w') = page_requests (trace w) ++ page_sequence i (p - i).
Proof.
  intros Hres Hserver Hhonest Hp.
  induction fuel as [|fuel IH]; intros i st w Hcache Hi Hfuel Hoff Hacc; [lia|].
  cbn [searchOrders_loop]. unfold bind at 1.
  pose proof (Hhonest i (or_intror Hi)) as Hserves. rewrite <- Hoff in Hserves.
  destruct (iteration_served E qp k st w _ _ Hres Hserver Hcache Hserves)
    as (w1 & -> & Hcache1 & Hq).
  set (page := take 50 (drop (50 * i) records)) in *.
  assert (Hpage : page ≠ []).
  { intros Hnil. apply (f_equal length) in Hnil. subst page.
    rewrite length_take, length_drop in Hnil. change (length []) with 0%nat in Hnil.
    lia. }
  rewrite after_page_records by (done || lia).
  rewrite Hacc. subst page. rewrite take_take_drop.
  assert (Hlen : length (take (50 * i + 50) records)
                 = Nat.min (50 * i + 50) (length records)) by apply length_take.
  cbv zeta.
  destruct (Z.leb_spec (Z.of_nat (length records))
              (Z.of_nat (length (take (50 * i + 50) records)))) as [Hdone|Hmore].
  - exists {| offset := offset st; allOrders := take (50 * i + 50) records;
              totalOrders := Z.of_nat (length records); totalCalls := totalCalls st + 1 |}, w1.
    split; [done|]. split; [cbn [allOrders]; apply take_ge; lia|].
    rewrite Hq, Hoff. replace (p - i)%nat with 1%nat by lia. done.
  - assert (Hnext : (50 * i + 50 < length records)%nat) by lia.
    destruct (Z.leb_spec (Z.of_nat (length records)) (offset st + limit)) as [Hbad|_].
    { unfold limit in Hbad. lia. }
    set (st1 := {| offset := offset st + limit; allOrders := take (50 * i + 50) records;
                   totalOrders := Z.of_nat (length records);
                   totalCalls := totalCalls st + 1 |}).
    destruct (IH (S i) st1 w1) as (st' & w' & Hloop & Hall & Hreq).
    + done.
    + lia.
    + lia.
    + cbn [offset st1]. unfold limit. lia.
    + cbn [allOrders st1]. f_equal. lia.
    + exists st', w'. split; [done|]. split; [done|].
      rewrite Hreq, Hq, Hoff, <- app_assoc. f_equal.
      replace (p - i)%nat with (S (p - S i)) by lia. done.
Qed.

(** X5: completeness of the pagination: against a server that holds [records]
    and answers every page truthfully, with tokens that the Authorization
    header can be built from, [searchOrders] returns exactly [records], in
    order, after one page request per fifty records (rounded up; one
    request when there are none), at offsets 0, 50, 100, ... *)
Theorem searchOrders_complete (E : Env) (qp k : string) (w : World)
    (records : list value) (p fuel : nat) :
  k ∈ Instance_values →
  member (INSTANCES E) k ≠ None →
  resolves E k →
  text_tokens E → text_cache w →
  honest E qp records →
  pages_for (length records) p →
  (p ≤ fuel)%nat →
  ∃ w',
    searchOrders E fuel qp k w = (Ret (VArr records), w') ∧
    page_requests (trace w') = page_requests (trace w) ++ page_sequence 0 p.
Proof.
  intros Hk Hinst Hres Hserver Hcache Hhonest Hpages Hfuel.
  unfold searchOrders.
  rewrite bool_decide_eq_true_2 by done. simpl negb. cbv iota.
  unfold bind at 1, get.
  destruct (member (INSTANCES E) k) as [cfg|]; [|done]. simpl.
  unfold bind at 1.
  destruct (token_call_quiet E k w Hres) as (tok & wa & Hcall & Hqa).
  destruct (token_call_text E k w tok wa Hserver Hcache Hcall) as [_ Hca].
  rewrite Hcall.
  unfold bind at 1.
  destruct Hpages as [[Hzero ->]|Hpages].
  - (* no records: the first page is empty *)
    destruct fuel as [|fuel]; [lia|].
    cbn [searchOrders_loop]. unfold bind at 1.
    pose proof (Hhonest 0%nat (or_introl eq_refl)) as Hserves.
    destruct records; [|done]. simpl in Hserves.
    destruct (iteration_served E qp k loop_start wa _ _ Hres Hserver Hca Hserves)
      as (wb & -> & _ & Hqb).
    eexists. split; [reflexivity|]. by rewrite Hqb, Hqa.
  - destruct (searchOrders_loop_honest E qp k records p Hres Hserver Hhonest Hpages
                fuel 0%nat loop_start wa) as (st' & w' & -> & Hall & Hreq);
      [done|lia|lia|done|done|].
    exists w'. simpl. rewrite Hall. split; [done|].
    by rewrite Hreq, Hqa, Nat.sub_0_r.
Qed.

Lemma paged_env_honest qp : honest paged_env qp records120.
Proof.
  intros i Hi h tok.
  assert (Hcases : i = 0%nat ∨ i = 1%nat ∨ i = 2%nat).
  { change (length records120) with 120%nat in Hi. lia. }
  destruct Hcases as [-> | [-> | ->]];
    do 2 eexists; split_and!; vm_compute; reflexivity.
Qed.

Lemma searchOrders_complete_witness :
  ∃ w',
    searchOrders paged_env 3 "in_status_ids=delivered" "Amado" initial_world
    = (Ret (VArr records120), w') ∧
    page_requests (trace w')
    = page_requests (trace initial_world) ++ page_sequence 0 3.
Proof.
  apply (searchOrders_complete paged_env "in_status_ids=delivered" "Amado"
           initial_world records120 3 3).
  - constructor.
  - vm_compute. discriminate.
  - split; vm_compute; discriminate.
  - apply scripted_text_tokens.
  - intros k c Hk. vm_compute in Hk. discriminate.
  - apply paged_env_honest.
  - right. change (length records120) with 120%nat. lia.
  - lia.
Defined.

(** A pass of the loop does not run dry, and sends one page request or,
    when the token call or the Authorization header raises, none. *)
Lemma iteration_requests E qp k st w o w1 :
  searchOrders_iteration E qp k st w = (o, w1) →
  o ≠ Timeout ∧
  (page_requests (trace w1) = page_requests (trace w)
   ∨ page_requests (trace w1) = page_requests (trace w) ++ [(limit, offset st)]).
Proof.
  unfold searchOrders_iteration, bind at 1.
  destruct (getAccessTokenForInstance E k w) as [ot wt] eqn:Hcall.
  assert (Hq : page_requests (trace wt) = page_requests (trace w)).
  { destruct (token_call_trace E k w ot wt Hcall) as [->|[payload ->]]; [done|].
    rewrite page_requests_app. simpl. apply app_nil_r. }
  destruct (token_call_ends E k w) as [Hthrow|(v & w' & Hret)];
    rewrite Hcall in *; simplify_eq.
  { intros Heq; cbv [ret throw] in Heq; simplify_eq. split; [done|by left]. }
  unfold bind at 1, template.
  destruct (has_text v).
  2: { intros Heq; cbv [ret throw] in Heq; simplify_eq. split; [done|by left]. }
  unfold ret at 1.
  unfold bind at 1, UrlFetchApp_fetch.
  assert (Hq2 : page_requests
                  (trace (after_event w' (EvFetch (OrdersPage qp limit (offset st) v))))
                = page_requests (trace w) ++ [(limit, offset st)]).
  { simpl. by rewrite page_requests_app, Hq. }
  destruct (net E (trace w') _) as [[code body]|].
  2: { intros Heq; cbv [ret throw] in Heq; simplify_eq. split; [done|by right]. }
  cbn [getResponseCode getContentText].
  destruct (negb (code =? 200)).
  { intros Heq; cbv [ret throw] in Heq; simplify_eq. split; [done|by right]. }
  unfold bind at 1, parse.
  destruct (JSON_parse E (VStr body)) as [json|].
  2: { intros Heq; cbv [ret throw] in Heq; simplify_eq. split; [done|by right]. }
  simpl. unfold bind, get.
  destruct (member json "total"); [|intros Heq; cbv [ret throw] in Heq; simplify_eq; split; [done|by right]].
  simpl.
  destruct (member json "orders"); intros Heq; cbv [ret throw] in Heq; simplify_eq;
    (split; [done|by right]).
Qed.

(** Going round again moves the offset on by [limit] and leaves it below
    the server's total. *)
Lemma continue_progress E qp k T st w st' w1 :
  consistent E qp T →
  within_total T st →
  searchOrders_iteration E qp k st w = (Ret (Continue st'), w1) →
  offset st' = offset st + limit ∧ offset st' < T ∧ within_total T st'.
Proof.
  intros Hcons Hinv Hrun.
  pose proof (iteration_within_total E qp k T st w _ w1 Hcons Hinv Hrun) as Hinv'.
  simpl in Hinv'.
  apply iteration_inv in Hrun
    as [?|(tok & w0 & body & json & total & orders & _ & _ & Hnet & Hparse & Ht & Ho
           & Hafter)];
    [done|].
  destruct Hcons as [HT Hcons].
  destruct (Hcons _ _ _ _ _ Hnet Hparse) as [Htotal _].
  rewrite (Htotal _ Ht) in Hafter.
  destruct Hinv as (Hoff & Htot & Hcases).
  destruct Hinv' as (Hoff' & Htot' & Hcases').
  unfold after_page in Hafter.
  repeat case_match; simplify_eq. simpl in *.
  split; [done|]. split; [|done].
  unfold limit in *. destruct Hcases' as [Heq|Heq]; lia.
Qed.

Lemma searchOrders_loop_bounded E qp k T :
  consistent E qp T →
  ∀ fuel (b : nat) st w o w',
    within_total T st →
    T - offset st ≤ 50 * Z.of_nat b →
    (1 ≤ b)%nat →
    searchOrders_loop E fuel qp k st w = (o, w') →
    ∃ reqs,
      page_requests (trace w') = page_requests (trace w) ++ reqs ∧
      (length reqs ≤ b)%nat ∧
      ((b ≤ fuel)%nat → o ≠ Timeout).
Proof.
  intros Hcons.
  induction fuel as [|fuel IH]; intros b st w o w' Hinv Hb Hb1 Hrun.
  { simpl in Hrun. simplify_eq. exists []. rewrite app_nil_r.
    split_and!; [done|simpl; lia|lia]. }
  cbn [searchOrders_loop] in Hrun. unfold bind in Hrun.
  destruct (searchOrders_iteration E qp k st w) as [oi w1] eqn:Hit.
  destruct (iteration_requests E qp k st w oi w1 Hit) as [Hnt Hreq].
  assert (Hlast : o ≠ Timeout → w' = w1 →
            ∃ reqs, page_requests (trace w') = page_requests (trace w) ++ reqs ∧
                    (length reqs ≤ b)%nat ∧ ((b ≤ S fuel)%nat → o ≠ Timeout)).
  { intros Ho ->.
    destruct Hreq as [->| ->].
    - exists []. rewrite app_nil_r. split_and!; [done|simpl; lia|done].
    - eexists. split_and!; [done|simpl; lia|done]. }
  destruct oi as [[st1|st1|]| |]; cbv [ret] in Hrun; [|by simplify_eq; apply Hlast..].
  destruct (continue_progress E qp k T st w st1 w1 Hcons Hinv Hit)
    as (Hoff & Hlt & Hinv1).
  unfold limit in Hoff.
  destruct (IH (b - 1)%nat st1 w1 o w' Hinv1) as (reqs & Hq & Hlen & Hfuel); [lia|lia|done|].
  destruct Hreq as [Hq1|Hq1]; rewrite Hq1 in Hq.
  - exists reqs. split_and!; [done|lia|intros; apply Hfuel; lia].
  - exists ((limit, offset st) :: reqs). rewrite <- app_assoc in Hq.
    split_and!; [done|simpl; lia|intros; apply Hfuel; lia].
Qed.

(** X6: termination and cost of the pagination: against a server that reports
    one total [T] on every page and never sends more than
    [min(limit, T - offset)] records, the search ends after at most [b]
    page requests, for every [b >= 1] with [T <= 50 * b] (the rounded-up
    quotient of [T] by the page size); it does not loop on and on. *)
Theorem consistent_search_terminates (E : Env) (qp k : string) (T : Z)
    (b fuel : nat) (w : World) :
  consistent E qp T →
  T ≤ 50 * Z.of_nat b →
  (1 ≤ b)%nat →
  let run := searchOrders E fuel qp k w in
  ∃ reqs,
    page_requests (trace run.2) = page_requests (trace w) ++ reqs ∧
    (length reqs ≤ b)%nat ∧
    ((b ≤ fuel)%nat → run.1 ≠ Timeout).
Proof.
  intros Hcons HT Hb run. subst run.
  destruct (searchOrders E fuel qp k w) as [o wf] eqn:Hrun. simpl.
  assert (Hnone : o ≠ Timeout → page_requests (trace wf) = page_requests (trace w) →
            ∃ reqs, page_requests (trace wf) = page_requests (trace w) ++ reqs ∧
                    (length reqs ≤ b)%nat ∧ ((b ≤ fuel)%nat → o ≠ Timeout)).
  { intros Ho Hq. exists []. rewrite app_nil_r. split_and!; [done|simpl; lia|done]. }
  unfold searchOrders in Hrun. case_match.
  { cbv [ret] in Hrun. simplify_eq. by apply Hnone. }
  unfold bind at 1, get in Hrun.
  destruct (member (INSTANCES E) k); cbv [ret throw] in Hrun;
    [|simplify_eq; by apply Hnone].
  unfold bind at 1 in Hrun.
  destruct (getAccessTokenForInstance E k w) as [ot wt] eqn:Hcall.
  assert (Hq : page_requests (trace wt) = page_requests (trace w)).
  { destruct (token_call_trace E k w ot wt Hcall) as [->|[payload ->]]; [done|].
    rewrite page_requests_app. simpl. apply app_nil_r. }
  destruct (token_call_ends E k w) as [Hthrow|(tok & w' & Hret)];
    rewrite Hcall in *; simplify_eq; [by apply Hnone|].
  unfold bind in Hrun.
  destruct (searchOrders_loop E fuel qp k loop_start w') as [ol wl] eqn:Hloop.
  destruct (searchOrders_loop_bounded E qp k T Hcons fuel b loop_start w' ol wl)
    as (reqs & Hreq & Hlen & Hfuel);
    [apply within_total_start|simpl; lia|done|done|].
  exists reqs. rewrite <- Hq.
  destruct ol as [final| |]; cbv [ret] in Hrun; simplify_eq; split_and!; try done.
  intros Hle. by apply Hfuel in Hle.
Qed.

Lemma consistent_search_terminates_witness :
  let run := searchOrders paged_env 3 "in_status_ids=delivered" "Amado" initial_world in
  ∃ reqs,
    page_requests (trace run.2) = page_requests (trace initial_world) ++ reqs ∧
    (length reqs ≤ 3)%nat ∧
    ((3 ≤ 3)%nat → run.1 ≠ Timeout).
Proof.
  apply (consistent_search_terminates paged_env "in_status_ids=delivered" "Amado" 120
           3 3 initial_world).
  - apply paged_env_consistent.
  - lia.
  - lia.
Defined.

(** * Further properties of the container search *)

Lemma findOrders_attempt_raises E req attempt w :
  attempt_raises E (trace w) req →
  findOrders_attempt E req attempt w
  = if attempt <? maxRetries then
      (Ret NextAttempt,
       after_event (after_event w (EvFetch req)) (EvSleep (2 ^ attempt * 1000)))
    else (Ret NextAttempt, after_event w (EvFetch req)).
Proof.
  intros [Hnet|(code & body & Hnet & Hcode & Hraise)];
    cbv [findOrders_attempt try_catch bind UrlFetchApp_fetch]; rewrite Hnet; simpl.
  - destruct (attempt <? maxRetries); reflexivity.
  - replace (200 <=? code) with true by lia.
    replace (code <? 300) with true by lia. simpl.
    unfold parse.
    destruct Hraise as [Hparse|(json & Hparse & [Hdata|(data & total & Hdata & Htruthy
                                                       & Htotal & Htext)])];
      rewrite Hparse; simpl.
    + destruct (attempt <? maxRetries); reflexivity.
    + unfold get. rewrite Hdata. simpl.
      destruct (attempt <? maxRetries); reflexivity.
    + unfold get. rewrite Hdata. simpl. rewrite Htruthy, Htotal. simpl.
      unfold to_number. rewrite Htext. simpl.
      destruct (attempt <? maxRetries); reflexivity.
Qed.

Lemma findOrders_retry_raises E req fuel attempt w :
  attempt ≤ maxRetries →
  attempt_raises E (trace w) req →
  findOrders_retry E req (S fuel) attempt w
  = if attempt <? maxRetries then
      findOrders_retry E req fuel (attempt + 1)
        (after_event (after_event w (EvFetch req)) (EvSleep (2 ^ attempt * 1000)))
    else findOrders_retry E req fuel (attempt + 1) (after_event w (EvFetch req)).
Proof.
  intros Hle Hraises. simpl.
  replace (attempt <=? maxRetries) with true by lia.
  unfold bind. rewrite (findOrders_attempt_raises E req attempt w Hraises).
  destruct (attempt <? maxRetries); reflexivity.
Qed.

(** X7: failures that raise inside the loop are retried to the end: with a
    token that the Authorization header can be built from, when every
    attempt finds the server unreachable, or gets a success status with a
    body that does not parse, that parses to [null], or whose [data.total]
    has no number form, the search request is sent three times, with
    back-off sleeps of base 2000 and 4000 ms after the first two, and the
    result is the [null] after the loop. *)
Theorem findOrders_retries_exceptions (E : Env) (k cid : string) (w w1 : World)
    (tok sub : value) :
  getAccessTokenForInstance E k w = (Ret tok, w1) →
  truthy tok = true →
  has_text tok = true →
  member (instanceManager2_getConfig k) "subdomain" = Some sub →
  truthy sub = true →
  let req := TwoStageSearch sub cid tok in
  (∀ h, attempt_raises E h req) →
  ∃ w',
    findOrdersByContainerId E k cid w = (Ret VNull, w') ∧
    trace w' = trace w1 ++ [EvFetch req; EvSleep 2000; EvFetch req;
                            EvSleep 4000; EvFetch req].
Proof.
  intros Hcall Htok Htext Hsub Hsubt req Hraises.
  rewrite (findOrders_enters_loop E k cid w w1 tok sub Hcall Htok Htext Hsub Hsubt).
  fold req. change (Z.to_nat maxRetries) with 3%nat.
  rewrite (findOrders_retry_raises E req 2 1 w1) by (done || apply Hraises).
  change (1 <? maxRetries) with true. cbv iota.
  rewrite (findOrders_retry_raises E req 1 (1 + 1)) by (done || apply Hraises).
  change (1 + 1 <? maxRetries) with true. cbv iota.
  rewrite (findOrders_retry_raises E req 0 (1 + 1 + 1)) by (done || apply Hraises).
  change (1 + 1 + 1 <? maxRetries) with false. cbv iota.
  eexists. split; [reflexivity|]. simpl. by rewrite <- !app_assoc.
Qed.

Lemma findOrders_retries_exceptions_witness :
  let req := TwoStageSearch (VStr "athn") "CAAU5142250" (VStr "tok1") in
  ∃ w',
    findOrdersByContainerId garbled_env "Amado" "CAAU5142250" initial_world
    = (Ret VNull, w') ∧
    trace w'
    = trace (getAccessTokenForInstance garbled_env "Amado" initial_world).2
      ++ [EvFetch req; EvSleep 2000; EvFetch req; EvSleep 4000; EvFetch req].
Proof.
  intros req.
  apply (findOrders_retries_exceptions garbled_env "Amado" "CAAU5142250"
           initial_world _ (VStr "tok1") (VStr "athn")).
  - vm_compute. reflexivity.
  - reflexivity.
  - reflexivity.
  - reflexivity.
  - reflexivity.
  - intros h. right. exists 200, "<html>"%string.
    split; [done|]. split; [lia|]. left. vm_compute. reflexivity.
Defined.

Lemma instanceManager2_known k sub :
  member (instanceManager2_getConfig k) "subdomain" = Some sub →
  truthy sub = true →
  (k = "Amado"%string ∧ sub = VStr "athn") ∨ (k = "Sonot"%string ∧ sub = VStr "tdcs").
Proof.
  unfold instanceManager2_getConfig, instanceManager2_config. simpl.
  destruct (String.eqb_spec k "Amado") as [->|_].
  { simpl. intros [= <-] _. by left. }
  destruct (String.eqb_spec k "Sonot") as [->|_].
  { simpl. intros [= <-] _. by right. }
  done.
Qed.

(** X8: what the function never does: every request it sends is either the
    token exchange or the search with a truthy bearer token and the
    subdomain that [instanceManager2] lists for the instance ([athn] for
    Amado, [tdcs] for Sonot); for any other instance, and without a token,
    no search goes out. In all it sends at most four requests. *)
Theorem findOrders_requests (E : Env) (k cid : string) (w : World) :
  let run := findOrdersByContainerId E k cid w in
  ∃ extra,
    trace run.2 = trace w ++ extra ∧
    (length (network_calls extra) ≤ 4)%nat ∧
    ∀ req, req ∈ network_calls extra →
      (∃ payload, req = TokenRequest payload) ∨
      (∃ tok, truthy tok = true ∧
              ((k = "Amado"%string ∧ req = TwoStageSearch (VStr "athn") cid tok) ∨
               (k = "Sonot"%string ∧ req = TwoStageSearch (VStr "tdcs") cid tok))).
Proof.
  intros run. subst run.
  destruct (getAccessTokenForInstance E k w) as [ot w1] eqn:Hcall.
  pose proof (token_call_trace E k w ot w1 Hcall) as Htr.
  assert (Htoken : ∃ pre, trace w1 = trace w ++ pre ∧
                     (length (network_calls pre) ≤ 1)%nat ∧
                     ∀ req, req ∈ network_calls pre → ∃ payload, req = TokenRequest payload).
  { destruct Htr as [->|[payload ->]].
    - exists []. rewrite app_nil_r. split_and!; [done|simpl; lia|].
      intros req Hin. by apply elem_of_nil in Hin.
    - exists [EvFetch (TokenRequest payload)]. split_and!; [done|simpl; lia|].
      intros req Hin. apply list_elem_of_singleton in Hin. eauto. }
  destruct Htoken as (pre & Hpre & Hlen & Hall).
  assert (Hquiet : ∀ o, findOrdersByContainerId E k cid w = (o, w1) →
            ∃ extra, trace (findOrdersByContainerId E k cid w).2 = trace w ++ extra ∧
              (length (network_calls extra) ≤ 4)%nat ∧
              ∀ req, req ∈ network_calls extra →
                (∃ payload, req = TokenRequest payload) ∨
                (∃ tok, truthy tok = true ∧
                   ((k = "Amado"%string ∧ req = TwoStageSearch (VStr "athn") cid tok) ∨
                    (k = "Sonot"%string ∧ req = TwoStageSearch (VStr "tdcs") cid tok)))).
  { intros o ->. exists pre. split_and!; [done|lia|]. intros req Hin. left. eauto. }
  unfold findOrdersByContainerId at 1 in Hquiet. unfold bind at 1 in Hquiet.
  rewrite Hcall in Hquiet.
  destruct ot as [tok| |]; [|by eapply Hquiet..].
  destruct (truthy tok) eqn:Htok; simpl in Hquiet; [|by eapply Hquiet].
  destruct (member (instanceManager2_getConfig k) "subdomain") as [sub|] eqn:Hsub.
  2: { destruct (negb (truthy (instanceManager2_getConfig k))); by eapply Hquiet. }
  destruct (truthy sub) eqn:Hsubt.
  2: { simpl in Hquiet.
       destruct (negb (truthy (instanceManager2_getConfig k))); by eapply Hquiet. }
  destruct (has_text tok) eqn:Htext.
  2: { simpl in Hquiet. unfold bind at 1, template in Hquiet.
       rewrite Htext in Hquiet. unfold throw in Hquiet.
       destruct (negb (truthy (instanceManager2_getConfig k))); by eapply Hquiet. }
  clear Hquiet.
  rewrite (findOrders_enters_loop E k cid w w1 tok sub Hcall Htok Htext Hsub Hsubt).
  destruct (findOrders_retry E (TwoStageSearch sub cid tok) (Z.to_nat maxRetries) 1 w1)
    as [o w'] eqn:Hloop.
  apply findOrders_retry_calls in Hloop as (post & Hpost & Hlen' & Hall' & _).
  exists (pre ++ post). simpl. rewrite Hpost, Hpre, <- app_assoc.
  unfold network_calls in *. rewrite omap_app, length_app.
  change (Z.to_nat maxRetries) with 3%nat in Hlen'.
  split_and!; [done|lia|].
  intros req [Hin|Hin]%elem_of_app; [left; eauto|right].
  rewrite Forall_forall in Hall'. rewrite (Hall' _ Hin).
  exists tok. split; [done|].
  destruct (instanceManager2_known k sub Hsub Hsubt) as [[-> ->]|[-> ->]]; eauto.
Qed.

(** * Properties of the other endpoints *)

(** ** The base URL of an instance *)

Lemma getInstanceBaseURL_cases (AE : ApiEnv) (k : string) (w : World) :
  let config := getConfig (base AE) k in
  ∃ o, getInstanceBaseURL AE k w = (o, w) ∧
    match o with
    | Ret None => truthy config = false
    | Ret (Some u) =>
        truthy config = true ∧ no_base_url (Some u) = false ∧
        (u = platform_url
         ∨ ∃ sub, member config "SUBDOMAIN" = Some (VStr sub) ∧ sub ≠ ""%string ∧
                  String_trim AE sub ≠ ""%string ∧
                  u = ("https://" ++ String_trim AE sub ++ ".roserocket.com")%string)
    | Throw e =>
        e = TypeError ∧ truthy config = true ∧
        ((∃ fields, config = VObj fields ∧ has_own "hasOwnProperty" fields = true)
         ∨ (∃ SUBDOMAIN, member config "SUBDOMAIN" = Some SUBDOMAIN ∧
                         has_text SUBDOMAIN = false))
    | Timeout => False
    end.
Proof.
  intros config. subst config. unfold getInstanceBaseURL.
  destruct (truthy (getConfig (base AE) k)) eqn:Hcfg; cbn [negb].
  2: { by exists (Ret None). }
  unfold bind at 1, get.
  destruct (member (getConfig (base AE) k) "SUBDOMAIN") as [SUBDOMAIN|] eqn:Hsub.
  2: { by destruct (getConfig (base AE) k). }
  unfold ret at 1.
  destruct (usable_subdomain AE SUBDOMAIN) as [subdomain|] eqn:Huse.
  { eexists. split; [reflexivity|]. split_and!; [done|done|]. right.
    unfold usable_subdomain in Huse. destruct SUBDOMAIN as [| | | |sub| |]; try done.
    destruct (truthy (VStr sub)) eqn:Ht; [|done]. cbn [andb] in Huse.
    destruct (String.eqb_spec (String_trim AE sub) "") as [|Htrim]; [done|].
    cbn [negb] in Huse. simplify_eq. exists sub. split_and!; [done| |done|done].
    intros ->. done. }
  unfold bind at 1, hasOwnProperty.
  destruct (getConfig (base AE) k) as [| |b|n|s|items|fields] eqn:Hconfig; try done.
  1-4: cbv [ret throw]; cbn [negb];
       try (destruct (String.eqb "SUBDOMAIN" "length") eqn:Hlen; [done|]; cbn [negb]);
       eexists; (split; [reflexivity|]); split_and!; [done|done|by left].
  destruct (has_own "hasOwnProperty" fields) eqn:Hown.
  { eexists. split; [reflexivity|]. split_and!; [done|done|]. left. eauto. }
  unfold ret at 1. destruct (has_own "SUBDOMAIN" fields); cbn [negb].
  2: { eexists. split; [reflexivity|]. split_and!; [done|done|by left]. }
  unfold bind, template. destruct (has_text SUBDOMAIN) eqn:Htext.
  - eexists. split; [reflexivity|]. split_and!; [done|done|by left].
  - eexists. split; [reflexivity|]. split_and!; [done|done|]. right. eauto.
Qed.

(** X9: [getInstanceBaseURL] leaves the world as it was. It answers [null]
    exactly when the instance has no truthy configuration. A truthy
    configuration whose [SUBDOMAIN] is a string with something left after
    trimming gives the URL built from the trimmed subdomain. Any other
    URL it answers is the platform URL, and every URL is non-empty, so
    that the callers' test [if (!baseUrl)] fires for a missing
    configuration only. It raises only on the way to the platform URL:
    when the configuration has an own property [hasOwnProperty], or when
    the [SUBDOMAIN] that the log line prints has no string form. *)
Theorem base_url_shape (AE : ApiEnv) (k : string) (w : World) :
  let config := getConfig (base AE) k in
  let found := getInstanceBaseURL AE k w in
  found.2 = w
  ∧ (∀ sub, truthy config = true → member config "SUBDOMAIN" = Some (VStr sub) →
            sub ≠ ""%string → String_trim AE sub ≠ ""%string →
            found.1
            = Ret (Some ("https://" ++ String_trim AE sub ++ ".roserocket.com")%string))
  ∧ match found.1 with
    | Ret None => truthy config = false
    | Ret (Some u) =>
        truthy config = true ∧ no_base_url (Some u) = false ∧
        (u = platform_url
         ∨ ∃ sub, member config "SUBDOMAIN" = Some (VStr sub) ∧ sub ≠ ""%string ∧
                  String_trim AE sub ≠ ""%string ∧
                  u = ("https://" ++ String_trim AE sub ++ ".roserocket.com")%string)
    | Throw e =>
        e = TypeError ∧ truthy config = true ∧
        ((∃ fields, config = VObj fields ∧ has_own "hasOwnProperty" fields = true)
         ∨ (∃ SUBDOMAIN, member config "SUBDOMAIN" = Some SUBDOMAIN ∧
                         has_text SUBDOMAIN = false))
    | Timeout => False
    end.
Proof.
  intros config found. subst config found.
  destruct (getInstanceBaseURL_cases AE k w) as (o & Hrun & Ho).
  split_and!.
  - by rewrite Hrun.
  - intros sub Hcfg Hsub Hne Htrim.
    unfold getInstanceBaseURL. rewrite Hcfg. cbn [negb].
    unfold bind, get. rewrite Hsub. unfold ret at 1. unfold usable_subdomain.
    assert (truthy (VStr sub) = true) as ->.
    { simpl. by apply negb_true_iff, String.eqb_neq. }
    apply String.eqb_neq in Htrim. rewrite Htrim. reflexivity.
  - by rewrite Hrun.
Qed.

Lemma base_url_step_cases (AE : ApiEnv) (k : string) (aw : ApiWorld) :
  base_url_step AE k aw
  = (Ret match getInstanceBaseURL AE k (core aw) with
         | (Ret (Some u), _) => Some u
         | _ => None
         end, aw).
Proof.
  assert (Hid : {| core := core aw; api_calls := api_calls aw |} = aw) by by destruct aw.
  unfold base_url_step, atry, abind, lift.
  destruct (getInstanceBaseURL_cases AE k (core aw)) as (o & -> & Ho).
  rewrite Hid. destruct o as [[u|]|e|]; try done.
  destruct Ho as (_ & -> & _). reflexivity.
Qed.

(** ** The legs of an order *)

(** X10: the two guards of [getOrderLegsByOrderId] in front of the token
    call: for an instance that is not a value of [Instance], or that has
    no stored configuration, the function returns [null] and does
    nothing else -- where [getAccessTokenForInstance], called on its own
    for an instance without a stored configuration, raises. *)
Theorem getOrderLegs_unknown_instance (AE : ApiEnv) (k orderId : string)
    (aw : ApiWorld) :
  k ∉ Instance_values ∨ getAllConfigs (base AE) !! k = None →
  getOrderLegsByOrderId AE k orderId aw = (Ret VNull, aw) ∧
  (getAllConfigs (base AE) !! k = None →
   getAccessTokenForInstance (base AE) k (core aw) = (Throw TypeError, core aw)).
Proof.
  intros Hk. split.
  - unfold getOrderLegsByOrderId, isValidInstance.
    destruct (bool_decide (k ∈ Instance_values)) eqn:Hin; [|done]. simpl.
    destruct Hk as [Hk|Hk]; [by apply bool_decide_eq_true_1 in Hin|].
    rewrite Hk, bool_decide_eq_false_2 by (intros [? ?]; done).
    by rewrite andb_false_r.
  - intros Hnone. apply getAccessToken_unresolved. unfold getConfig. by rewrite Hnone.
Qed.

Lemma getOrderLegs_unknown_instance_witness :
  getOrderLegsByOrderId (api_env (ok "legs.json")) "Sonot" "order-1" initial_api_world
  = (Ret VNull, initial_api_world) ∧
  getAccessTokenForInstance (base (api_env (ok "legs.json"))) "Sonot"
    (core initial_api_world)
  = (Throw TypeError, core initial_api_world).
Proof.
  assert (Hnone : getAllConfigs (base (api_env (ok "legs.json"))) !! "Sonot"%string = None)
    by (vm_compute; reflexivity).
  destruct (getOrderLegs_unknown_instance (api_env (ok "legs.json")) "Sonot" "order-1"
              initial_api_world (or_intror Hnone)) as [Hnull Hthrow].
  split; [exact Hnull|exact (Hthrow Hnone)].
Defined.

Lemma lift_token_call (AE : ApiEnv) k aw :
  (¬ resolves (base AE) k ∧
   lift (getAccessTokenForInstance (base AE) k) aw = (Throw TypeError, aw))
  ∨ (resolves (base AE) k ∧
     ∃ tok w', getAccessTokenForInstance (base AE) k (core aw) = (Ret tok, w') ∧
               lift (getAccessTokenForInstance (base AE) k) aw
               = (Ret tok, {| core := w'; api_calls := api_calls aw |})).
Proof.
  unfold lift.
  destruct (resolves_dec (base AE) k) as [Hres|Hn].
  - right. split; [done|].
    destruct (token_call_returns (base AE) k (core aw) Hres) as (tok & w' & -> & _).
    eauto.
  - left. split; [done|]. rewrite (not_resolves_throws _ _ _ Hn). by destruct aw.
Qed.

Lemma lift_template (v : value) (w : World) (calls : list ApiCall) :
  lift (template v) {| core := w; api_calls := calls |}
  = (if has_text v then Ret () else Throw TypeError,
     {| core := w; api_calls := calls |}).
Proof. unfold lift, template. by destruct (has_text v). Qed.

Lemma truthy_resolves E k : truthy (getConfig E k) = true → resolves E k.
Proof. unfold resolves. destruct (getConfig E k); done. Qed.

(** X11: what [getOrderLegsByOrderId] does past its two guards. Without a
    configuration to destructure the token call raises before anything
    is sent. Without a token the result is [null] and nothing is sent. A
    token without a string form raises a TypeError where the
    Authorization header is built, in front of the [try], and nothing is
    sent. Otherwise a single GET goes to the legs endpoint of the
    platform host with the token of the token call as bearer, and the
    result is [null] or an array: an array exactly when the answer has
    status 200 and a body that parses to something whose [legs] is that
    array. ([encodeURIComponent] is applied to well-formed strings, on
    which it does not raise.) *)
Theorem getOrderLegs_result (AE : ApiEnv) (k orderId : string) (aw : ApiWorld) :
  let run := getOrderLegsByOrderId AE k orderId aw in
  if bool_decide (k ∈ Instance_values) && isValidInstance AE k then
    (¬ resolves (base AE) k ∧ run = (Throw TypeError, aw))
    ∨
    ∃ tok w',
      getAccessTokenForInstance (base AE) k (core aw) = (Ret tok, w') ∧
      core run.2 = w' ∧
      if truthy tok then
        if has_text tok then
          api_calls run.2 = api_calls aw ++ [legs_call AE orderId tok] ∧
          ∃ v, run.1 = Ret v ∧
            (v = VNull ∨ is_array v = true) ∧
            (v ≠ VNull ↔
             ∃ body parsed,
               api AE (trace w') (api_calls aw) (legs_call AE orderId tok)
               = Answer {| getResponseCode := 200; getContentText := body |} ∧
               JSON_parse (base AE) (VStr body) = Some parsed ∧
               member parsed "legs" = Some v ∧ is_array v = true)
        else run.1 = Throw TypeError ∧ api_calls run.2 = api_calls aw
      else run.1 = Ret VNull ∧ api_calls run.2 = api_calls aw
  else run = (Ret VNull, aw).
Proof.
  intros run. subst run.
  destruct (getOrderLegsByOrderId AE k orderId aw) as [o aw1] eqn:Hrun.
  cbn [fst snd]. unfold getOrderLegsByOrderId in Hrun.
  destruct (bool_decide (k ∈ Instance_values)); cbn [negb andb] in *;
    [|cbv [aret] in Hrun; by simplify_eq].
  destruct (isValidInstance AE k); cbn [negb] in *;
    [|cbv [aret] in Hrun; by simplify_eq].
  unfold abind at 1 in Hrun.
  destruct (lift_token_call AE k aw) as [[Hn Ht]|(Hres & tok & w' & Hcall & Ht)];
    rewrite Ht in Hrun; [left; by simplify_eq|right]. clear Ht.
  exists tok, w'. split; [done|].
  destruct (truthy tok) eqn:Htok; cbn [negb] in Hrun;
    [|cbv [aret] in Hrun; by simplify_eq].
  unfold abind at 1 in Hrun. rewrite lift_template in Hrun.
  destruct (has_text tok) eqn:Htext; [|by simplify_eq].
  fold (legs_call AE orderId tok) in Hrun.
  cbv [abind atry api_fetch aret] in Hrun. cbn [core api_calls] in Hrun.
  assert (Hnull : o = Ret VNull → aw1 = {| core := w'; api_calls := api_calls aw ++ [legs_call AE orderId tok] |} →
            (∀ body parsed v,
               api AE (trace w') (api_calls aw) (legs_call AE orderId tok)
               = Answer {| getResponseCode := 200; getContentText := body |} →
               JSON_parse (base AE) (VStr body) = Some parsed →
               member parsed "legs" = Some v → is_array v = true → False) →
            core aw1 = w' ∧ api_calls aw1 = api_calls aw ++ [legs_call AE orderId tok] ∧
            ∃ v, o = Ret v ∧ (v = VNull ∨ is_array v = true) ∧
              (v ≠ VNull ↔ ∃ body parsed,
                 api AE (trace w') (api_calls aw) (legs_call AE orderId tok)
                 = Answer {| getResponseCode := 200; getContentText := body |} ∧
                 JSON_parse (base AE) (VStr body) = Some parsed ∧
                 member parsed "legs" = Some v ∧ is_array v = true)).
  { intros -> -> Hno. split_and!; [done..|]. exists VNull. split_and!; [done|by left|].
    split; [done|]. intros (? & ? & ? & _ & ? & Harr). done. }
  destruct (api AE (trace w') (api_calls aw) _) as [[code body]|] eqn:Hapi;
    cbn [getResponseCode getContentText after_call core api_calls] in Hrun.
  2: { simplify_eq. by apply Hnull. }
  destruct (Z.eqb_spec code 200) as [->|Hcode].
  2: { apply Hnull; [by repeat case_match; simplify_eq..|].
       intros ? ? ? ?. by simplify_eq. }
  cbv [lift parse get ret throw] in Hrun. cbn [core api_calls] in Hrun.
  destruct (JSON_parse (base AE) (VStr body)) as [parsed|] eqn:Hparse.
  2: { simplify_eq. apply Hnull; [done..|]. intros ? ? ? ? ?. by simplify_eq. }
  destruct (truthy parsed) eqn:Hparsed.
  2: { simplify_eq. apply Hnull; [done..|]. intros b0 p v Hans Hp Hm Harr.
       assert (p = parsed) as -> by congruence.
       destruct parsed as [| |[]|n|s| |]; simpl in *; simplify_eq;
         try done; by repeat case_match. }
  destruct (member parsed "legs") as [legs|] eqn:Hlegs; [|by destruct parsed].
  cbn [core api_calls] in Hrun.
  destruct (is_array legs) eqn:Harr; cbn [core api_calls] in Hrun; rewrite ?Hlegs in Hrun.
  - simplify_eq. split_and!; [done..|]. exists legs. split_and!; [done|by right|].
    split; [|by destruct legs]. intros _. by exists body, parsed.
  - simplify_eq. apply Hnull; [done..|]. intros b0 p v Hans Hp Hm Harr'.
    assert (p = parsed) as -> by congruence. congruence.
Qed.

(** ** Payments of a manifest *)

(** X12: [putPaymentForManifest]: without a configuration to destructure the
    token call raises before anything is sent. Otherwise the token call
    returns, and what follows depends on its token. Without a token, and
    when [getInstanceBaseURL] gives no URL or raises, the result is
    [null] and nothing is sent. A token without a string form raises a
    TypeError where the Authorization header is built, in front of the
    [try], and nothing is sent. Otherwise a single PUT goes to the
    platform host (never the host of the instance's subdomain) carrying
    that token and the payment data; an answer in the 2xx range gives
    the parsed body -- or, when the body does not parse, the body itself
    as a string -- and any other answer, or none, gives [null]. *)
Theorem putPayment_result (AE : ApiEnv) (k manifestId : string) (paymentData : value)
    (aw : ApiWorld) :
  let run := putPaymentForManifest AE k manifestId paymentData aw in
  (¬ resolves (base AE) k ∧ run = (Throw TypeError, aw))
  ∨
  ∃ tok w',
    getAccessTokenForInstance (base AE) k (core aw) = (Ret tok, w') ∧
    core run.2 = w' ∧
    if truthy tok then
      match getInstanceBaseURL AE k w' with
      | (Ret (Some baseUrl), _) =>
          if has_text tok then
            api_calls run.2 = api_calls aw ++ [put_call manifestId tok paymentData] ∧
            match api AE (trace w') (api_calls aw)
                    (put_call manifestId tok paymentData) with
            | Answer response =>
                run.1 = Ret (if (200 <=? getResponseCode response)
                                && (getResponseCode response <? 300)
                             then default (VStr (getContentText response))
                                    (JSON_parse (base AE)
                                       (VStr (getContentText response)))
                             else VNull)
            | Unreachable => run.1 = Ret VNull
            end
          else run.1 = Throw TypeError ∧ api_calls run.2 = api_calls aw
      | _ => run.1 = Ret VNull ∧ api_calls run.2 = api_calls aw
      end
    else run.1 = Ret VNull ∧ api_calls run.2 = api_calls aw.
Proof.
  intros run. subst run.
  destruct (putPaymentForManifest AE k manifestId paymentData aw) as [o aw1] eqn:Hrun.
  cbn [fst snd].
  unfold putPaymentForManifest, abind at 1 in Hrun.
  destruct (lift_token_call AE k aw) as [[Hn Ht]|(Hres & tok & w' & Hcall & Ht)];
    rewrite Ht in Hrun; [left; by simplify_eq|right]. clear Ht.
  exists tok, w'. split; [done|].
  destruct (truthy tok) eqn:Htok; cbn [negb] in Hrun;
    [|cbv [aret] in Hrun; by simplify_eq].
  unfold abind at 1 in Hrun. rewrite base_url_step_cases in Hrun. cbn [core] in Hrun.
  destruct (getInstanceBaseURL AE k w') as [[[baseUrl|]|e|] w0];
    try (cbv [aret] in Hrun; by simplify_eq).
  unfold abind at 1 in Hrun. rewrite lift_template in Hrun.
  destruct (has_text tok) eqn:Htext; [|by simplify_eq].
  fold (put_call manifestId tok paymentData) in Hrun.
  cbv [abind aret atry lift api_fetch parse ret throw] in Hrun.
  cbn [core api_calls] in Hrun.
  destruct (api AE (trace w') (api_calls aw) _) as [[code body]|] eqn:Hapi;
    cbn [getResponseCode getContentText] in *.
  2: { by simplify_eq. }
  destruct ((200 <=? code) && (code <? 300)); [|by simplify_eq].
  cbn [after_call core api_calls] in Hrun.
  destruct (JSON_parse (base AE) (VStr body)) as [parsed|] eqn:Hparse; by simplify_eq.
Qed.

Lemma payment_of_cases (responseData : value) (aw : ApiWorld) :
  ∃ v, payment_of responseData aw = (Ret v, aw) ∧
       (v = VNull ∨ truthy v = true) ∧
       (v = VNull ∨ v = responseData
        ∨ ∃ data, member responseData "data" = Some data ∧
                  member data "payment" = Some v).
Proof.
  assert (Hid : {| core := core aw; api_calls := api_calls aw |} = aw) by by destruct aw.
  unfold payment_of.
  cbv [abind aret lift get ret throw].
  destruct responseData as [| |b|n|s|items|fields]; cbn [truthy member].
  1-2: eexists; split; [reflexivity|]; split; by left.
  - destruct b; cbn; rewrite ?Hid; eexists; (split; [reflexivity|]); split; by left.
  - destruct (n =? 0) eqn:Hn; cbn; rewrite ?Hn, ?Hid; cbn;
      eexists; (split; [reflexivity|]); split; by left.
  - destruct (s =? "")%string; cbn; rewrite ?Hid; cbn; rewrite ?Hid;
      eexists; (split; [reflexivity|]); split; by left.
  - cbn. rewrite ?Hid. cbn. eexists. split; [reflexivity|].
    split; [by right|right; by left].
  - rewrite Hid.
    destruct (own_prop "data" fields) as [| |b|n|s|items|gs] eqn:Hdata;
      cbn [typeof_object not_null andb truthy];
      try (eexists; split; [reflexivity|split; [by right|right; by left]]).
    + cbn. rewrite ?Hid. cbn.
      eexists. split; [reflexivity|]. split; [by right|right; by left].
    + cbn [member]. rewrite Hid.
      destruct (truthy (own_prop "payment" gs)) eqn:Hp; rewrite ?Hdata, ?Hid;
        cbn [member typeof_object not_null andb truthy]; rewrite ?Hid.
      * eexists. split; [reflexivity|]. split; [by right|].
        right. right. exists (VObj gs). done.
      * eexists. split; [reflexivity|]. split; [by right|right; by left].
Qed.

(** X13: [getPaymentForManifest] raises before anything is sent when the
    token call has no configuration to destructure. Otherwise the token
    call returns. Without a token, and when [getInstanceBaseURL] gives no
    URL or raises, the result is [null] and nothing is sent. A token
    without a string form raises a TypeError where the Authorization
    header is built, in front of the [try], and nothing is sent.
    Otherwise a single GET goes to the base URL of the instance with
    that token as bearer. The result is then [null] or truthy, and when
    it is not [null] the answer was in the 2xx range with a body that
    parses: the result is the parsed body itself, or its
    [data.payment]. *)
Theorem getPayment_result (AE : ApiEnv) (k manifestId : string) (aw : ApiWorld) :
  let run := getPaymentForManifest AE k manifestId aw in
  (¬ resolves (base AE) k ∧ run = (Throw TypeError, aw))
  ∨
  ∃ tok w',
    getAccessTokenForInstance (base AE) k (core aw) = (Ret tok, w') ∧
    core run.2 = w' ∧
    if truthy tok then
      match getInstanceBaseURL AE k w' with
      | (Ret (Some baseUrl), _) =>
          if has_text tok then
            api_calls run.2 = api_calls aw ++ [payment_call baseUrl manifestId tok] ∧
            ∃ v, run.1 = Ret v ∧
              (v = VNull ∨ truthy v = true) ∧
              (v ≠ VNull →
               ∃ code body parsed,
                 api AE (trace w') (api_calls aw) (payment_call baseUrl manifestId tok)
                 = Answer {| getResponseCode := code; getContentText := body |} ∧
                 200 ≤ code < 300 ∧
                 JSON_parse (base AE) (VStr body) = Some parsed ∧
                 (v = parsed
                  ∨ ∃ data, member parsed "data" = Some data ∧
                            member data "payment" = Some v))
          else run.1 = Throw TypeError ∧ api_calls run.2 = api_calls aw
      | _ => run.1 = Ret VNull ∧ api_calls run.2 = api_calls aw
      end
    else run.1 = Ret VNull ∧ api_calls run.2 = api_calls aw.
Proof.
  intros run. subst run.
  destruct (getPaymentForManifest AE k manifestId aw) as [o aw1] eqn:Hrun.
  cbn [fst snd].
  unfold getPaymentForManifest, abind at 1 in Hrun.
  destruct (lift_token_call AE k aw) as [[Hn Ht]|(Hres & tok & w' & Hcall & Ht)];
    rewrite Ht in Hrun; [left; by simplify_eq|right]. clear Ht.
  exists tok, w'. split; [done|].
  destruct (truthy tok) eqn:Htok; cbn [negb] in Hrun;
    [|cbv [aret] in Hrun; by simplify_eq].
  unfold abind at 1 in Hrun. rewrite base_url_step_cases in Hrun. cbn [core] in Hrun.
  destruct (getInstanceBaseURL AE k w') as [[[u|]|e|] w0];
    try (cbv [aret] in Hrun; by simplify_eq).
  unfold abind at 1 in Hrun. rewrite lift_template in Hrun.
  destruct (has_text tok) eqn:Htext; [|by simplify_eq].
  fold (payment_call u manifestId tok) in Hrun.
  assert (Hnull : o = Ret VNull →
            aw1 = {| core := w';
                     api_calls := api_calls aw ++ [payment_call u manifestId tok] |} →
            core aw1 = w' ∧
            api_calls aw1 = api_calls aw ++ [payment_call u manifestId tok] ∧
            ∃ v, o = Ret v ∧ (v = VNull ∨ truthy v = true) ∧
              (v ≠ VNull →
               ∃ code body parsed,
                 api AE (trace w') (api_calls aw) (payment_call u manifestId tok)
                 = Answer {| getResponseCode := code; getContentText := body |} ∧
                 200 ≤ code < 300 ∧
                 JSON_parse (base AE) (VStr body) = Some parsed ∧
                 (v = parsed
                  ∨ ∃ data, member parsed "data" = Some data ∧
                            member data "payment" = Some v))).
  { intros -> ->. split_and!; [done..|]. exists VNull. split_and!; [done|by left|done]. }
  cbv [abind atry api_fetch] in Hrun. cbn [core api_calls] in Hrun.
  destruct (api AE (trace w') (api_calls aw) _) as [[code body]|] eqn:Hapi;
    cbn [getResponseCode getContentText] in Hrun.
  2: { cbv [aret after_call] in Hrun. simplify_eq. by apply Hnull. }
  destruct (Z.leb_spec 200 code); cbn [andb] in Hrun.
  2: { destruct (code =? 404); cbv [aret after_call] in Hrun; simplify_eq;
         by apply Hnull. }
  destruct (Z.ltb_spec code 300).
  2: { destruct (code =? 404); cbv [aret after_call] in Hrun; simplify_eq;
         by apply Hnull. }
  cbv [lift parse ret throw] in Hrun. cbn [after_call core api_calls] in Hrun.
  destruct (JSON_parse (base AE) (VStr body)) as [parsed|] eqn:Hparse.
  2: { cbv [aret] in Hrun. simplify_eq. by apply Hnull. }
  cbn [core api_calls] in Hrun.
  destruct (payment_of_cases parsed
              {| core := w'; api_calls := api_calls aw ++ [payment_call u manifestId tok] |})
    as (v & Hpay & Hv & Hshape).
  rewrite Hpay in Hrun. simplify_eq. cbn [core api_calls].
  split_and!; [done..|]. exists v. split_and!; [done|done|].
  intros Hnn. exists code, body, parsed. split_and!; [done|lia|lia|done|].
  destruct Hshape as [?|[?|?]]; [done|by left|by right].
Qed.

(** ** Internal notes *)

(** X14: [postRoserocketInternalNote] answers [false] at once for a name that
    is not a value of [Instance]. For a value of [Instance] without a
    configuration to destructure the token call raises. Otherwise the
    token call returns: without a token the answer is [false] and
    nothing is sent; a token without a string form raises a TypeError
    where the authorization header is built, in front of the [try], and
    nothing is sent; otherwise a single POST goes out -- to the [athn]
    host whatever the instance, authored by the configured [USERNAME],
    with the token of the token call as bearer -- and the answer is
    [true] exactly when that POST is answered in the 2xx range. *)
Theorem postNote_result (AE : ApiEnv) (k orderId : string) (message : value)
    (aw : ApiWorld) :
  let run := postRoserocketInternalNote AE k orderId message aw in
  if bool_decide (k ∈ Instance_values) then
    (¬ resolves (base AE) k ∧ run = (Throw TypeError, aw))
    ∨
    ∃ tok w',
      getAccessTokenForInstance (base AE) k (core aw) = (Ret tok, w') ∧
      core run.2 = w' ∧
      if truthy tok then
        if has_text tok then
          ∃ author b,
            member (getConfig (base AE) k) "USERNAME" = Some author ∧
            api_calls run.2 = api_calls aw ++ [note_call orderId tok author message] ∧
            run.1 = Ret (VBool b) ∧
            (b = true ↔
             ∃ code body,
               api AE (trace w') (api_calls aw) (note_call orderId tok author message)
               = Answer {| getResponseCode := code; getContentText := body |} ∧
               200 ≤ code < 300)
        else run.1 = Throw TypeError ∧ api_calls run.2 = api_calls aw
      else run.1 = Ret (VBool false) ∧ api_calls run.2 = api_calls aw
  else run = (Ret (VBool false), aw).
Proof.
  intros run. subst run.
  destruct (postRoserocketInternalNote AE k orderId message aw) as [o aw1] eqn:Hrun.
  cbn [fst snd].
  unfold postRoserocketInternalNote in Hrun.
  destruct (bool_decide (k ∈ Instance_values)) eqn:Hin; cbn [negb] in Hrun;
    [|cbv [aret] in Hrun; by simplify_eq].
  unfold abind at 1 in Hrun.
  destruct (lift_token_call AE k aw) as [[Hn Ht]|(Hres & tok & w' & Hcall & Ht)];
    rewrite Ht in Hrun; [left; by simplify_eq|right]. clear Ht.
  exists tok, w'. split; [done|].
  destruct (truthy tok) eqn:Htok; cbn [negb] in Hrun;
    [|cbv [aret] in Hrun; by simplify_eq].
  destruct (member_resolves (base AE) k "USERNAME" Hres) as [author Hauthor].
  unfold abind at 1, lift at 1, get in Hrun. rewrite Hauthor in Hrun.
  unfold ret at 1 in Hrun. cbn [core api_calls] in Hrun.
  unfold abind at 1 in Hrun. rewrite lift_template in Hrun.
  destruct (has_text tok) eqn:Htext; [|by simplify_eq].
  cbv [atry abind api_fetch] in Hrun. cbn [core api_calls] in Hrun.
  fold (note_call orderId tok author message) in Hrun.
  destruct (api AE (trace w') (api_calls aw) _) as [[code body]|] eqn:Hapi;
    cbn [getResponseCode getContentText] in Hrun.
  2: { cbv [aret after_call] in Hrun. simplify_eq. split; [done|].
       exists author, false. split_and!; [done..|].
       split; [done|]. intros (? & ? & Hans & ?). by rewrite Hapi in Hans. }
  destruct (Z.leb_spec 200 code); cbn [andb] in Hrun.
  2: { cbv [aret after_call] in Hrun. simplify_eq. split; [done|].
       exists author, false. split_and!; [done..|].
       split; [done|]. intros (? & ? & Hans & ?). rewrite Hapi in Hans.
       simplify_eq. lia. }
  destruct (Z.ltb_spec code 300).
  2: { cbv [aret after_call] in Hrun. simplify_eq. split; [done|].
       exists author, false. split_and!; [done..|].
       split; [done|]. intros (? & ? & Hans & ?). rewrite Hapi in Hans.
       simplify_eq. lia. }
  cbv [aret after_call] in Hrun. simplify_eq. split; [done|].
  exists author, true. split_and!; [done..|].
  split; [|done]. intros _. exists code, body. split; [done|lia].
Qed.

Lemma truck_scan_quiet items w o w' : truck_scan items w = (o, w') → w' = w.
Proof.
  revert w o w'. induction items as [|e rest IH]; intros w o w' Hrun; simpl in Hrun.
  { cbv [ret] in Hrun. by simplify_eq. }
  revert Hrun. cbv [bind get ret throw].
  repeat (case_match; simplify_eq; try done); intros Hrun;
    first [by simplify_eq | by eapply IH].
Qed.

Lemma trailer_scan_quiet items w o w' : trailer_scan items w = (o, w') → w' = w.
Proof.
  revert w o w'. induction items as [|e rest IH]; intros w o w' Hrun; simpl in Hrun.
  { cbv [ret] in Hrun. by simplify_eq. }
  revert Hrun. cbv [bind get ret throw].
  repeat (case_match; simplify_eq; try done); intros Hrun;
    first [by simplify_eq | by eapply IH].
Qed.

Lemma untyped_entry_scans e rest w :
  untyped e →
  truck_scan (e :: rest) w = truck_scan rest w ∧
  trailer_scan (e :: rest) w = (Throw TypeError, w).
Proof.
  intros Hu. unfold untyped in Hu. simpl. cbv [bind get ret throw].
  destruct (member e "equipment_type") as [t|] eqn:Ht.
  - rewrite (Hu t eq_refl).
    assert (truthy t = false) as -> by (specialize (Hu t eq_refl); by destruct t).
    split; [|done]. by destruct (truthy e).
  - split; [|done]. by destruct e.
Qed.

(** ** Equipment of a manifest *)

(** X15: [getEquipmentForManifest] raises before anything is sent when the
    token call has no configuration to destructure. Otherwise the token
    call returns. Without a token or without a truthy configuration the
    result is [null] and nothing is sent. A token without a string form
    raises a TypeError where the Authorization header is built, in front
    of the [try], and nothing is sent. Otherwise a single GET goes to
    the platform host with that token as bearer, and the result is
    [null] or an array: an array exactly when the answer is in the 2xx
    range and its body parses to that array. The callers iterate over
    whatever is not falsy, which is therefore always an array. *)
Theorem getEquipment_result (AE : ApiEnv) (k manifestId : string) (aw : ApiWorld) :
  let run := getEquipmentForManifest AE k manifestId aw in
  (¬ resolves (base AE) k ∧ run = (Throw TypeError, aw))
  ∨
  ∃ tok w',
    getAccessTokenForInstance (base AE) k (core aw) = (Ret tok, w') ∧
    core run.2 = w' ∧
    if truthy tok && truthy (getConfig (base AE) k) then
      if has_text tok then
        api_calls run.2 = api_calls aw ++ [equipment_call manifestId tok] ∧
        ∃ v, run.1 = Ret v ∧
          (v = VNull ∨ is_array v = true) ∧
          (v ≠ VNull ↔
           ∃ code body,
             api AE (trace w') (api_calls aw) (equipment_call manifestId tok)
             = Answer {| getResponseCode := code; getContentText := body |} ∧
             200 ≤ code < 300 ∧
             JSON_parse (base AE) (VStr body) = Some v ∧ is_array v = true)
      else run.1 = Throw TypeError ∧ api_calls run.2 = api_calls aw
    else run.1 = Ret VNull ∧ api_calls run.2 = api_calls aw.
Proof.
  intros run. subst run.
  destruct (getEquipmentForManifest AE k manifestId aw) as [o aw1] eqn:Hrun.
  cbn [fst snd].
  unfold getEquipmentForManifest, abind at 1 in Hrun.
  destruct (lift_token_call AE k aw) as [[Hn Ht]|(Hres & tok & w' & Hcall & Ht)];
    rewrite Ht in Hrun; [left; by simplify_eq|right]. clear Ht.
  exists tok, w'. split; [done|].
  destruct (truthy tok) eqn:Htok; cbn [negb andb] in *;
    [|cbv [aret] in Hrun; by simplify_eq].
  destruct (truthy (getConfig (base AE) k)); cbn [negb] in Hrun;
    [|cbv [aret] in Hrun; by simplify_eq].
  unfold abind at 1 in Hrun. rewrite lift_template in Hrun.
  destruct (has_text tok) eqn:Htext; [|by simplify_eq].
  fold (equipment_call manifestId tok) in Hrun.
  assert (Hnull : o = Ret VNull →
            aw1 = {| core := w';
                     api_calls := api_calls aw ++ [equipment_call manifestId tok] |} →
            (∀ code body v,
               api AE (trace w') (api_calls aw) (equipment_call manifestId tok)
               = Answer {| getResponseCode := code; getContentText := body |} →
               200 ≤ code < 300 →
               JSON_parse (base AE) (VStr body) = Some v → is_array v = true → False) →
            core aw1 = w' ∧
            api_calls aw1 = api_calls aw ++ [equipment_call manifestId tok] ∧
            ∃ v, o = Ret v ∧ (v = VNull ∨ is_array v = true) ∧
              (v ≠ VNull ↔
               ∃ code body,
                 api AE (trace w') (api_calls aw) (equipment_call manifestId tok)
                 = Answer {| getResponseCode := code; getContentText := body |} ∧
                 200 ≤ code < 300 ∧
                 JSON_parse (base AE) (VStr body) = Some v ∧ is_array v = true)).
  { intros -> -> Hno. split_and!; [done..|]. exists VNull. split_and!; [done|by left|].
    split; [done|]. by intros (? & ? & ? & ? & ? & ?). }
  cbv [abind atry api_fetch] in Hrun. cbn [core api_calls] in Hrun.
  destruct (api AE (trace w') (api_calls aw) _) as [[code body]|] eqn:Hapi;
    cbn [getResponseCode getContentText] in Hrun.
  2: { cbv [aret after_call] in Hrun. simplify_eq. by apply Hnull. }
  destruct (Z.leb_spec 200 code); cbn [andb] in Hrun.
  2: { cbv [aret after_call] in Hrun. simplify_eq. apply Hnull; [done..|].
       intros ? ? ? ? ?. simplify_eq. lia. }
  destruct (Z.ltb_spec code 300).
  2: { cbv [aret after_call] in Hrun. simplify_eq. apply Hnull; [done..|].
       intros ? ? ? ? ?. simplify_eq. lia. }
  cbv [lift parse ret throw] in Hrun. cbn [after_call core api_calls] in Hrun.
  destruct (JSON_parse (base AE) (VStr body)) as [parsed|] eqn:Hparse.
  2: { cbv [aret] in Hrun. simplify_eq. apply Hnull; [done..|].
       intros ? ? ? ? ? ?. by simplify_eq. }
  destruct (is_array parsed) eqn:Harr; cbv [aret] in Hrun; simplify_eq;
    cbn [core api_calls].
  - split_and!; [done..|]. exists parsed. split_and!; [done|by right|].
    split; [|by destruct parsed]. intros _. exists code, body. by split_and!.
  - apply Hnull; [done..|]. intros c0 b0 v Hans _ Hp Harr'.
    assert (v = parsed) as -> by congruence. congruence.
Qed.

Lemma getEquipment_array (AE : ApiEnv) (k manifestId : string) (aw : ApiWorld)
    (tok : value) (w1 : World) (code : Z) (body : string) (items : list value) :
  getAccessTokenForInstance (base AE) k (core aw) = (Ret tok, w1) →
  truthy tok = true →
  has_text tok = true →
  truthy (getConfig (base AE) k) = true →
  api AE (trace w1) (api_calls aw) (equipment_call manifestId tok)
  = Answer {| getResponseCode := code; getContentText := body |} →
  200 ≤ code < 300 →
  JSON_parse (base AE) (VStr body) = Some (VArr items) →
  getEquipmentForManifest AE k manifestId aw
  = (Ret (VArr items),
     {| core := w1; api_calls := api_calls aw ++ [equipment_call manifestId tok] |}).
Proof.
  intros Ht Htok Htext Hcfg Hapi Hcode Hparse.
  unfold getEquipmentForManifest, abind at 1, lift at 1.
  rewrite Ht, Htok, Hcfg. cbn [negb].
  unfold abind at 1. rewrite lift_template, Htext.
  fold (equipment_call manifestId tok).
  cbv [abind atry api_fetch]. cbn [core api_calls]. rewrite Hapi.
  cbn [getResponseCode getContentText].
  replace (200 <=? code) with true by lia. replace (code <? 300) with true by lia.
  cbn [andb]. cbv [lift parse ret]. cbn [after_call core api_calls].
  rewrite Hparse. reflexivity.
Qed.

(** X16: the two lookups differ on an entry without an equipment type ([null],
    or an object whose [equipment_type] is missing or [null]), when the
    equipment request went out (a truthy token with a string form, a
    truthy configuration) and was answered with a list that starts with
    such an entry: the trailer lookup reads
    [equipmentEntry.equipment_type.name] for its log line before testing
    the entry and raises a TypeError, where the truck lookup skips the
    entry and goes on with the rest of the list. *)
Theorem trailer_lookup_raises_where_truck_skips (AE : ApiEnv) (k manifestId : string)
    (aw : ApiWorld) (tok : value) (w1 : World) (code : Z) (body : string)
    (equipmentEntry : value) (rest : list value) :
  getAccessTokenForInstance (base AE) k (core aw) = (Ret tok, w1) →
  truthy tok = true →
  has_text tok = true →
  truthy (getConfig (base AE) k) = true →
  api AE (trace w1) (api_calls aw) (equipment_call manifestId tok)
  = Answer {| getResponseCode := code; getContentText := body |} →
  200 ≤ code < 300 →
  JSON_parse (base AE) (VStr body) = Some (VArr (equipmentEntry :: rest)) →
  untyped equipmentEntry →
  let aw2 := {| core := w1;
                api_calls := api_calls aw ++ [equipment_call manifestId tok] |} in
  getTrailerNumberForManifest AE k manifestId aw = (Throw TypeError, aw2) ∧
  (∀ found, truck_scan rest w1 = (Ret found, w1) →
            getTruckNumberForManifest AE k manifestId aw
            = (Ret (default VNull found), aw2)).
Proof.
  intros Ht Htok Htext Hcfg Hapi Hcode Hparse Hun aw2.
  pose proof (getEquipment_array AE k manifestId aw tok w1 code body _
                Ht Htok Htext Hcfg Hapi Hcode Hparse) as Heq.
  destruct (untyped_entry_scans equipmentEntry rest w1 Hun) as [Htruck Htrailer].
  split.
  - unfold getTrailerNumberForManifest, abind at 1. rewrite Heq.
    cbn [truthy negb]. cbv [abind lift elements_of ret]. cbn [core api_calls].
    by rewrite Htrailer.
  - intros found Hfound.
    unfold getTruckNumberForManifest, abind at 1. rewrite Heq.
    cbn [truthy negb]. cbv [abind lift elements_of ret]. cbn [core api_calls].
    rewrite Htruck, Hfound. by destruct found.
Qed.

Lemma trailer_lookup_raises_where_truck_skips_witness :
  getTrailerNumberForManifest (api_env (ok "equipment.json")) "Amado" "m-1"
    initial_api_world
  = (Throw TypeError,
     {| core := (getAccessTokenForInstance (base (api_env (ok "equipment.json")))
                   "Amado" initial_world).2;
        api_calls := [equipment_call "m-1" (VStr "tok1")] |}) ∧
  getTruckNumberForManifest (api_env (ok "equipment.json")) "Amado" "m-1"
    initial_api_world
  = (Ret (VStr "T-101"),
     {| core := (getAccessTokenForInstance (base (api_env (ok "equipment.json")))
                   "Amado" initial_world).2;
        api_calls := [equipment_call "m-1" (VStr "tok1")] |}).
Proof.
  pose proof (trailer_lookup_raises_where_truck_skips
                (api_env (ok "equipment.json")) "Amado" "m-1"
                initial_api_world (VStr "tok1")
                (getAccessTokenForInstance (base (api_env (ok "equipment.json")))
                   "Amado" initial_world).2
                200 "equipment.json" VNull
                [VObj [("equipment_type", VObj [("name", VStr "Trailer")]);
                       ("equipment", VObj [("name", VStr "TR-53")])];
                 VObj [("equipment_type", VObj [("name", VStr "Vehicle")]);
                       ("equipment", VObj [("name", VStr "T-101")])]]%string) as H.
  destruct H as [H1 H2].
  - vm_compute. reflexivity.
  - reflexivity.
  - reflexivity.
  - vm_compute. reflexivity.
  - reflexivity.
  - lia.
  - vm_compute. reflexivity.
  - intros t Ht. discriminate Ht.
  - split; [exact H1|]. apply (H2 (Some (VStr "T-101"))). vm_compute. reflexivity.
Defined.

Lemma truck_scan_named e rest w name :
  named_vehicle e name → truck_scan (e :: rest) w = (Ret (Some name), w).
Proof.
  intros (t & eq & Ht & Hname & Heq & Hn & Htruthy).
  simpl. cbv [bind get ret throw].
  assert (truthy t = true) as Htt
    by (destruct t as [| |[]|n|s|items|fs]; simpl in Hname; by simplify_eq).
  assert (truthy e = true) as Hte
    by (destruct e as [| |[]|n|s|items|fs]; simpl in Ht; by simplify_eq).
  rewrite Hte, Ht, Htt, Hname. cbn [strict_eq_str]. rewrite String.eqb_refl.
  by rewrite Heq, Hn, Htruthy.
Qed.

Lemma truck_scan_step e w :
  (∃ name, named_vehicle e name)
  ∨ (∀ rest, truck_scan (e :: rest) w = (Throw TypeError, w))
  ∨ (∀ rest, truck_scan (e :: rest) w = truck_scan rest w).
Proof.
  destruct (truthy e) eqn:Hte.
  2: { right. right. intros rest. simpl. cbv [bind get ret throw]. by rewrite Hte. }
  destruct (member e "equipment_type") as [t|] eqn:Ht; [|by destruct e].
  destruct (truthy t) eqn:Htt.
  2: { right. right. intros rest. simpl. cbv [bind get ret throw].
       by rewrite Hte, Ht, Htt. }
  destruct (member t "name") as [tn|] eqn:Htn; [|by destruct t].
  destruct (strict_eq_str tn "Vehicle") eqn:Hv.
  2: { right. right. intros rest. simpl. cbv [bind get ret throw].
       by rewrite Hte, Ht, Htt, Htn, Hv. }
  destruct (member e "equipment") as [eq|] eqn:Heq; [|by destruct e].
  destruct (member eq "name") as [name|] eqn:Hn.
  2: { right. left. intros rest. simpl. cbv [bind get ret throw].
       by rewrite Hte, Ht, Htt, Htn, Hv, Heq, Hn. }
  destruct (truthy name) eqn:Hname.
  2: { right. right. intros rest. simpl. cbv [bind get ret throw].
       by rewrite Hte, Ht, Htt, Htn, Hv, Heq, Hn, Hname. }
  left. exists name, t, eq. split_and!; try done.
  destruct tn; try done. simpl in Hv. by apply String.eqb_eq in Hv as ->.
Qed.

(** X17: the loop of [getTruckNumberForManifest] returns a name exactly when
    the list has an entry of type [Vehicle] whose equipment has that
    (truthy) name, and the loop passes over everything in front of it
    without returning or raising: the first named vehicle wins. *)
Theorem truck_scan_first (equipment : list value) (w : World) (name : value) :
  truck_scan equipment w = (Ret (Some name), w)
  ↔ ∃ pre equipmentEntry post,
      equipment = pre ++ equipmentEntry :: post ∧
      truck_scan pre w = (Ret None, w) ∧
      named_vehicle equipmentEntry name.
Proof.
  split.
  - induction equipment as [|e rest IH]; [done|]. intros Hrun.
    destruct (truck_scan_step e w) as [[name' Hnamed]|[Hthrow|Hskip]].
    + rewrite (truck_scan_named e rest w name' Hnamed) in Hrun. simplify_eq.
      by exists [], e, rest.
    + by rewrite Hthrow in Hrun.
    + rewrite Hskip in Hrun. destruct (IH Hrun) as (pre & e0 & post & -> & Hpre & Hn).
      exists (e :: pre), e0, post. split_and!; [done| |done]. by rewrite Hskip.
  - intros (pre & e & post & -> & Hpre & Hnamed).
    induction pre as [|p pre IH]; [by apply truck_scan_named|].
    destruct (truck_scan_step p w) as [[name' Hn']|[Hthrow|Hskip]].
    + by rewrite (truck_scan_named p pre w name' Hn') in Hpre.
    + by rewrite Hthrow in Hpre.
    + rewrite Hskip in Hpre. simpl app. rewrite Hskip. by apply IH.
Qed.

Lemma first_in_transit_skip pre rest w :
  Forall waiting_leg pre →
  first_in_transit (pre ++ rest) w = first_in_transit rest w.
Proof.
  induction 1 as [|leg pre [[status Hs] Hnt] _ IH]; [done|].
  simpl. cbv [bind get ret throw]. unfold in_transit in Hnt. rewrite Hs in *.
  destruct (member leg "type") as [type|] eqn:Ht; [|by destruct leg].
  destruct (strict_eq_str status "loaded"); [done|]. simpl in Hnt.
  destruct (strict_eq_str status "dispatched"); [|done]. simpl in Hnt.
  by rewrite Hnt.
Qed.

Lemma first_in_transit_hit leg rest w :
  is_Some (member leg "status") → in_transit leg = true →
  first_in_transit (leg :: rest) w
  = (Ret (Some (default VUndef (member leg "manifest_id"))), w).
Proof.
  intros [status Hs] Hin. unfold in_transit in Hin. rewrite Hs in Hin.
  simpl. cbv [bind get ret throw]. rewrite Hs.
  destruct (member leg "type") as [type|] eqn:Ht; [|by destruct leg].
  destruct (member leg "manifest_id") as [id|] eqn:Hid; [|by destruct leg].
  destruct (strict_eq_str status "loaded"); [done|]. simpl in Hin.
  destruct (strict_eq_str status "dispatched"); [|done]. simpl in Hin.
  by rewrite Hin.
Qed.

Lemma line_haul_available_readable items w :
  Forall (λ leg, is_Some (member leg "status")) items →
  ∃ b, line_haul_available items w = (Ret b, w).
Proof.
  induction 1 as [|leg items [status Hs] _ [b IH]]; [by exists false|].
  simpl. cbv [bind get ret throw]. rewrite Hs.
  destruct (member leg "type") as [type|] eqn:Ht; [|by destruct leg].
  destruct (strict_eq_str type "line_haul"); [|by exists b].
  destruct (strict_eq_str status "available"); [by exists true|by exists b].
Qed.

(** ** The manifest of an order in transit *)

(** X18: [getManifestIdForInTransitOrder], whatever [getLegsForOrder] is: falsy
    legs give [null]; the first leg that is [loaded], or a [dispatched]
    line haul, gives its [manifest_id]; a [null] leg met before that
    raises a TypeError; and when no leg is in transit the result is
    [null] -- the second loop, which looks for an available line haul,
    changes nothing but the log. *)
Theorem in_transit_manifest (getLegsForOrder : string → string → A value)
    (k orderId : string) (aw aw1 : ApiWorld) (legs : value) :
  getLegsForOrder k orderId aw = (Ret legs, aw1) →
  let run := getManifestIdForInTransitOrder getLegsForOrder k orderId aw in
  (truthy legs = false → run = (Ret VNull, aw1))
  ∧
  (∀ pre leg post,
     legs = VArr (pre ++ leg :: post) → Forall waiting_leg pre →
     (is_Some (member leg "status") → in_transit leg = true →
      run = (Ret (default VUndef (member leg "manifest_id")), aw1))
     ∧
     (member leg "status" = None → run = (Throw TypeError, aw1)))
  ∧
  (∀ items, legs = VArr items → Forall waiting_leg items → run = (Ret VNull, aw1)).
Proof.
  intros Hlegs run. subst run.
  assert (Hid : {| core := core aw1; api_calls := api_calls aw1 |} = aw1)
    by by destruct aw1.
  assert (Hrun : ∀ items, legs = VArr items →
            getManifestIdForInTransitOrder getLegsForOrder k orderId aw
            = abind (lift (first_in_transit items))
                (λ found, match found with
                          | Some id => aret id
                          | None => let+ waiting := lift (line_haul_available items) in
                                    if waiting then aret VNull else aret VNull
                          end) aw1).
  { intros items ->. unfold getManifestIdForInTransitOrder, abind at 1.
    rewrite Hlegs. cbn [truthy negb]. unfold abind at 1, lift at 1.
    cbv [elements_of ret]. by rewrite Hid. }
  split_and!.
  - intros Hf. unfold getManifestIdForInTransitOrder, abind at 1.
    by rewrite Hlegs, Hf.
  - intros pre leg post Heq Hpre. rewrite (Hrun _ Heq).
    split; intros Hs; unfold abind at 1, lift at 1;
      rewrite first_in_transit_skip by done.
    + intros Hin. rewrite first_in_transit_hit by done. by rewrite Hid.
    + cbn [first_in_transit]. cbv [bind get throw]. rewrite Hs. by rewrite Hid.
  - intros items Heq Hall. rewrite (Hrun _ Heq).
    unfold abind at 1, lift at 1.
    rewrite <- (app_nil_r items) at 1. rewrite first_in_transit_skip by done.
    simpl first_in_transit. cbv [ret]. rewrite Hid.
    unfold abind, lift.
    destruct (line_haul_available_readable items (core aw1)) as [b ->].
    { eapply Forall_impl; [exact Hall|]. by intros leg [? _]. }
    cbv [aret]. rewrite Hid. by destruct b.
Qed.

Lemma in_transit_manifest_witness :
  getManifestIdForInTransitOrder (getOrderLegsByOrderId (api_env (ok "legs.json")))
    "Amado" "order-1" initial_api_world
  = (Ret (VStr "m-1"),
     (getOrderLegsByOrderId (api_env (ok "legs.json")) "Amado" "order-1"
        initial_api_world).2).
Proof.
  pose proof (in_transit_manifest (getOrderLegsByOrderId (api_env (ok "legs.json")))
                "Amado" "order-1" initial_api_world
                (getOrderLegsByOrderId (api_env (ok "legs.json")) "Amado" "order-1"
                   initial_api_world).2
                (VArr [VObj [("status", VStr "loaded");
                             ("manifest_id", VStr "m-1")]%string])) as H.
  destruct H as (_ & H & _).
  - vm_compute. reflexivity.
  - destruct (H [] (VObj [("status", VStr "loaded"); ("manifest_id", VStr "m-1")]%string)
                [] eq_refl (Forall_nil_2 _)) as [Hfound _].
    apply Hfound; [by eexists|reflexivity].
Defined.

(** ** Address books *)

(** X19: [obtenerDatosAddressBook] tests the name and the configuration
    before it asks for a token: for a name that is not a value of
    [Instance], or without a truthy configuration, it returns [null] and
    does nothing else, and otherwise the token call returns. Without a
    token the result is [null] and nothing is sent. A token without a
    string form raises a TypeError where the Authorization header is
    built, in front of the [try], and nothing is sent. Otherwise a
    single GET goes to the [athn] host with that token as bearer; the
    result is the parsed body of an answer whose status is below 400,
    and [null] when the status is 400 or more, when the body does not
    parse, or when the fetch fails. *)
Theorem obtenerDatosAddressBook_result (AE : ApiEnv)
    (k locationId searchTerm : string) (aw : ApiWorld) :
  let run := obtenerDatosAddressBook AE k locationId searchTerm aw in
  if bool_decide (k ∈ Instance_values) && truthy (getConfig (base AE) k) then
    ∃ tok w',
      getAccessTokenForInstance (base AE) k (core aw) = (Ret tok, w') ∧
      core run.2 = w' ∧
      if truthy tok then
        if has_text tok then
          api_calls run.2
          = api_calls aw ++ [address_books_call locationId searchTerm tok] ∧
          match api AE (trace w') (api_calls aw)
                  (address_books_call locationId searchTerm tok) with
          | Answer response =>
              run.1 = Ret (if 400 <=? getResponseCode response then VNull
                           else default VNull
                                  (JSON_parse (base AE)
                                     (VStr (getContentText response))))
          | Unreachable => run.1 = Ret VNull
          end
        else run.1 = Throw TypeError ∧ api_calls run.2 = api_calls aw
      else run.1 = Ret VNull ∧ api_calls run.2 = api_calls aw
  else run = (Ret VNull, aw).
Proof.
  intros run. subst run.
  destruct (obtenerDatosAddressBook AE k locationId searchTerm aw) as [o aw1] eqn:Hrun.
  cbn [fst snd].
  unfold obtenerDatosAddressBook in Hrun.
  destruct (bool_decide (k ∈ Instance_values)); cbn [negb andb] in *;
    [|cbv [aret] in Hrun; by simplify_eq].
  destruct (truthy (getConfig (base AE) k)) eqn:Hcfg; cbn [negb] in Hrun;
    [|cbv [aret] in Hrun; by simplify_eq].
  unfold abind at 1 in Hrun.
  destruct (lift_token_call AE k aw) as [[Hn Ht]|(Hres & tok & w' & Hcall & Ht)];
    [by destruct Hn; apply truthy_resolves|].
  rewrite Ht in Hrun. clear Ht.
  exists tok, w'. split; [done|].
  destruct (truthy tok) eqn:Htok; cbn [negb] in Hrun;
    [|cbv [aret] in Hrun; by simplify_eq].
  unfold abind at 1 in Hrun. rewrite lift_template in Hrun.
  destruct (has_text tok) eqn:Htext; [|by simplify_eq].
  fold (address_books_call locationId searchTerm tok) in Hrun.
  cbv [abind atry api_fetch aret lift parse ret throw] in Hrun.
  cbn [core api_calls] in Hrun.
  destruct (api AE (trace w') (api_calls aw) _) as [[code body]|] eqn:Hapi;
    cbn [getResponseCode getContentText after_call core api_calls] in *.
  2: { by simplify_eq. }
  destruct (400 <=? code); [by simplify_eq|].
  destruct (JSON_parse (base AE) (VStr body)) as [parsed|] eqn:Hparse; by simplify_eq.
Qed.

(** ** Multi-stop orders *)

(** X20: [createOrderMultiStopTaylor] tests the name and the configuration
    before it asks for a token: for a name that is not a value of
    [Instance], or without a truthy configuration, it returns [null] and
    does nothing else, and otherwise the token call returns. Without a
    token the result is [null] and nothing is sent. A token without a
    string form raises a TypeError where the Authorization header is
    built, and nothing is sent. Otherwise a single POST goes out with
    that token as bearer. The call to [UrlFetchApp.fetch] is outside any
    [try]: when the fetch itself fails the exception escapes. An answer
    in the 2xx range gives the parsed body ([null] when it does not
    parse), any other answer gives [null]. *)
Theorem createOrderMultiStop_result (AE : ApiEnv) (k customerId : string)
    (orderData : value) (aw : ApiWorld) :
  let run := createOrderMultiStopTaylor AE k customerId orderData aw in
  if bool_decide (k ∈ Instance_values) && truthy (getConfig (base AE) k) then
    ∃ tok w',
      getAccessTokenForInstance (base AE) k (core aw) = (Ret tok, w') ∧
      core run.2 = w' ∧
      if truthy tok then
        if has_text tok then
          api_calls run.2 = api_calls aw ++ [multistop_call customerId tok orderData] ∧
          match api AE (trace w') (api_calls aw)
                  (multistop_call customerId tok orderData) with
          | Unreachable => run.1 = Throw FetchError
          | Answer response =>
              run.1 = Ret (if (200 <=? getResponseCode response)
                              && (getResponseCode response <? 300)
                           then default VNull
                                  (JSON_parse (base AE)
                                     (VStr (getContentText response)))
                           else VNull)
          end
        else run.1 = Throw TypeError ∧ api_calls run.2 = api_calls aw
      else run.1 = Ret VNull ∧ api_calls run.2 = api_calls aw
  else run = (Ret VNull, aw).
Proof.
  intros run. subst run.
  destruct (createOrderMultiStopTaylor AE k customerId orderData aw) as [o aw1] eqn:Hrun.
  cbn [fst snd].
  unfold createOrderMultiStopTaylor in Hrun.
  destruct (bool_decide (k ∈ Instance_values)); cbn [negb andb] in *;
    [|cbv [aret] in Hrun; by simplify_eq].
  destruct (truthy (getConfig (base AE) k)) eqn:Hcfg; cbn [negb] in Hrun;
    [|cbv [aret] in Hrun; by simplify_eq].
  unfold abind at 1 in Hrun.
  destruct (lift_token_call AE k aw) as [[Hn Ht]|(Hres & tok & w' & Hcall & Ht)];
    [by destruct Hn; apply truthy_resolves|].
  rewrite Ht in Hrun. clear Ht.
  exists tok, w'. split; [done|].
  destruct (truthy tok) eqn:Htok; cbn [negb] in Hrun;
    [|cbv [aret] in Hrun; by simplify_eq].
  unfold abind at 1 in Hrun. rewrite lift_template in Hrun.
  destruct (has_text tok) eqn:Htext; [|by simplify_eq].
  fold (multistop_call customerId tok orderData) in Hrun.
  cbv [abind atry api_fetch aret lift parse ret throw] in Hrun.
  cbn [core api_calls] in Hrun.
  destruct (api AE (trace w') (api_calls aw) _) as [[code body]|] eqn:Hapi;
    cbn [getResponseCode getContentText after_call core api_calls] in *.
  2: { by simplify_eq. }
  destruct ((200 <=? code) && (code <? 300)); [|by simplify_eq].
  destruct (JSON_parse (base AE) (VStr body)) as [parsed|] eqn:Hparse; by simplify_eq.
Qed.


(** ** The webhook receiver, continued *)


